(** * cssu: the expression language of a CSS-shaped HTTP API description

    A shallow embedding of the parser ([src/parser.ts]), the evaluator
    ([src/evaluator.ts]) and the route compiler ([src/compiler.ts]) of the
    repository, and of the database set-up of its runtime
    ([src/runtime.ts]), with the properties its specification states about
    them and further properties read off the code.

    Conventions of the embedding.
    - JavaScript strings are Rocq [string]s: sequences of 8-bit characters.
      Case mapping and white space are those of the ASCII range; characters
      above 127 are opaque to both.
    - JavaScript numbers are IEEE 754 binary64 values, [spec_float] of the
      Standard Library at precision 53 and maximal exponent 1024.
    - A plain object used as a string-keyed record ([ctx.variables],
      [ctx.params], ...) is a [gmap string _] of its own properties, with
      [Object.prototype] behind it: reading a key the record does not have
      yields what every object inherits under that name (a function for
      [constructor], [toString] and the like, see [objectPrototypeMember])
      and [undefined] for any other name.  Arrays and objects hold data;
      the functions of the runtime appear only as what such a read yields.
      Assigning an object to [__proto__] replaces the prototype of a
      record; a record so changed is outside the model, and the properties
      of the handler are stated for routes that assign no such variable.
    - Converting a value to a string or to a number may throw: [String] and
      [Number] return an [Outcome], and so do the join of a [concat] and the
      emission of an [html] return.
    - The relational engine and the three host built-ins whose results no
      property below depends on ([JSON.parse], the number-to-string
      conversion, the text of a function) are interfaces; see [Builtins]
      and [Executor].  So is opening and closing a database; see
      [Connector].
    - [process.env] is a finite map from names to texts, an argument of the
      functions that read it. *)

From Stdlib Require Import ZArith Bool List Ascii String SpecFloat Lia.
From stdpp Require Import base option list gmap strings.

Import ListNotations.
Local Open Scope string_scope.
Local Open Scope Z_scope.

#[local] Set Warnings "-register-all,-clear-no-such-hyp".

(** ** JavaScript strings *)

Module JsString.

(** [WhiteSpace] and [LineTerminator] code points below 128: what
    [String.prototype.trim] removes and the regular expression class
    [\s] accepts. *)
Definition isWhiteSpace (c : ascii) : bool :=
  let n := nat_of_ascii c in
  (Nat.eqb n 9 || Nat.eqb n 10 || Nat.eqb n 11 || Nat.eqb n 12
   || Nat.eqb n 13 || Nat.eqb n 32)%bool.

(** [.] of a regular expression without the [s] flag: anything but a
    line terminator. *)
Definition isLineTerminator (c : ascii) : bool :=
  let n := nat_of_ascii c in (Nat.eqb n 10 || Nat.eqb n 13)%bool.

Definition isDigit (c : ascii) : bool :=
  let n := nat_of_ascii c in (Nat.leb 48 n && Nat.leb n 57)%bool.

(** The class [[\w-]]: letters, digits, underscore and hyphen. *)
Definition isWordOrHyphen (c : ascii) : bool :=
  let n := nat_of_ascii c in
  ((Nat.leb 48 n && Nat.leb n 57) || (Nat.leb 65 n && Nat.leb n 90)
   || (Nat.leb 97 n && Nat.leb n 122) || Nat.eqb n 95 || Nat.eqb n 45)%bool.

Definition isQuote (c : ascii) : bool :=
  (Ascii.eqb c "034" || Ascii.eqb c "'")%bool.

Fixpoint trimStart (s : string) : string :=
  match s with
  | EmptyString => EmptyString
  | String c r => if isWhiteSpace c then trimStart r else s
  end.

Fixpoint trimEnd (s : string) : string :=
  match s with
  | EmptyString => EmptyString
  | String c r =>
      match trimEnd r with
      | EmptyString => if isWhiteSpace c then EmptyString else String c EmptyString
      | r' => String c r'
      end
  end.

Definition trim (s : string) : string := trimEnd (trimStart s).

Definition startsWith (s p : string) : bool := String.prefix p s.

Definition len (s : string) : Z := Z.of_nat (String.length s).

(** [s.indexOf(needle)], with [-1] when there is no occurrence. *)
Fixpoint indexOfFrom (needle s : string) (i : Z) : Z :=
  if String.prefix needle s then i
  else match s with
       | EmptyString => -1
       | String _ r => indexOfFrom needle r (i + 1)
       end.

Definition indexOf (s needle : string) : Z := indexOfFrom needle s 0.

(** [s.slice(from, to)]: negative positions count from the end, both are
    clamped to the string, an empty range gives the empty string. *)
Definition clampIndex (s : string) (k : Z) : Z :=
  if k <? 0 then Z.max (len s + k) 0 else Z.min k (len s).

Definition slice (s : string) (from to : Z) : string :=
  let a := clampIndex s from in
  let b := clampIndex s to in
  String.substring (Z.to_nat a) (Z.to_nat (b - a)) s.

Definition sliceFrom (s : string) (from : Z) : string := slice s from (len s).

Definition upperChar (c : ascii) : ascii :=
  let n := nat_of_ascii c in
  if (Nat.leb 97 n && Nat.leb n 122)%bool then ascii_of_nat (n - 32) else c.

Definition lowerChar (c : ascii) : ascii :=
  let n := nat_of_ascii c in
  if (Nat.leb 65 n && Nat.leb n 90)%bool then ascii_of_nat (n + 32) else c.

Fixpoint mapChars (f : ascii -> ascii) (s : string) : string :=
  match s with
  | EmptyString => EmptyString
  | String c r => String (f c) (mapChars f r)
  end.

Definition toUpperCase : string -> string := mapChars upperChar.
Definition toLowerCase : string -> string := mapChars lowerChar.

(** [s.includes(needle)]. *)
Definition includes (s needle : string) : bool := negb (indexOf s needle =? -1).

(** [parts.join(sep)] over strings. *)
Fixpoint join (sep : string) (parts : list string) : string :=
  match parts with
  | [] => EmptyString
  | [p] => p
  | p :: rest => p ++ sep ++ join sep rest
  end.

Fixpoint lastChar (s : string) : option ascii :=
  match s with
  | EmptyString => None
  | String c EmptyString => Some c
  | String _ r => lastChar r
  end.

Fixpoint dropLast (s : string) : string :=
  match s with
  | EmptyString => EmptyString
  | String _ EmptyString => EmptyString
  | String c r => String c (dropLast r)
  end.

End JsString.

(** ** JavaScript numbers *)

Module JsNumber.
Import JsString.

Definition number : Type := spec_float.

Definition prec : Z := 53.
Definition emax : Z := 1024.

Definition NaN : number := S754_nan.
Definition zero : number := S754_zero false.

(** The integer [n] as a number (rounded when it needs more than 53 bits). *)
Definition ofZ (n : Z) : number := binary_normalize prec emax n 0 false.

(** The number nearest to [num / den], ties to even, with the sign [neg]. *)
Definition ofRatio (neg : bool) (num den : positive) : number :=
  let '(q, e, l) := SFdiv_core_binary prec emax (Zpos num) 0 (Zpos den) 0 in
  binary_round_aux prec emax neg q e l.

Definition isFinite (x : number) : bool :=
  match x with
  | S754_zero _ | S754_finite _ _ _ => true
  | S754_infinity _ | S754_nan => false
  end.

Definition isNaN (x : number) : bool :=
  match x with S754_nan => true | _ => false end.

(** [x === y], [x < y], [x <= y] on numbers; [x > y] is [ltb y x]. *)
Definition eqb (x y : number) : bool := SFeqb x y.
Definition ltb (x y : number) : bool := SFltb x y.
Definition leb (x y : number) : bool := SFleb x y.

(** *** Numeric text *)

Definition digitValue (c : ascii) : Z := Z.of_nat (nat_of_ascii c) - 48.

Fixpoint digitsValue (acc : Z) (s : string) : Z :=
  match s with
  | EmptyString => acc
  | String c r => digitsValue (10 * acc + digitValue c) r
  end.

(** The longest run of decimal digits at the head of [s], and the rest. *)
Fixpoint takeDigits (s : string) : string * string :=
  match s with
  | EmptyString => (EmptyString, EmptyString)
  | String c r =>
      if isDigit c then let '(ds, rest) := takeDigits r in (String c ds, rest)
      else (EmptyString, s)
  end.

Definition scanSign (s : string) : bool * string :=
  match s with
  | String "-" r => (true, r)
  | String "+" r => (false, r)
  | _ => (false, s)
  end.

(** An optional [ExponentPart]; without one the exponent is 0 and nothing
    is consumed. *)
Definition scanExponent (s : string) : Z * string :=
  match s with
  | String c r =>
      if (Ascii.eqb c "e" || Ascii.eqb c "E")%bool then
        let '(neg, r1) := scanSign r in
        let '(ds, r2) := takeDigits r1 in
        match ds with
        | EmptyString => (0, s)
        | _ => ((if neg then - digitsValue 0 ds else digitsValue 0 ds), r2)
        end
      else (0, s)
  | EmptyString => (0, s)
  end.

(** The value of the decimal numeral [ip.fp] times ten to the [e]. *)
Definition ofDecimal (neg : bool) (ip fp : string) (e : Z) : number :=
  let m := digitsValue 0 (ip ++ fp) in
  let e' := e - len fp in
  match m with
  | Zpos p =>
      if 0 <=? e' then ofRatio neg (p * Z.to_pos (10 ^ e')) 1
      else ofRatio neg p (Z.to_pos (10 ^ (- e')))
  | _ => S754_zero neg
  end.

(** The longest prefix of [r0] that is a [StrUnsignedDecimalLiteral], as a
    number of sign [neg], and what follows it. *)
Definition scanUnsigned (neg : bool) (r0 : string) : option (number * string) :=
  if startsWith r0 "Infinity" then Some (S754_infinity neg, sliceFrom r0 8)
  else
    let '(ip, r1) := takeDigits r0 in
    match r1 with
    | String "." r2 =>
        let '(fp, r3) := takeDigits r2 in
        match ip, fp with
        | EmptyString, EmptyString => None
        | _, _ => let '(e, r4) := scanExponent r3 in Some (ofDecimal neg ip fp e, r4)
        end
    | _ =>
        match ip with
        | EmptyString => None
        | _ => let '(e, r4) := scanExponent r1 in Some (ofDecimal neg ip EmptyString e, r4)
        end
    end.

(** The longest prefix of [s] that is a [StrDecimalLiteral], as a number,
    and what follows it. *)
Definition scanDecimal (s : string) : option (number * string) :=
  let '(neg, r0) := scanSign s in scanUnsigned neg r0.

(** [parseFloat(s)]. *)
Definition parseFloat (s : string) : number :=
  match scanDecimal (trimStart s) with
  | Some (x, _) => x
  | None => NaN
  end.

(** Digits of a [NonDecimalIntegerLiteral] in the given radix. *)
Definition radixDigit (radix : Z) (c : ascii) : option Z :=
  let n := Z.of_nat (nat_of_ascii c) in
  let d := if (48 <=? n) && (n <=? 57) then n - 48
           else if (97 <=? n) && (n <=? 102) then n - 87
           else if (65 <=? n) && (n <=? 70) then n - 55
           else radix in
  if d <? radix then Some d else None.

Fixpoint radixValue (radix acc : Z) (s : string) : option Z :=
  match s with
  | EmptyString => Some acc
  | String c r =>
      match radixDigit radix c with
      | Some d => radixValue radix (radix * acc + d) r
      | None => None
      end
  end.

Definition ofRadixDigits (radix : Z) (ds : string) : number :=
  match ds with
  | EmptyString => NaN
  | _ => match radixValue radix 0 ds with Some n => ofZ n | None => NaN end
  end.

(** [Number(s)] on a string: the [StringToNumber] conversion. *)
Definition ofString (s : string) : number :=
  let t := trim s in
  match t with
  | EmptyString => zero
  | String "0" (String c ds) =>
      if (Ascii.eqb c "x" || Ascii.eqb c "X")%bool then ofRadixDigits 16 ds
      else if (Ascii.eqb c "o" || Ascii.eqb c "O")%bool then ofRadixDigits 8 ds
      else if (Ascii.eqb c "b" || Ascii.eqb c "B")%bool then ofRadixDigits 2 ds
      else match scanDecimal t with
           | Some (x, EmptyString) => x
           | _ => NaN
           end
  | _ =>
      match scanDecimal t with
      | Some (x, EmptyString) => x
      | _ => NaN
      end
  end.

End JsNumber.

Import JsString JsNumber.

(** ** The data model ([src/types.ts]) *)

(** An object of the runtime itself, which a record yields for a name it
    inherits: [Object.prototype], or one of the functions it holds, by its
    name ([Object] for [constructor]). *)
Inductive Builtin : Type :=
  | ObjectPrototype
  | NativeFunction (name : string).

(** A runtime value: [undefined], [null], a boolean, a number, a string, an
    array, a plain object with its own properties in insertion order, or an
    object of the runtime. *)
Inductive Value : Type :=
  | VUndefined
  | VNull
  | VBool (b : bool)
  | VNumber (n : number)
  | VString (s : string)
  | VArray (items : list Value)
  | VObject (fields : list (string * Value))
  | VBuiltin (b : Builtin).

(** The comparand of a relational condition: [string | number]. *)
Inductive Comparand : Type :=
  | CmpString (s : string)
  | CmpNumber (n : number).

Inductive Condition : Type :=
  | CTruthy (varName : string)
  | CEquals (varName : string) (value : Comparand)
  | CNotEquals (varName : string) (value : Comparand)
  | CGreaterThan (varName : string) (value : Comparand)
  | CLessThan (varName : string) (value : Comparand)
  | CGreaterOrEqual (varName : string) (value : Comparand)
  | CLessOrEqual (varName : string) (value : Comparand)
  | CAnd (conditions : list Condition)
  | COr (conditions : list Condition)
  | CNot (condition : Condition).

(** An expression tree.  A branch of [if] (an [IfBranch]) is the pair of its
    condition and its value.  The source types the value of a literal as a
    primitive; evaluation returns it as it is, whatever it is. *)
Inductive Expression : Type :=
  | ELiteral (value : Value)
  | EVar (name : string)
  | EParam (paramName : string)
  | EQuery (paramName : string)
  | EBody (fieldName : string)
  | EHeader (headerName : string)
  | ESql (query : string) (args : list Expression)
  | EIf (branches : list (Condition * Expression)) (elseValue : option Expression)
  | EJson (value : Value)
  | EHtml (value : string)
  | EConcat (parts : list Expression).

Record VariableAssignment : Type := {
  va_name : string;
  va_value : Expression }.

(** A literal status holds a number; the two other forms hold the expression
    to evaluate. *)
Inductive StatusValue : Type :=
  | StatusLiteral (value : number)
  | StatusVar (value : Expression)
  | StatusIf (value : Expression).

Inductive ReturnKind : Type := ReturnJson | ReturnHtml.

Record ReturnValue : Type := {
  rv_type : ReturnKind;
  rv_value : Expression }.

Record RouteRule : Type := {
  route_path : string;
  route_method : string;
  route_variables : list VariableAssignment;
  route_status : option StatusValue;
  route_return : ReturnValue }.

Record RequestContext : Type := {
  params : gmap string string;
  query : gmap string string;
  body : gmap string Value;
  headers : gmap string string;
  variables : gmap string Value }.

(** *** Induction over the nested trees *)

Section ValueInd.
Variable P : Value -> Prop.
Hypothesis Hundefined : P VUndefined.
Hypothesis Hnull : P VNull.
Hypothesis Hbool : forall b, P (VBool b).
Hypothesis Hnumber : forall n, P (VNumber n).
Hypothesis Hstring : forall s, P (VString s).
Hypothesis Harray : forall items, Forall P items -> P (VArray items).
Hypothesis Hobject : forall fields, Forall (fun f => P (snd f)) fields -> P (VObject fields).
Hypothesis Hbuiltin : forall b, P (VBuiltin b).

Fixpoint Value_nested_ind (v : Value) : P v :=
  match v with
  | VUndefined => Hundefined
  | VNull => Hnull
  | VBool b => Hbool b
  | VNumber n => Hnumber n
  | VString s => Hstring s
  | VArray items =>
      Harray items
        ((fix all (vs : list Value) : Forall P vs :=
            match vs with
            | [] => @List.Forall_nil _ P
            | v' :: vs' => @List.Forall_cons _ P v' vs' (Value_nested_ind v') (all vs')
            end) items)
  | VObject fields =>
      Hobject fields
        ((fix all (fs : list (string * Value)) : Forall (fun f => P (snd f)) fs :=
            match fs with
            | [] => @List.Forall_nil _ _
            | f :: fs' =>
                @List.Forall_cons _ (fun f => P (snd f)) f fs'
                  (Value_nested_ind (snd f)) (all fs')
            end) fields)
  | VBuiltin b => Hbuiltin b
  end.
End ValueInd.

Section ConditionInd.
Variable P : Condition -> Prop.
Hypothesis Htruthy : forall n, P (CTruthy n).
Hypothesis Heq : forall n v, P (CEquals n v).
Hypothesis Hne : forall n v, P (CNotEquals n v).
Hypothesis Hgt : forall n v, P (CGreaterThan n v).
Hypothesis Hlt : forall n v, P (CLessThan n v).
Hypothesis Hge : forall n v, P (CGreaterOrEqual n v).
Hypothesis Hle : forall n v, P (CLessOrEqual n v).
Hypothesis Hand : forall cs, Forall P cs -> P (CAnd cs).
Hypothesis Hor : forall cs, Forall P cs -> P (COr cs).
Hypothesis Hnot : forall c, P c -> P (CNot c).

Fixpoint Condition_nested_ind (c : Condition) : P c :=
  let all := fix all (cs : list Condition) : Forall P cs :=
               match cs with
               | [] => @List.Forall_nil _ P
               | c' :: cs' => @List.Forall_cons _ P c' cs' (Condition_nested_ind c') (all cs')
               end in
  match c with
  | CTruthy n => Htruthy n
  | CEquals n v => Heq n v
  | CNotEquals n v => Hne n v
  | CGreaterThan n v => Hgt n v
  | CLessThan n v => Hlt n v
  | CGreaterOrEqual n v => Hge n v
  | CLessOrEqual n v => Hle n v
  | CAnd cs => Hand cs (all cs)
  | COr cs => Hor cs (all cs)
  | CNot c' => Hnot c' (Condition_nested_ind c')
  end.
End ConditionInd.

Section ExpressionInd.
Variable P : Expression -> Prop.
Hypothesis Hliteral : forall v, P (ELiteral v).
Hypothesis Hvar : forall n, P (EVar n).
Hypothesis Hparam : forall n, P (EParam n).
Hypothesis Hquery : forall n, P (EQuery n).
Hypothesis Hbody : forall n, P (EBody n).
Hypothesis Hheader : forall n, P (EHeader n).
Hypothesis Hsql : forall q args, Forall P args -> P (ESql q args).
Hypothesis Hif : forall branches elseValue,
    Forall (fun b => P (snd b)) branches ->
    (forall e, elseValue = Some e -> P e) ->
    P (EIf branches elseValue).
Hypothesis Hjson : forall v, P (EJson v).
Hypothesis Hhtml : forall s, P (EHtml s).
Hypothesis Hconcat : forall parts, Forall P parts -> P (EConcat parts).

Fixpoint Expression_nested_ind (e : Expression) : P e :=
  let all := fix all (es : list Expression) : Forall P es :=
               match es with
               | [] => @List.Forall_nil _ P
               | e' :: es' => @List.Forall_cons _ P e' es' (Expression_nested_ind e') (all es')
               end in
  let allb := fix allb (bs : list (Condition * Expression))
                : Forall (fun b => P (snd b)) bs :=
                match bs with
                | [] => @List.Forall_nil _ _
                | b :: bs' =>
                    @List.Forall_cons _ (fun b => P (snd b)) b bs'
                      (Expression_nested_ind (snd b)) (allb bs')
                end in
  match e with
  | ELiteral v => Hliteral v
  | EVar n => Hvar n
  | EParam n => Hparam n
  | EQuery n => Hquery n
  | EBody n => Hbody n
  | EHeader n => Hheader n
  | ESql q args => Hsql q args (all args)
  | EIf branches elseValue =>
      Hif branches elseValue (allb branches)
        (match elseValue as o return forall e', o = Some e' -> P e' with
         | Some e1 => fun e' H =>
             match H in _ = o return match o with Some x => P x | None => True end with
             | eq_refl => Expression_nested_ind e1
             end
         | None => fun e' H => match H with end
         end)
  | EJson v => Hjson v
  | EHtml s => Hhtml s
  | EConcat parts => Hconcat parts (all parts)
  end.
End ExpressionInd.

(** ** The host environment *)

(** The result of running code that may raise: the value it returned, or what
    it threw (an [Error] instance with its message, or anything else). *)
Inductive Thrown : Type :=
  | ThrownError (message : string)
  | ThrownOther.

Inductive Outcome (A : Type) : Type :=
  | Returned (a : A)
  | Threw (e : Thrown).

Arguments Returned {A} a.
Arguments Threw {A} e.

Definition outcomeValue {A} (r : Outcome A) : option A :=
  match r with
  | Returned a => Some a
  | Threw _ => None
  end.

(** Built-ins of the JavaScript runtime that the code calls and that are not
    defined above: [JSON.parse] ([None] when it throws a [SyntaxError]), the
    conversion of a number to its decimal text, and the text of a function
    of the runtime, by its name. *)
Class Builtins : Type := {
  JSON_parse : string -> option Value;
  Number_toString : number -> string;
  Function_toString : string -> string }.

(** The [TypeError] of a conversion to a primitive value that finds no
    method to call. *)
Definition conversionError : Thrown :=
  ThrownError "Cannot convert object to primitive value".

(** [r] and then [k] on what it returned; a throw goes through. *)
Definition andThen {A B} (r : Outcome A) (k : A -> Outcome B) : Outcome B :=
  match r with
  | Returned a => k a
  | Threw e => Threw e
  end.

(** [items.map(f)] when [f] may throw: left to right, up to the first
    throw. *)
Fixpoint mapOutcome {A B} (f : A -> Outcome B) (l : list A) : Outcome (list B) :=
  match l with
  | [] => Returned []
  | x :: rest =>
      andThen (f x) (fun y => andThen (mapOutcome f rest) (fun ys => Returned (y :: ys)))
  end.

(** A result row of the relational engine: a plain object. *)
Definition Row : Type := list (string * Value).

Record RunResult : Type := {
  changes : number;
  lastInsertRowid : number }.

(** The relational engine ([better-sqlite3]) over database contents [D]:
    [db.prepare(text)], and [get], [all] and [run] of a prepared statement
    with its bound arguments.  Each may throw; the three that execute may
    change the contents. *)
Class Executor (D : Type) : Type := {
  Statement : Type;
  prepare : string -> D -> Outcome Statement;
  stmt_get : Statement -> list Value -> D -> Outcome (option Row) * D;
  stmt_all : Statement -> list Value -> D -> Outcome (list Row) * D;
  stmt_run : Statement -> list Value -> D -> Outcome RunResult * D }.

(** ** The parser ([src/parser.ts]) *)

(** *** Balanced-content extraction *)

(** The loop of [extractFunctionContent]: the position of the first [)] that
    brings [depth] to zero, scanning [s] whose first character is at
    position [i]. *)
Fixpoint findClose (s : string) (depth i : Z) : option Z :=
  match s with
  | EmptyString => None
  | String c r =>
      if Ascii.eqb c "(" then findClose r (depth + 1) (i + 1)
      else if Ascii.eqb c ")" then
        let depth' := depth - 1 in
        if depth' =? 0 then Some i else findClose r depth' (i + 1)
      else findClose r depth (i + 1)
  end.

Definition extractFunctionContent (value funcName : string) : string :=
  let start := indexOf value (funcName ++ "(") + len funcName + 1 in
  let end_ := match findClose (sliceFrom value start) 1 start with
              | Some i => i
              | None => start
              end in
  slice value start end_.

(** [value.trim().replace(/^["']|["']$/g, '')]: one quote character taken
    off each end. *)
Definition stripQuotes (t : string) : string :=
  let t1 := match t with
            | String c r => if isQuote c then r else t
            | EmptyString => t
            end in
  match lastChar t1 with
  | Some c => if isQuote c then dropLast t1 else t1
  | None => t1
  end.

Definition parseStringValue (value : string) : string := stripQuotes (trim value).

(** [s.replace(/^p/, '')] for a literal prefix [p]. *)
Definition stripPrefix (p s : string) : string :=
  if startsWith s p then sliceFrom s (len p) else s.

(** *** The quote- and depth-tracking scanners *)

(** The variables the loops of [parseFunctionArgs], [splitIfBranches] and
    [findColonInBranch] carry: [stringChar] is [None] for its initial value,
    the empty string. *)
Record ScanState : Type := {
  depth : Z;
  inString : bool;
  stringChar : option ascii }.

Definition scanStart : ScanState :=
  {| depth := 0; inString := false; stringChar := None |}.

(** One iteration of those loops on [char], up to the test for the
    separator [sep]: the next state, and whether [char] is a separator at
    depth 0 outside a quoted run. *)
Definition scanChar (sep : ascii) (st : ScanState) (char : ascii) : ScanState * bool :=
  if (isQuote char && negb (inString st))%bool then
    ({| depth := depth st; inString := true; stringChar := Some char |}, false)
  else if (match stringChar st with Some q => Ascii.eqb char q | None => false end
           && inString st)%bool then
    ({| depth := depth st; inString := false; stringChar := stringChar st |}, false)
  else if negb (inString st) then
    if Ascii.eqb char "(" then
      ({| depth := depth st + 1; inString := false; stringChar := stringChar st |}, false)
    else if Ascii.eqb char ")" then
      ({| depth := depth st - 1; inString := false; stringChar := stringChar st |}, false)
    else if (Ascii.eqb char sep && (depth st =? 0))%bool then (st, true)
    else (st, false)
  else (st, false).

(** The text accumulated in [current] at each separator, in order, and the
    text left in [current] when the input ends. *)
Fixpoint splitScan (sep : ascii) (st : ScanState) (current s : string)
  : list string * string :=
  match s with
  | EmptyString => ([], current)
  | String c r =>
      let '(st', isSep) := scanChar sep st c in
      if isSep then
        let '(pieces, last) := splitScan sep st' EmptyString r in
        (current :: pieces, last)
      else splitScan sep st' (current ++ String c EmptyString) r
  end.

Definition nonBlank (s : string) : bool :=
  match trim s with EmptyString => false | _ => true end.

(** The texts [parseFunctionArgs] hands to [parseExpression], in order: every
    comma-separated piece whose trimmed text is not empty, trimmed. *)
Definition splitFunctionArgs (argsStr : string) : list string :=
  let '(pieces, last) := splitScan "," scanStart EmptyString argsStr in
  map trim (List.filter nonBlank (pieces ++ [last])%list).

Definition splitIfBranches (str : string) : list string :=
  let '(pieces, last) := splitScan ";" scanStart EmptyString str in
  (pieces ++ (if nonBlank last then [last] else []))%list.

Fixpoint findColonFrom (st : ScanState) (s : string) (i : Z) : Z :=
  match s with
  | EmptyString => -1
  | String c r =>
      let '(st', isSep) := scanChar ":" st c in
      if isSep then i else findColonFrom st' r (i + 1)
  end.

Definition findColonInBranch (str : string) : Z := findColonFrom scanStart str 0.

(** *** Conditions *)

Fixpoint takeWhile (f : ascii -> bool) (s : string) : string * string :=
  match s with
  | EmptyString => (EmptyString, EmptyString)
  | String c r =>
      if f c then let '(a, b) := takeWhile f r in (String c a, b)
      else (EmptyString, s)
  end.

Fixpoint existsChar (f : ascii -> bool) (s : string) : bool :=
  match s with
  | EmptyString => false
  | String c r => (f c || existsChar f r)%bool
  end.

(** The end [\s*(.+)$] of the comparison pattern on what follows the
    operator: the text of the last group.  [\s*] gives back one character
    when nothing else is left for [.+], and [.] refuses line terminators. *)
Definition matchComparand (r : string) : option string :=
  match trimStart r with
  | EmptyString =>
      match lastChar r with
      | Some c => if isLineTerminator c then None else Some (String c EmptyString)
      | None => None
      end
  | r' => if existsChar isLineTerminator r' then None else Some r'
  end.

(** [s.match(/^(--[\w-]+)\s*(=|!=|>=|<=|>|<)\s*(.+)$/)]: the three groups.
    The alternatives of the operator are tried in the order written, so
    [>=] and [<=] fall back to [>] and [<] when no comparand follows them. *)
Definition matchComparison (s : string) : option (string * string * string) :=
  if startsWith s "--" then
    let '(name, r0) := takeWhile isWordOrHyphen (sliceFrom s 2) in
    match name with
    | EmptyString => None
    | _ =>
        let group1 := "--" ++ name in
        let found (op : string) (r : string) :=
          match matchComparand r with
          | Some v => Some (group1, op, v)
          | None => None
          end in
        match trimStart r0 with
        | String "=" r => found "=" r
        | String "!" (String "=" r) => found "!=" r
        | String ">" (String "=" r) =>
            match found ">=" r with
            | Some m => Some m
            | None => found ">" (String "=" r)
            end
        | String "<" (String "=" r) =>
            match found "<=" r with
            | Some m => Some m
            | None => found "<" (String "=" r)
            end
        | String ">" r => found ">" r
        | String "<" r => found "<" r
        | _ => None
        end
    end
  else None.

(** [s.match(/^--([\w-]+)$/)]: the group. *)
Definition matchVariable (s : string) : option string :=
  if startsWith s "--" then
    match takeWhile isWordOrHyphen (sliceFrom s 2) with
    | (String c name, EmptyString) => Some (String c name)
    | _ => None
    end
  else None.

(** The comparand of a relational condition: a number when [Number] reads
    the text as one, else the text without its quotes. *)
Definition parseComparand (valueStr : string) : Comparand :=
  if isNaN (ofString valueStr) then CmpString (parseStringValue valueStr)
  else CmpNumber (ofString valueStr).

Definition parseComparison (trimmedStr : string) : option Condition :=
  match matchComparison trimmedStr with
  | Some (g1, op, g3) =>
      let varName := stripPrefix "--" g1 in
      let value := parseComparand (trim g3) in
      if String.eqb op "=" then Some (CEquals varName value)
      else if String.eqb op "!=" then Some (CNotEquals varName value)
      else if String.eqb op ">" then Some (CGreaterThan varName value)
      else if String.eqb op "<" then Some (CLessThan varName value)
      else if String.eqb op ">=" then Some (CGreaterOrEqual varName value)
      else if String.eqb op "<=" then Some (CLessOrEqual varName value)
      else None
  | None => None
  end.

(** [parseCondition], by recursion on a bound [fuel] for the length of the
    text: every recursive call is on a strictly shorter text. *)
Fixpoint parseConditionFuel (fuel : nat) (str : string) : Condition :=
  match fuel with
  | O => CTruthy EmptyString
  | S n =>
      let trimmedStr := trim str in
      let orIndex := indexOf trimmedStr " or " in
      let andIndex := indexOf trimmedStr " and " in
      if negb (orIndex =? -1) then
        let left := trim (slice trimmedStr 0 orIndex) in
        let right := trim (sliceFrom trimmedStr (orIndex + 4)) in
        COr [parseConditionFuel n left; parseConditionFuel n right]
      else if negb (andIndex =? -1) then
        let left := trim (slice trimmedStr 0 andIndex) in
        let right := trim (sliceFrom trimmedStr (andIndex + 5)) in
        CAnd [parseConditionFuel n left; parseConditionFuel n right]
      else if startsWith trimmedStr "not " then
        CNot (parseConditionFuel n (sliceFrom trimmedStr 4))
      else
        match parseComparison trimmedStr with
        | Some c => c
        | None =>
            match matchVariable trimmedStr with
            | Some name => CTruthy name
            | None => CTruthy (stripPrefix "--" trimmedStr)
            end
        end
  end.

Definition parseCondition (str : string) : Condition :=
  parseConditionFuel (S (String.length str)) str.

(** *** Expressions *)

(** The end [\s*(?:,\s*(.+))?\s*\)$] of the [sql(...)] pattern (flag [s]) on
    what follows the closing quote: [None] when it does not match, else the
    second group if it took part. *)
Definition matchSqlTail (rest : string) : option (option string) :=
  match trimStart rest with
  | String "," x' =>
      match lastChar x' with
      | Some c =>
          if Ascii.eqb c ")" then
            match dropLast x' with
            | EmptyString => None
            | x =>
                match trimStart x with
                | EmptyString =>
                    match lastChar x with
                    | Some w => Some (Some (String w EmptyString))
                    | None => None
                    end
                | t => Some (Some t)
                end
            end
          else None
      | None => None
      end
  | String ")" EmptyString => Some None
  | _ => None
  end.

(** The lazy group [(.+?)] and what follows it: the shortest non-empty
    [text] that ends before a quote after which the rest of the pattern
    matches. *)
Fixpoint scanSqlText (text s : string) : option (string * option string) :=
  match s with
  | EmptyString => None
  | String c r =>
      let continue := scanSqlText (text ++ String c EmptyString) r in
      if (isQuote c && negb (String.eqb text EmptyString))%bool then
        match matchSqlTail r with
        | Some g => Some (text, g)
        | None => continue
        end
      else continue
  end.

(** [value.match(/^sql\s*\(\s*["'](.+?)["']\s*(?:,\s*(.+))?\s*\)$/s)]. *)
Definition matchSql (value : string) : option (string * option string) :=
  if startsWith value "sql" then
    match trimStart (sliceFrom value 3) with
    | String "(" r =>
        match trimStart r with
        | String q r' => if isQuote q then scanSqlText EmptyString r' else None
        | EmptyString => None
        end
    | _ => None
    end
  else None.

(** The part [\d+(\.\d+)?$] of the numeric pattern. *)
Definition isUnsignedNumeric (r0 : string) : bool :=
  let '(ip, r1) := takeDigits r0 in
  match ip, r1 with
  | EmptyString, _ => false
  | _, EmptyString => true
  | _, String "." r2 =>
      match takeDigits r2 with
      | (String _ _, EmptyString) => true
      | _ => false
      end
  | _, _ => false
  end.

(** [/^-?\d+(\.\d+)?$/.test(s)]. *)
Definition isNumericLiteral (s : string) : bool :=
  isUnsignedNumeric (match s with String "-" r => r | _ => s end).

Section Parser.
Context {host : Builtins}.

Section OneLevel.
(** The parser of the sub-expressions. *)
Variable parseExpression : string -> Expression.

Definition parseFunctionArgs (argsStr : string) : list Expression :=
  match trim argsStr with
  | EmptyString => []
  | _ => map parseExpression (splitFunctionArgs argsStr)
  end.

Definition parseSqlExpression (value : string) : Expression :=
  match matchSql value with
  | None => ESql EmptyString []
  | Some (query, g2) =>
      let argsStr := match g2 with Some a => a | None => EmptyString end in
      ESql query (parseFunctionArgs argsStr)
  end.

(** One iteration of the loop of [parseIfExpression] over [parts]. *)
Definition parseIfPart
    (acc : list (Condition * Expression) * option Expression) (part : string)
  : list (Condition * Expression) * option Expression :=
  let '(branches, elseValue) := acc in
  if startsWith (trim part) "else:" then
    let elseContent := trim (sliceFrom (trim part) 5) in
    (branches, Some (parseExpression elseContent))
  else
    let colonIndex := findColonInBranch part in
    if negb (colonIndex =? -1) then
      let conditionStr := trim (slice part 0 colonIndex) in
      let valueStr := trim (sliceFrom part (colonIndex + 1)) in
      let condition := parseCondition conditionStr in
      ((branches ++ [(condition, parseExpression valueStr)])%list, elseValue)
    else (branches, elseValue).

Definition parseIfExpression (value : string) : Expression :=
  let inner := extractFunctionContent value "if" in
  let parts := splitIfBranches inner in
  let '(branches, elseValue) := fold_left parseIfPart parts ([], None) in
  EIf branches elseValue.
End OneLevel.

(** [parseExpression], by recursion on a bound [fuel] for the length of the
    text: the arguments of [sql(...)] and the parts of [if(...)] are
    strictly shorter than the text they come from. *)
Fixpoint parseExpressionFuel (fuel : nat) (value : string) : Expression :=
  match fuel with
  | O => ELiteral VNull
  | S n =>
      let trimmedValue := trim value in
      if startsWith trimmedValue "sql(" then
        parseSqlExpression (parseExpressionFuel n) trimmedValue
      else if startsWith trimmedValue "param(" then
        let inner := extractFunctionContent trimmedValue "param" in
        EParam (stripPrefix ":" inner)
      else if startsWith trimmedValue "query(" then
        EQuery (extractFunctionContent trimmedValue "query")
      else if startsWith trimmedValue "body(" then
        EBody (extractFunctionContent trimmedValue "body")
      else if startsWith trimmedValue "header(" then
        EHeader (extractFunctionContent trimmedValue "header")
      else if startsWith trimmedValue "var(" then
        let inner := extractFunctionContent trimmedValue "var" in
        EVar (stripPrefix "--" inner)
      else if startsWith trimmedValue "if(" then
        parseIfExpression (parseExpressionFuel n) trimmedValue
      else if isNumericLiteral trimmedValue then
        ELiteral (VNumber (parseFloat trimmedValue))
      else if (String.eqb trimmedValue "true" || String.eqb trimmedValue "false")%bool then
        ELiteral (VBool (String.eqb trimmedValue "true"))
      else if String.eqb trimmedValue "null" then
        ELiteral VNull
      else if (startsWith trimmedValue "[" || startsWith trimmedValue "{")%bool then
        match JSON_parse trimmedValue with
        | Some v => EJson v
        | None => ELiteral (VString (parseStringValue trimmedValue))
        end
      else ELiteral (VString (parseStringValue trimmedValue))
  end.

Definition parseExpression (value : string) : Expression :=
  parseExpressionFuel (S (String.length value)) value.

(** [parseReturnAtRule] on the parameters of the [@return] rule. *)
Definition parseReturnAtRule (atRuleParams : string) : ReturnValue :=
  let params := trim atRuleParams in
  if startsWith params "json(" then
    {| rv_type := ReturnJson;
       rv_value := parseExpression (extractFunctionContent params "json") |}
  else if startsWith params "html(" then
    {| rv_type := ReturnHtml;
       rv_value := parseExpression (extractFunctionContent params "html") |}
  else {| rv_type := ReturnJson; rv_value := parseExpression params |}.

End Parser.

(** ** Conversions between values *)

Section Conversions.
Context {host : Builtins}.

(** Whether the object with the own properties [fields] has one named
    [key]. *)
Definition hasOwn (key : string) (fields : list (string * Value)) : bool :=
  existsb (fun f => String.eqb (fst f) key) fields.

(** [String(v)].  An array is joined with commas, and [Array.prototype.join]
    turns [undefined] and [null] elements into the empty string and
    converts the others in order.  A plain object is converted by the
    [toString] it inherits, unless it has a property of that name of its
    own: data is not callable, the [valueOf] it inherits or holds gives no
    primitive value either, and the conversion throws a [TypeError]. *)
Fixpoint toStr (v : Value) : Outcome string :=
  match v with
  | VUndefined => Returned "undefined"
  | VNull => Returned "null"
  | VBool b => Returned (if b then "true" else "false")
  | VNumber n => Returned (Number_toString n)
  | VString s => Returned s
  | VArray items =>
      andThen
        ((fix elements (xs : list Value) : Outcome (list string) :=
            match xs with
            | [] => Returned []
            | x :: rest =>
                andThen (match x with
                         | VUndefined | VNull => Returned EmptyString
                         | _ => toStr x
                         end)
                        (fun text =>
                           andThen (elements rest) (fun texts => Returned (text :: texts)))
            end) items)
        (fun texts => Returned (join "," texts))
  | VObject fields =>
      if hasOwn "toString" fields then Threw conversionError
      else Returned "[object Object]"
  | VBuiltin ObjectPrototype => Returned "[object Object]"
  | VBuiltin (NativeFunction name) => Returned (Function_toString name)
  end.

(** The text [Array.prototype.join] gives an element. *)
Definition elementText (x : Value) : Outcome string :=
  match x with
  | VUndefined | VNull => Returned EmptyString
  | _ => toStr x
  end.

(** [values.join(sep)]. *)
Definition joinValues (sep : string) (values : list Value) : Outcome string :=
  andThen (mapOutcome elementText values) (fun texts => Returned (join sep texts)).

(** [Number(v)]: an array or an object is converted to a primitive value
    first, which is its text (the [valueOf] it inherits gives the object
    back), and throws as [String(v)] does. *)
Definition toNumber (v : Value) : Outcome number :=
  match v with
  | VUndefined => Returned NaN
  | VNull => Returned zero
  | VBool b => Returned (if b then ofZ 1 else zero)
  | VNumber n => Returned n
  | VString s => Returned (ofString s)
  | VArray _ | VObject _ | VBuiltin _ => andThen (toStr v) (fun text => Returned (ofString text))
  end.
End Conversions.

(** [value === c] for a comparand [c]: equal only to a value of its type. *)
Definition strictEquals (value : Value) (c : Comparand) : bool :=
  match value, c with
  | VNumber a, CmpNumber b => eqb a b
  | VString a, CmpString b => String.eqb a b
  | _, _ => false
  end.

(** The comparand of [>], [<], [>=], [<=] as the number the comparison
    converts it to. *)
Definition comparandNumber (c : Comparand) : number :=
  match c with
  | CmpNumber n => n
  | CmpString s => ofString s
  end.

(** The names of the properties of [Object.prototype], which every plain
    object inherits: reading one of them on a record that has no such key
    of its own does not give [undefined], and writing [__proto__] does not
    make a property. *)
Definition inheritedNames : list string :=
  ["constructor"; "__defineGetter__"; "__defineSetter__"; "hasOwnProperty";
   "__lookupGetter__"; "__lookupSetter__"; "isPrototypeOf"; "propertyIsEnumerable";
   "toString"; "valueOf"; "__proto__"; "toLocaleString"].

(** [record[key]] when the record, a plain object, has no property [key] of
    its own: what [Object.prototype] holds under that name.  [__proto__] is
    an accessor that yields the prototype of the record, [Object.prototype]
    itself; [constructor] is the function [Object]; the other ten names are
    functions of their own name. *)
Definition objectPrototypeMember (key : string) : Value :=
  if String.eqb key "__proto__" then VBuiltin ObjectPrototype
  else if String.eqb key "constructor" then VBuiltin (NativeFunction "Object")
  else if existsb (String.eqb key) inheritedNames then VBuiltin (NativeFunction key)
  else VUndefined.

(** [record[key]] on a string-keyed record. *)
Definition lookupValue (record : gmap string Value) (key : string) : Value :=
  match record !! key with
  | Some v => v
  | None => objectPrototypeMember key
  end.

Definition lookupString (record : gmap string string) (key : string) : Value :=
  match record !! key with
  | Some s => VString s
  | None => objectPrototypeMember key
  end.

(** ** The evaluator ([src/evaluator.ts]) *)

(** What evaluation can read and write: the request context it is handed
    and the module's database handle [db] ([None] for [null]) with the
    contents behind it. *)
Record World (D : Type) : Type := {
  ctx : RequestContext;
  db : option D }.

Arguments ctx {D} w.
Arguments db {D} w.
Arguments Build_World {D} ctx db.

(** A computation over the world that returns or throws. *)
Definition Eval (D A : Type) : Type := World D -> Outcome A * World D.

Definition ret {D A} (a : A) : Eval D A := fun w => (Returned a, w).

Definition bind {D A B} (m : Eval D A) (k : A -> Eval D B) : Eval D B :=
  fun w => match m w with
           | (Returned a, w') => k a w'
           | (Threw e, w') => (Threw e, w')
           end.

(** [try { body } catch (error) { handler(error) }]. *)
Definition tryCatch {D A} (body : Eval D A) (handler : Thrown -> Eval D A) : Eval D A :=
  fun w => match body w with
           | (Returned a, w') => (Returned a, w')
           | (Threw e, w') => handler e w'
           end.

Definition getCtx {D} : Eval D RequestContext := fun w => (Returned (ctx w), w).

(** A conversion inside a computation: it reads and writes nothing. *)
Definition lift {D A} (r : Outcome A) : Eval D A := fun w => (r, w).

Declare Scope eval_scope.
Delimit Scope eval_scope with eval.
Notation "'let*' x ':=' m 'in' k" := (bind m (fun x => k))
  (at level 10, x name, m at level 100, k at level 200) : eval_scope.

(** [items.map(f)] when [f] is a computation: left to right. *)
Definition mapM {D A B} (f : A -> Eval D B) : list A -> Eval D (list B) :=
  fix go (l : list A) : Eval D (list B) :=
    match l with
    | [] => ret []
    | x :: rest => bind (f x) (fun y => bind (go rest) (fun ys => ret (y :: ys)))
    end.

Section Evaluator.
Context {D : Type} {engine : Executor D} {host : Builtins}.
Local Open Scope eval_scope.

(** Calls on the database handle.  A call on a [null] handle is the
    [TypeError] JavaScript raises for it. *)
Definition nullHandle {A} : Outcome A :=
  Threw (ThrownError "Cannot read properties of null").

Definition dbPrepare (text : string) : Eval D Statement :=
  fun w => match db w with
           | Some d => (prepare text d, w)
           | None => (nullHandle, w)
           end.

Definition onDatabase {A} (call : D -> Outcome A * D) : Eval D A :=
  fun w => match db w with
           | Some d => let '(r, d') := call d in (r, {| ctx := ctx w; db := Some d' |})
           | None => (nullHandle, w)
           end.

Definition errorObject (message : string) : Value :=
  VObject [("error", VString message)].

(** The [try] block of [evaluateSql]; [argCount] is [args.length]. *)
Definition executeSql (query : string) (argCount : nat) (evaluatedArgs : list Value)
  : Eval D Value :=
  let* stmt := dbPrepare query in
  if startsWith (toUpperCase (trim query)) "SELECT" then
    if (includes query "LIMIT 1" || Nat.eqb argCount 1)%bool then
      let* result := onDatabase (stmt_get stmt evaluatedArgs) in
      ret (match result with
           | Some row => VObject row
           | None => VNull
           end)
    else
      let* rows := onDatabase (stmt_all stmt evaluatedArgs) in
      ret (VArray (map VObject rows))
  else if startsWith (toUpperCase (trim query)) "INSERT" then
    let* result := onDatabase (stmt_run stmt evaluatedArgs) in
    ret (VObject [("id", VNumber (lastInsertRowid result));
                  ("changes", VNumber (changes result))])
  else if (startsWith (toUpperCase (trim query)) "UPDATE"
           || startsWith (toUpperCase (trim query)) "DELETE")%bool then
    let* result := onDatabase (stmt_run stmt evaluatedArgs) in
    ret (VObject [("changes", VNumber (changes result))])
  else
    let* result := onDatabase (stmt_run stmt evaluatedArgs) in
    ret (VObject [("changes", VNumber (changes result));
                  ("lastInsertRowid", VNumber (lastInsertRowid result))]).

Definition catchSql (error : Thrown) : Eval D Value :=
  ret (errorObject (match error with
                    | ThrownError message => message
                    | ThrownOther => "Unknown error"
                    end)).

Definition truthy (value : Value) : bool :=
  match value with
  | VNull | VUndefined => false
  | VBool b => b
  | VNumber n => negb (eqb n zero)
  | VString s => 0 <? len s
  | VArray items => (0 <? Z.of_nat (length items))
  | VObject fields => (0 <? Z.of_nat (length fields))
  | VBuiltin ObjectPrototype => false
  | VBuiltin (NativeFunction _) => true
  end.

Definition readVariable (varName : string) : Eval D Value :=
  let* c := getCtx in ret (lookupValue (variables c) varName).

Definition isNumber (value : Value) : option number :=
  match value with VNumber n => Some n | _ => None end.

Fixpoint evaluateCondition (condition : Condition) : Eval D bool :=
  match condition with
  | CTruthy varName =>
      let* value := readVariable varName in ret (truthy value)
  | CEquals varName c =>
      let* value := readVariable varName in ret (strictEquals value c)
  | CNotEquals varName c =>
      let* value := readVariable varName in ret (negb (strictEquals value c))
  | CGreaterThan varName c =>
      let* value := readVariable varName in
      ret (match isNumber value with
           | Some n => ltb (comparandNumber c) n
           | None => false
           end)
  | CLessThan varName c =>
      let* value := readVariable varName in
      ret (match isNumber value with
           | Some n => ltb n (comparandNumber c)
           | None => false
           end)
  | CGreaterOrEqual varName c =>
      let* value := readVariable varName in
      ret (match isNumber value with
           | Some n => leb (comparandNumber c) n
           | None => false
           end)
  | CLessOrEqual varName c =>
      let* value := readVariable varName in
      ret (match isNumber value with
           | Some n => leb n (comparandNumber c)
           | None => false
           end)
  | CAnd conditions =>
      (fix every (cs : list Condition) : Eval D bool :=
         match cs with
         | [] => ret true
         | c :: rest =>
             let* b := evaluateCondition c in if b then every rest else ret false
         end) conditions
  | COr conditions =>
      (fix some (cs : list Condition) : Eval D bool :=
         match cs with
         | [] => ret false
         | c :: rest =>
             let* b := evaluateCondition c in if b then ret true else some rest
         end) conditions
  | CNot c =>
      let* b := evaluateCondition c in ret (negb b)
  end.

Section OneLevel.
(** The evaluator of the sub-expressions. *)
Variable evaluateExpression : Expression -> Eval D Value.

Definition evaluateSql (query : string) (args : list Expression) : Eval D Value :=
  fun w =>
    match db w with
    | None => (Returned (errorObject "Database not configured"), w)
    | Some _ =>
        (let* evaluatedArgs := mapM evaluateExpression args in
         tryCatch (executeSql query (length args) evaluatedArgs) catchSql) w
    end.

Definition evaluateIf (branches : list (Condition * Expression))
    (elseValue : option Expression) : Eval D Value :=
  (fix loop (bs : list (Condition * Expression)) : Eval D Value :=
     match bs with
     | [] =>
         match elseValue with
         | Some e => evaluateExpression e
         | None => ret VNull
         end
     | (condition, value) :: rest =>
         let* b := evaluateCondition condition in
         if b then evaluateExpression value else loop rest
     end) branches.
End OneLevel.

Fixpoint evaluateExpression (expr : Expression) : Eval D Value :=
  match expr with
  | ELiteral value => ret value
  | EVar name => let* c := getCtx in ret (lookupValue (variables c) name)
  | EParam paramName => let* c := getCtx in ret (lookupString (params c) paramName)
  | EQuery paramName => let* c := getCtx in ret (lookupString (query c) paramName)
  | EBody fieldName => let* c := getCtx in ret (lookupValue (body c) fieldName)
  | EHeader headerName =>
      let* c := getCtx in ret (lookupString (headers c) (toLowerCase headerName))
  | ESql query args => evaluateSql evaluateExpression query args
  | EIf branches elseValue => evaluateIf evaluateExpression branches elseValue
  | EJson value => ret value
  | EHtml value => ret (VString value)
  | EConcat parts =>
      let* values := mapM evaluateExpression parts in
      let* text := lift (joinValues EmptyString values) in
      ret (VString text)
  end.

End Evaluator.

(** ** The route compiler ([src/compiler.ts]) *)

(** A value of the inbound request's records: absent, a string, or a list
    of strings for a repeated key. *)
Inductive RawValue : Type :=
  | RawUndefined
  | RawString (s : string)
  | RawArray (items : list string).

(** The inbound request: the entries of [req.params], [req.query] and
    [req.headers] in enumeration order, and [req.body]. *)
Record Request : Type := {
  req_params : list (string * RawValue);
  req_query : list (string * RawValue);
  req_body : Value;
  req_headers : list (string * RawValue) }.

(** The response sink: the status code once [res.status] was called, and
    what was emitted. *)
Inductive Emission : Type :=
  | EmitJson (v : Value)
  | EmitSend (s : string).

Record Response : Type := {
  statusCode : option number;
  emitted : option Emission }.

Definition res_status (res : Response) (code : number) : Response :=
  {| statusCode := Some code; emitted := emitted res |}.

Definition res_json (res : Response) (v : Value) : Response :=
  {| statusCode := statusCode res; emitted := Some (EmitJson v) |}.

Definition res_send (res : Response) (s : string) : Response :=
  {| statusCode := statusCode res; emitted := Some (EmitSend s) |}.

Definition rawString (v : RawValue) : string :=
  match v with
  | RawUndefined => "undefined"
  | RawString s => s
  | RawArray items => join "," items
  end.

(** [normalized[key] = text] on a record made by [{}] and written in no
    other way: a property of the record, except under the name [__proto__],
    where the assignment reaches the accessor the record inherits, which
    ignores a string. *)
Definition setString (key text : string) (normalized : gmap string string)
  : gmap string string :=
  if String.eqb key "__proto__" then normalized else <[key := text]> normalized.

Definition normalizeQuery (entries : list (string * RawValue)) : gmap string string :=
  fold_left (fun normalized '(key, value) =>
               match value with
               | RawArray items => setString key (join "," items) normalized
               | RawUndefined => setString key EmptyString normalized
               | _ => setString key (rawString value) normalized
               end) entries ∅.

Definition normalizeParams (entries : list (string * RawValue)) : gmap string string :=
  fold_left (fun normalized '(key, value) =>
               match value with
               | RawArray items => setString key (join "," items) normalized
               | _ => setString key (rawString value) normalized
               end) entries ∅.

Definition normalizeHeaders (entries : list (string * RawValue)) : gmap string string :=
  fold_left (fun normalized '(key, value) =>
               match value with
               | RawArray items => setString (toLowerCase key) (join "," items) normalized
               | RawUndefined => setString (toLowerCase key) EmptyString normalized
               | _ => setString (toLowerCase key) (rawString value) normalized
               end) entries ∅.

(** [req.body] as the record [ctx.body]: the object itself, with the
    properties it has (a parsed JSON text may give it one named
    [__proto__]), and an empty record for anything else. *)
Definition normalizeBody (b : Value) : gmap string Value :=
  match b with
  | VObject fields => fold_left (fun m '(key, value) => <[key := value]> m) fields ∅
  | _ => ∅
  end.

(** [record[key] = value] on a plain object: a property of the record,
    except under the name [__proto__] when the record has no property of
    that name, where the assignment reaches the accessor the record
    inherits and makes no property.  The accessor ignores a primitive
    value; given an object it makes it the prototype of the record, which
    the model does not follow: what is proved of variables below is proved
    for assignments to other names. *)
Definition setValue (key : string) (value : Value) (record : gmap string Value)
  : gmap string Value :=
  match record !! key with
  | Some _ => <[key := value]> record
  | None => if String.eqb key "__proto__" then record else <[key := value]> record
  end.

Section Compiler.
Context {D : Type} {engine : Executor D} {host : Builtins}.
Local Open Scope eval_scope.

(** [ctx.variables[name] = value]. *)
Definition bindVariable (name : string) (value : Value) : Eval D unit :=
  fun w =>
    let c := ctx w in
    (Returned tt,
     {| ctx := {| params := params c; query := query c; body := body c;
                  headers := headers c;
                  variables := setValue name value (variables c) |};
        db := db w |}).

(** The body of the loop over [route.variables]. *)
Definition assign (variable : VariableAssignment) : Eval D unit :=
  let* value := evaluateExpression (va_value variable) in
  bindVariable (va_name variable) value.

(** [for (const variable of route.variables) ...]. *)
Fixpoint assignVariables (vars : list VariableAssignment) : Eval D unit :=
  match vars with
  | [] => ret tt
  | variable :: rest => let* _ := assign variable in assignVariables rest
  end.

(** [statusValue] of the handler. *)
Definition statusValueOf (status : StatusValue) : Eval D number :=
  match status with
  | StatusLiteral value => ret value
  | StatusVar e | StatusIf e =>
      let* v := evaluateExpression e in lift (toNumber v)
  end.

(** [if (route.status) { ... }]. *)
Definition resolveStatus (status : option StatusValue) (res : Response)
  : Eval D Response :=
  match status with
  | Some s =>
      let* statusValue := statusValueOf s in
      ret (if isFinite statusValue then res_status res statusValue else res)
  | None => ret res
  end.

Definition emit (kind : ReturnKind) (res : Response) (result : Value)
  : Outcome Response :=
  match kind with
  | ReturnJson => Returned (res_json res result)
  | ReturnHtml =>
      andThen (match result with
               | VString s => Returned s
               | _ => toStr result
               end)
              (fun text => Returned (res_send res text))
  end.

(** The handler, once the context [ctx] is built. *)
Definition handleRoute (route : RouteRule) (res : Response) : Eval D Response :=
  let* _ := assignVariables (route_variables route) in
  let* res1 := resolveStatus (route_status route) res in
  let* result := evaluateExpression (rv_value (route_return route)) in
  lift (emit (rv_type (route_return route)) res1 result).

Definition freshContext (req : Request) : RequestContext :=
  {| params := normalizeParams (req_params req);
     query := normalizeQuery (req_query req);
     body := normalizeBody (req_body req);
     headers := normalizeHeaders (req_headers req);
     variables := ∅ |}.

(** [createHandler(route)(req, res)] on the database handle [d]: what the
    call returns or throws, the context it leaves, and the handle. *)
Definition createHandler (route : RouteRule) (req : Request) (res : Response)
    (d : option D) : Outcome Response * World D :=
  handleRoute route res {| ctx := freshContext req; db := d |}.

End Compiler.

(** ** The vocabulary of the properties *)

Section Vocabulary.
Context {D : Type}.

(** [m] leaves the context as it found it and the database handle set or
    unset as it was, whether it returns or throws. *)
Definition framed {A} (m : Eval D A) : Prop :=
  forall w, exists r w',
    m w = (r, w') /\ ctx w' = ctx w /\ (db w' = None <-> db w = None).

(** [m] is framed and returns. *)
Definition settles {A} (m : Eval D A) : Prop :=
  forall w, exists a w',
    m w = (Returned a, w') /\ ctx w' = ctx w /\ (db w' = None <-> db w = None).

(** What [m] throws, if anything, is the error of a failed conversion. *)
Definition throwsConversion {A} (m : Eval D A) : Prop :=
  forall w e w', m w = (Threw e, w') -> e = conversionError.

(** The text of the [error] key for something the engine threw. *)
Definition thrownMessage (e : Thrown) : string :=
  match e with
  | ThrownError message => message
  | ThrownOther => "Unknown error"
  end.

(** The engine throws [e] on the statement [query] with the arguments
    [evaluatedArgs], on the database [d]: preparing the statement throws
    it, or the call the text selects on the prepared statement does, [get]
    or [all] for a SELECT and [run] for any other statement. *)
Definition engineThrows {engine : Executor D} (query : string) (argCount : nat)
    (evaluatedArgs : list Value) (d : D) (e : Thrown) : Prop :=
  prepare query d = Threw e \/
  exists stmt, prepare query d = Returned stmt /\
    if startsWith (toUpperCase (trim query)) "SELECT" then
      if (includes query "LIMIT 1" || Nat.eqb argCount 1)%bool
      then fst (stmt_get stmt evaluatedArgs d) = Threw e
      else fst (stmt_all stmt evaluatedArgs d) = Threw e
    else fst (stmt_run stmt evaluatedArgs d) = Threw e.

(** Whether [condition] holds in [w]. *)
Definition holds (w : World D) (condition : Condition) : bool :=
  match evaluateCondition condition w with
  | (Returned b, _) => b
  | (Threw _, _) => false
  end.

(** The branch a conditional selects in [w]: the value of the first branch
    whose condition holds, else the else expression if there is one. *)
Definition selected (w : World D) (branches : list (Condition * Expression))
    (elseValue : option Expression) : option Expression :=
  match find (fun b => holds w (fst b)) branches with
  | Some (_, value) => Some value
  | None => elseValue
  end.

(** Every character of [s] satisfies [f]. *)
Fixpoint allChars (f : ascii -> bool) (s : string) : bool :=
  match s with
  | EmptyString => true
  | String c r => (f c && allChars f r)%bool
  end.

(** The decimal numeral with the integer digits [ip] and the fraction digits
    [fp], with a minus sign when [neg]. *)
Definition decimalText (neg : bool) (ip fp : string) : string :=
  (if neg then "-" else "") ++ ip
  ++ match fp with EmptyString => EmptyString | _ => "." ++ fp end.


End Vocabulary.

(** ** An environment for the examples *)

(** A host whose [JSON.parse] rejects every text, whose numbers all print
    as [0] and whose functions print as their name: no example below
    depends on either. *)
Definition exampleBuiltins : Builtins :=
  {| JSON_parse := fun _ => None;
     Number_toString := fun _ => "0";
     Function_toString := fun name => name |}.

(** An engine over one table, a list of rows.  Preparing a statement that
    names the table [missing] throws; [get] answers the first row and [all]
    every row; [run] throws on a statement that mentions [UNIQUE] and else
    appends a row holding its arguments. *)
Definition exampleRow (args : list Value) : Row :=
  match args with
  | [] => []
  | v :: _ => [("id", v)]
  end.

Definition examplePrepare (text : string) (table : list Row) : Outcome string :=
  if includes text "missing" then Threw (ThrownError "no such table: missing")
  else Returned text.

Definition exampleRun (stmt : string) (args : list Value) (table : list Row)
  : Outcome RunResult * list Row :=
  if includes stmt "UNIQUE" then
    (Threw (ThrownError "UNIQUE constraint failed"), table)
  else
    (Returned {| changes := ofZ 1;
                 lastInsertRowid := ofZ (Z.of_nat (length table) + 1) |},
     (table ++ [exampleRow args])%list).

Definition exampleExecutor : Executor (list Row) :=
  {| Statement := string;
     prepare := examplePrepare;
     stmt_get := fun _ _ table => (Returned (head table), table);
     stmt_all := fun _ _ table => (Returned table, table);
     stmt_run := exampleRun |}.

Definition emptyContext : RequestContext :=
  {| params := ∅; query := ∅; body := ∅; headers := ∅; variables := ∅ |}.

(** Two users, as rows. *)
Definition exampleUsers : list Row :=
  [ [("id", VNumber (ofZ 1)); ("name", VString "Alice")];
    [("id", VNumber (ofZ 2)); ("name", VString "Bob")] ].

Definition exampleWorld : World (list Row) :=
  {| ctx := emptyContext; db := Some exampleUsers |}.

(** A context that binds [count] to negative zero, [name] to a non-empty
    string and [user] to a row, and leaves [other] unbound. *)
Definition truthyWorld : World (list Row) :=
  {| ctx := {| params := ∅; query := ∅; body := ∅; headers := ∅;
               variables := <["count" := VNumber (S754_zero true)]>
                              (<["name" := VString "Ada"]>
                                 (<["user" := VObject [("id", VNumber (ofZ 1))]]> ∅)) |};
     db := None |}.

(** The route of the specification's first scenario: [id] from the route
    parameter, [user] from a query on [id], the user or an error returned. *)
Definition userRoute : RouteRule :=
  {| route_path := "/users/:id";
     route_method := "GET";
     route_variables :=
       [ {| va_name := "id"; va_value := EParam "id" |};
         {| va_name := "user";
            va_value := ESql "SELECT * FROM users WHERE id = ?" [EVar "id"] |} ];
     route_status := None;
     route_return :=
       {| rv_type := ReturnJson;
          rv_value := EIf [(CTruthy "user", EVar "user")]
                          (Some (ELiteral (VObject [("error", VString "Not found")]))) |} |}.

Definition userRequest : Request :=
  {| req_params := [("id", RawString "1")]; req_query := []; req_body := VUndefined;
     req_headers := [] |}.

Definition blankResponse : Response := {| statusCode := None; emitted := None |}.

(** The route of the specification's second scenario: the status is 200
    for the role [admin], else 403. *)
Definition adminStatus : StatusValue :=
  StatusIf (EIf [(CEquals "role" (CmpString "admin"), ELiteral (VNumber (ofZ 200)))]
                (Some (ELiteral (VNumber (ofZ 403))))).

Definition adminRoute : RouteRule :=
  {| route_path := "/admin";
     route_method := "GET";
     route_variables := [ {| va_name := "role"; va_value := EHeader "X-User-Role" |} ];
     route_status := Some adminStatus;
     route_return := {| rv_type := ReturnJson; rv_value := EVar "role" |} |}.

Definition adminRequest : Request :=
  {| req_params := []; req_query := []; req_body := VUndefined;
     req_headers := [("X-USER-ROLE", RawString "admin")] |}.



Definition codeRequest : Request :=
  {| req_params := []; req_query := [];
     req_body := VObject [("code", VObject [("toString", VNumber (ofZ 1))])];
     req_headers := [] |}.

(** [quoted s] is [s] between double quotes. *)
Definition quoted (s : string) : string :=
  String "034" s ++ String "034" EmptyString.

(** The conditional of the parser test on comparison operators, as it is
    written there over several lines. *)
Definition ageConditional : string :=
  "if(
            --age > 18: " ++ quoted "adult" ++ ";
            --age < 13: " ++ quoted "child" ++ ";
            else: " ++ quoted "teen" ++ "
          )".

(** ** Style sheets ([src/parser.ts]) *)

(** [s.indexOf(needle, from)]: the search starts at [from], clamped to the
    string. *)
Definition indexOfAt (s needle : string) (from : Z) : Z :=
  let k := Z.min (Z.max from 0) (len s) in
  indexOfFrom needle (sliceFrom s k) k.

(** The [for] loop of [extractDatabaseSchema]: the position of the first
    character after which [depth] is zero, scanning [s] whose first
    character is at position [i]. *)
Fixpoint findEndBrace (s : string) (depth i : Z) : option Z :=
  match s with
  | EmptyString => None
  | String char r =>
      let depth1 := if Ascii.eqb char "{" then depth + 1 else depth in
      let depth2 := if Ascii.eqb char "}" then depth1 - 1 else depth1 in
      if depth2 =? 0 then Some i else findEndBrace r depth2 (i + 1)
  end.

(** [!schema] of a string that may be [undefined]. *)
Definition noSchema (schema : option string) : bool :=
  match schema with
  | None | Some EmptyString => true
  | Some _ => false
  end.

(** The [while] loop of [extractDatabaseSchema], by recursion on a bound
    [fuel] for the length of [cleaned]: every iteration that goes on
    removes a block from it, so that a bound above the length is never what
    ends the loop (see [extractDatabaseLoop_enough]). *)
Fixpoint extractDatabaseLoop (fuel : nat) (schema : option string) (cleaned : string)
  : option string * string :=
  match fuel with
  | O => (schema, cleaned)
  | S n =>
      let index := indexOf cleaned "@database" in
      if index =? -1 then (schema, cleaned)
      else
        let startBrace := indexOfAt cleaned "{" index in
        if startBrace =? -1 then (schema, cleaned)
        else
          match findEndBrace (sliceFrom cleaned startBrace) 0 startBrace with
          | None => (schema, cleaned)
          | Some endBrace =>
              let schema' :=
                if noSchema schema then Some (trim (slice cleaned (startBrace + 1) endBrace))
                else schema in
              extractDatabaseLoop n schema'
                (slice cleaned 0 index ++ sliceFrom cleaned (endBrace + 1))
          end
  end.

Record ExtractedSchema : Type := {
  es_schema : option string;
  es_cleaned : string }.

Definition extractDatabaseSchema (css : string) : ExtractedSchema :=
  let '(schema, cleaned) := extractDatabaseLoop (S (String.length css)) None css in
  {| es_schema := if noSchema schema then None else schema;
     es_cleaned := cleaned |}.

(** *** Selectors *)

(** The class [\w]: letters, digits and underscore. *)
Definition isWordChar (c : ascii) : bool :=
  let n := nat_of_ascii c in
  ((Nat.leb 48 n && Nat.leb n 57) || (Nat.leb 65 n && Nat.leb n 90)
   || (Nat.leb 97 n && Nat.leb n 122) || Nat.eqb n 95)%bool.

Definition isUpper (c : ascii) : bool :=
  let n := nat_of_ascii c in (Nat.leb 65 n && Nat.leb n 90)%bool.

Definition HTTP_METHODS : list string :=
  ["GET"; "POST"; "PUT"; "PATCH"; "DELETE"; "HEAD"; "OPTIONS"].

(** The first match of a pattern that is not anchored: [matchAt] is the
    pattern at the head of a text, tried at each position from the left. *)
Fixpoint searchFrom {A} (matchAt : string -> option A) (s : string) : option A :=
  match matchAt s with
  | Some x => Some x
  | None =>
      match s with
      | EmptyString => None
      | String _ r => searchFrom matchAt r
      end
  end.

(** The path pattern at the head of [s]: [[path], white space, [=], white
    space, a quote of either kind, one or more characters that are not
    quotes (the group), a quote of either kind, white space, []]. *)
Definition matchPathAt (s : string) : option string :=
  if startsWith s "[path" then
    match trimStart (sliceFrom s 5) with
    | String "=" r =>
        match trimStart r with
        | String q r' =>
            if isQuote q then
              let '(p, r2) := takeWhile (fun c => negb (isQuote c)) r' in
              match p, r2 with
              | String _ _, String _ r3 =>
                  match trimStart r3 with
                  | String "]" _ => Some p
                  | _ => None
                  end
              | _, _ => None
              end
            else None
        | EmptyString => None
        end
    | _ => None
    end
  else None.

(** [\b] after a word character: the end of the text, or a character that
    is not a word character. *)
Definition wordEnds (t : string) : bool :=
  match t with
  | EmptyString => true
  | String c _ => negb (isWordChar c)
  end.

(** [/:(GET|POST|PUT|PATCH|DELETE|HEAD|OPTIONS)\b/] at the head of [s]: the
    group. *)
Definition matchMethodAt (s : string) : option string :=
  match s with
  | String ":" r =>
      find (fun m => (startsWith r m && wordEnds (sliceFrom r (len m)))%bool) HTTP_METHODS
  | _ => None
  end.

Record Selector : Type := {
  sel_path : option string;
  sel_method : option string }.

Definition parseSelector (selector : string) : Selector :=
  {| sel_path := searchFrom matchPathAt selector;
     sel_method := searchFrom matchMethodAt selector |}.

(** *** Configuration values *)

(** [parseInt(s, 10)]: white space, a sign, then the longest run of decimal
    digits; [NaN] without a digit.  (Past twenty significant digits the
    language leaves the rounding to the implementation; this is the
    nearest number, as V8 gives.) *)
Definition parseInt10 (s : string) : number :=
  let '(neg, r) := scanSign (trimStart s) in
  let '(ds, _) := takeDigits r in
  match ds with
  | EmptyString => NaN
  | _ => let n := ofZ (digitsValue 0 ds) in if neg then SFopp n else n
  end.

(** The class [[^,)]]. *)
Definition isEnvNameChar (c : ascii) : bool :=
  negb (Ascii.eqb c "," || Ascii.eqb c ")")%bool.

(** The last character of the white space [s] starts with. *)
Fixpoint lastLeadingSpace (s : string) : option ascii :=
  match s with
  | EmptyString => None
  | String c r =>
      if isWhiteSpace c then
        match lastLeadingSpace r with
        | Some x => Some x
        | None => Some c
        end
      else None
  end.

(** The last character of [s] that satisfies [f]. *)
Fixpoint lastSuch (f : ascii -> bool) (s : string) : option ascii :=
  match s with
  | EmptyString => None
  | String c r =>
      match lastSuch f r with
      | Some x => Some x
      | None => if f c then Some c else None
      end
  end.

(** The second group of the pattern of [parseEnvOrNumber], matched on the
    text [t] after the comma: white space, one or more characters that are
    not line terminators (the group), white space, [)] and the end.  The
    group starts at the first character that is not white space and runs
    to the first line terminator or to the closing parenthesis, and only
    white space may follow it; when there is nothing but white space before
    the parenthesis, the group is the last of it that is not a line
    terminator. *)
Definition matchEnvDefault (t : string) : option string :=
  match lastChar t with
  | Some ")"%char =>
      let t' := dropLast t in
      match trimStart t' with
      | EmptyString =>
          match lastSuch (fun c => negb (isLineTerminator c)) t' with
          | Some c => Some (String c EmptyString)
          | None => None
          end
      | u =>
          let '(x, rest) := takeWhile (fun c => negb (isLineTerminator c)) u in
          if allChars isWhiteSpace rest then Some x else None
      end
  | _ => None
  end.

(** [value.match(...)] with the pattern of [parseEnvOrNumber], anchored at
    both ends: [env], white space, [(], white space, one or more characters
    other than [,] and [)] (the first group), then optionally white space,
    [,] and the second group, then white space, [)] and the end.  The
    result holds the two groups.  The first group is the longest run of
    its class after the white space; when that white space is followed by
    [,] or [)], it is the last character of the white space. *)
Definition matchEnv (value : string) : option (string * option string) :=
  if startsWith value "env" then
    match trimStart (sliceFrom value 3) with
    | String "(" r =>
        let '(name, rest) :=
          match takeWhile isEnvNameChar (trimStart r) with
          | (EmptyString, rest) =>
              (match lastLeadingSpace r with
               | Some c => String c EmptyString
               | None => EmptyString
               end, rest)
          | found => found
          end in
        match name, rest with
        | EmptyString, _ => None
        | _, String ")" EmptyString => Some (name, None)
        | _, String "," t =>
            match matchEnvDefault t with
            | Some x => Some (name, Some x)
            | None => None
            end
        | _, _ => None
        end
    | _ => None
    end
  else None.

(** [process.env[name]] when it is a text that is not empty.  The
    environment is a finite map from names to texts. *)
Definition envVar (env : gmap string string) (name : string) : option string :=
  match env !! name with
  | Some (String c r) => Some (String c r)
  | _ => None
  end.

Definition parseEnvOrNumber (env : gmap string string) (value : string) (fallback : number)
  : number :=
  match matchEnv value with
  | Some (name, default) =>
      match envVar env (trim name) with
      | Some v => parseInt10 v
      | None =>
          match default with
          | Some d => parseInt10 (trim d)
          | None => fallback
          end
      end
  | None =>
      let n := parseInt10 value in
      if (isNaN n || eqb n zero)%bool then fallback else n
  end.

Definition parseEnvOrString (env : gmap string string) (value : string) : string :=
  match matchEnv value with
  | Some (name, default) =>
      match envVar env (trim name) with
      | Some v => v
      | None =>
          match default with
          | Some d => stripQuotes (trim d)
          | None => EmptyString
          end
      end
  | None => stripQuotes (trim value)
  end.

(** ** The database handle ([src/evaluator.ts]) *)

(** Opening, scripting and closing a database of the relational engine:
    [new Database(path)], [db.exec(text)] and [db.close()]. *)
Class Connector (D : Type) : Type := {
  Database_new : string -> Outcome D;
  db_exec : string -> D -> Outcome unit * D;
  db_close : D -> Outcome unit }.

Section DatabaseHandle.
Context {D : Type} {connector : Connector D}.

Definition initDatabase (dbPath : string) : Eval D unit :=
  fun w => match Database_new dbPath with
           | Returned d => (Returned tt, {| ctx := ctx w; db := Some d |})
           | Threw e => (Threw e, w)
           end.

Definition executeSchema (schema : string) : Eval D unit :=
  fun w => match db w with
           | None => (Threw (ThrownError "Database not initialized"), w)
           | Some d =>
               let '(r, d') := db_exec schema d in (r, {| ctx := ctx w; db := Some d' |})
           end.

Definition closeDatabase : Eval D unit :=
  fun w => match db w with
           | Some d =>
               match db_close d with
               | Returned _ => (Returned tt, {| ctx := ctx w; db := None |})
               | Threw e => (Threw e, w)
               end
           | None => (Returned tt, w)
           end.

(** The database part of [createApp] ([src/runtime.ts]): the database is
    opened when the configuration names one, and then the schema is run
    when there is one. *)
Definition createAppDatabase (database schema : option string) : Eval D unit :=
  match database with
  | Some (String c r) =>
      bind (initDatabase (String c r))
           (fun _ => match schema with
                     | Some (String c' r') => executeSchema (String c' r')
                     | _ => ret tt
                     end)
  | _ => ret tt
  end.

End DatabaseHandle.

(** ** More vocabulary of the properties *)

(** Whether the parentheses of [s] match, read from [depth] open ones: no
    [)] comes without a [(] before it, and none stays open. *)
Fixpoint balancedFrom (depth : nat) (s : string) : bool :=
  match s with
  | EmptyString => Nat.eqb depth 0
  | String c r =>
      if Ascii.eqb c "(" then balancedFrom (S depth) r
      else if Ascii.eqb c ")" then
        match depth with
        | O => false
        | S d => balancedFrom d r
        end
      else balancedFrom depth r
  end.

Definition balanced (s : string) : bool := balancedFrom 0 s.

(** A character the scanners pass over at depth 0 outside quotes: no quote,
    no parenthesis, and not the separator [sep]. *)
Definition isPlain (sep c : ascii) : bool :=
  negb (isQuote c || Ascii.eqb c "(" || Ascii.eqb c ")" || Ascii.eqb c sep).

(** The values a literal expression may hold: a string, a number, a boolean
    or [null]. *)
Definition isPrimitive (v : Value) : bool :=
  match v with
  | VNull | VBool _ | VNumber _ | VString _ => true
  | VUndefined | VArray _ | VObject _ | VBuiltin _ => false
  end.

(** The expressions of the forms the parser builds: no [html] and no
    [concat] node anywhere, and primitive literals. *)
Fixpoint parsedForm (e : Expression) : bool :=
  match e with
  | ELiteral v => isPrimitive v
  | ESql _ args => forallb parsedForm args
  | EIf branches elseValue =>
      (forallb (fun b => parsedForm (snd b)) branches
       && match elseValue with Some e' => parsedForm e' | None => true end)%bool
  | EHtml _ | EConcat _ => false
  | _ => true
  end.

(** A word: a text that is not empty and holds no white space. *)
Definition isWord (w : string) : bool :=
  match w with
  | EmptyString => false
  | _ => negb (existsChar isWhiteSpace w)
  end.

(** The text after the first of some words: each of the others after a
    space. *)
Fixpoint spaced (words : list string) : string :=
  match words with
  | [] => EmptyString
  | w :: rest => (" " ++ w ++ spaced rest)%string
  end.

(** Reading [s] through with the scanners' loop from the state [st]: the
    state after it, or [None] when a character of [s] is a separator at
    depth 0 outside quotes. *)
Fixpoint scanThrough (sep : ascii) (st : ScanState) (s : string) : option ScanState :=
  match s with
  | EmptyString => Some st
  | String c r =>
      let '(st', isSep) := scanChar sep st c in
      if isSep then None else scanThrough sep st' r
  end.

(** A segment for [sep]: a text the scanners read through without meeting
    a separator, and leave at depth 0 outside quotes. *)
Definition isSegment (sep : ascii) (s : string) : bool :=
  match scanThrough sep scanStart s with
  | Some st => ((depth st =? 0) && negb (inString st))%bool
  | None => false
  end.

(** The text of a branch: its condition, a colon, its value. *)
Definition branchText (b : string * string) : string := (fst b ++ ":" ++ snd b)%string.

(** Two states the scanners cannot tell apart: [stringChar] is read only
    inside a quoted run. *)
Definition sameMode (st1 st2 : ScanState) : Prop :=
  depth st1 = depth st2 /\ inString st1 = inString st2 /\
  (inString st1 = true -> stringChar st1 = stringChar st2).

(** At depth 0 outside quotes. *)
Definition atTop (st : ScanState) : Prop := depth st = 0 /\ inString st = false.

(** Whether [e] holds a [concat] anywhere. *)
Fixpoint usesConcat (e : Expression) : bool :=
  match e with
  | ESql _ args => existsb usesConcat args
  | EIf branches elseValue =>
      (existsb (fun b => usesConcat (snd b)) branches
       || match elseValue with Some e' => usesConcat e' | None => false end)%bool
  | EConcat _ => true
  | _ => false
  end.


(** Whether [e] holds a query anywhere. *)
Fixpoint usesSql (e : Expression) : bool :=
  match e with
  | ESql _ _ => true
  | EIf branches elseValue =>
      (existsb (fun b => usesSql (snd b)) branches
       || match elseValue with Some e' => usesSql e' | None => false end)%bool
  | EConcat parts => existsb usesSql parts
  | _ => false
  end.

(** The text [normalizeQuery] and [normalizeHeaders] store for a value. *)
Definition queryText (value : RawValue) : string :=
  match value with
  | RawArray items => join "," items
  | RawUndefined => EmptyString
  | RawString s => s
  end.

(** Whether the braces of [s] match, read from [depth] open ones. *)
Fixpoint bracesFrom (depth : nat) (s : string) : bool :=
  match s with
  | EmptyString => Nat.eqb depth 0
  | String c r =>
      if Ascii.eqb c "{" then bracesFrom (S depth) r
      else if Ascii.eqb c "}" then
        match depth with
        | O => false
        | S d => bracesFrom d r
        end
      else bracesFrom depth r
  end.

(** Whether [s] starts with an upper-case letter. *)
Definition startsUpper (s : string) : bool :=
  match s with
  | String u _ => isUpper u
  | EmptyString => false
  end.

(** A name an environment variable reference can hold: not empty, without
    white space, commas or closing parentheses. *)
Definition isEnvName (name : string) : bool :=
  (isWord name && allChars isEnvNameChar name)%bool.

(** ** More of the environment for the examples *)

(** A connector that opens an empty table at any path but the empty one,
    runs every script without effect and closes every handle. *)
Definition exampleConnector : Connector (list Row) :=
  {| Database_new := fun dbPath =>
       match dbPath with
       | EmptyString => Threw (ThrownError "Cannot open database")
       | _ => Returned []
       end;
     db_exec := fun _ table => (Returned tt, table);
     db_close := fun _ => Returned tt |}.

(** An environment that sets [PORT]. *)
Definition exampleEnv : gmap string string := <["PORT" := "8080"]> ∅.

(** A request with a repeated query key and a header in capitals. *)
Definition searchRequest : Request :=
  {| req_params := [("id", RawString "7")];
     req_query := [("tag", RawArray ["a"; "b"]); ("page", RawUndefined)];
     req_body := VObject [("name", VString "Ada")];
     req_headers := [("X-Token", RawString "secret")] |}.


(** * Properties *)

(** ** Conversions *)

Section ConversionFacts.
Context {host : Builtins}.

Lemma andThen_throws {A B} (r : Outcome A) (k : A -> Outcome B) e :
  andThen r k = Threw e -> r = Threw e \/ exists a, r = Returned a /\ k a = Threw e.
Proof. destruct r as [a|e']; simpl; [eauto | intros [= ->]; auto]. Qed.

Lemma mapOutcome_throws {A B} (f : A -> Outcome B) (l : list A) e :
  mapOutcome f l = Threw e -> exists x, In x l /\ f x = Threw e.
Proof.
  induction l as [|x l IH]; simpl; [discriminate|].
  intros H. apply andThen_throws in H as [H|(y & _ & H)].
  - exists x. auto.
  - apply andThen_throws in H as [H|(ys & _ & H)]; [|discriminate].
    destruct (IH H) as (x' & Hin & Hx). exists x'. auto.
Qed.

(** [String(v)] throws nothing but the error of a failed conversion. *)
Lemma toStr_throws (v : Value) e : toStr v = Threw e -> e = conversionError.
Proof.
  revert e. induction v as [| |b|n|s|items IH|fields _|b] using Value_nested_ind;
    intros e; try discriminate.
  - cbn [toStr]. intros H. apply andThen_throws in H as [H|(texts & _ & H)]; [|discriminate].
    induction IH as [|x xs Hx _ IHxs]; [discriminate|].
    apply andThen_throws in H as [H|(text & _ & H)].
    + destruct x; try discriminate; apply Hx; exact H.
    + apply andThen_throws in H as [H|(texts & _ & H)]; [|discriminate].
      apply IHxs. exact H.
  - cbn [toStr]. destruct (hasOwn "toString" fields); [intros [= <-]; reflexivity | discriminate].
  - destruct b; discriminate.
Qed.

Lemma joinValues_throws sep values e :
  joinValues sep values = Threw e -> e = conversionError.
Proof.
  unfold joinValues. intros H. apply andThen_throws in H as [H|(texts & _ & H)]; [|discriminate].
  apply mapOutcome_throws in H as (x & _ & H).
  destruct x; try discriminate; apply toStr_throws in H; exact H.
Qed.


(** A primitive value converts. *)
Lemma toStr_primitive (v : Value) :
  isPrimitive v = true \/ v = VUndefined -> exists text, toStr v = Returned text.
Proof. intros [H| ->]; [destruct v; try discriminate|]; simpl; eauto. Qed.

Lemma toNumber_primitive (v : Value) :
  isPrimitive v = true \/ v = VUndefined -> exists n, toNumber v = Returned n.
Proof. intros [H| ->]; [destruct v; try discriminate|]; simpl; eauto. Qed.

End ConversionFacts.

(** ** Writing a record *)

(** Under any name but [__proto__], an assignment sets a property. *)
Lemma setValue_other key value (record : gmap string Value) :
  key <> "__proto__" -> setValue key value record = <[key := value]> record.
Proof.
  intros H. unfold setValue. destruct (record !! key); [reflexivity|].
  destruct (String.eqb_spec key "__proto__"); [contradiction | reflexivity].
Qed.

(** Under [__proto__], on a record that has no such property, it sets
    none. *)
Lemma setValue_proto value (record : gmap string Value) :
  record !! "__proto__" = None -> setValue "__proto__" value record = record.
Proof. intros H. unfold setValue. rewrite H. reflexivity. Qed.

(** ** Evaluation leaves the request context alone *)

Section EvaluatorFacts.
Context {D : Type} {engine : Executor D} {host : Builtins}.
Local Open Scope eval_scope.

Lemma settles_framed {A} (m : Eval D A) : settles m -> framed m.
Proof.
  intros Hm w. destruct (Hm w) as (a & w' & E & Hc & Hd).
  exists (Returned a), w'. auto.
Qed.

Lemma settles_ret {A} (a : A) : settles (ret a : Eval D A).
Proof. intros w. exists a, w. unfold ret. tauto. Qed.

Lemma settles_getCtx : settles (getCtx : Eval D RequestContext).
Proof. intros w. exists (ctx w), w. unfold getCtx. tauto. Qed.

Lemma settles_bind {A B} (m : Eval D A) (k : A -> Eval D B) :
  settles m -> (forall a, settles (k a)) -> settles (bind m k).
Proof.
  intros Hm Hk w. destruct (Hm w) as (a & w1 & E1 & Hc1 & Hd1).
  destruct (Hk a w1) as (b & w2 & E2 & Hc2 & Hd2).
  exists b, w2. unfold bind. rewrite E1, E2.
  split; [reflexivity|]. split; [congruence | tauto].
Qed.

Lemma framed_bind {A B} (m : Eval D A) (k : A -> Eval D B) :
  framed m -> (forall a, framed (k a)) -> framed (bind m k).
Proof.
  intros Hm Hk w. destruct (Hm w) as (r & w1 & E1 & Hc1 & Hd1).
  unfold bind. rewrite E1. destruct r as [a|e].
  - destruct (Hk a w1) as (r2 & w2 & E2 & Hc2 & Hd2).
    exists r2, w2. rewrite E2. split; [reflexivity|]. split; [congruence | tauto].
  - exists (Threw e), w1. auto.
Qed.

Lemma settles_tryCatch {A} (body : Eval D A) (handler : Thrown -> Eval D A) :
  framed body -> (forall e, settles (handler e)) -> settles (tryCatch body handler).
Proof.
  intros Hb Hh w. destruct (Hb w) as (r & w1 & E1 & Hc1 & Hd1).
  unfold tryCatch. rewrite E1. destruct r as [a|e].
  - exists a, w1. auto.
  - destruct (Hh e w1) as (a & w2 & E2 & Hc2 & Hd2).
    exists a, w2. rewrite E2. split; [reflexivity|]. split; [congruence | tauto].
Qed.

Lemma settles_mapM {A B} (f : A -> Eval D B) (l : list A) :
  Forall (fun x => settles (f x)) l -> settles (mapM f l).
Proof.
  induction 1 as [|x l Hx Hl IH]; simpl.
  - apply settles_ret.
  - apply settles_bind; [exact Hx|]. intros y.
    apply settles_bind; [exact IH|]. intros ys. apply settles_ret.
Qed.

Lemma framed_mapM {A B} (f : A -> Eval D B) (l : list A) :
  Forall (fun x => framed (f x)) l -> framed (mapM f l).
Proof.
  induction 1 as [|x l Hx Hl IH]; simpl.
  - apply settles_framed, settles_ret.
  - apply framed_bind; [exact Hx|]. intros y.
    apply framed_bind; [exact IH|]. intros ys. apply settles_framed, settles_ret.
Qed.

Lemma framed_lift {A} (r : Outcome A) : framed (lift r : Eval D A).
Proof. intros w. exists r, w. unfold lift. tauto. Qed.

Lemma throwsConversion_bind {A B} (m : Eval D A) (k : A -> Eval D B) :
  throwsConversion m -> (forall a, throwsConversion (k a)) -> throwsConversion (bind m k).
Proof.
  intros Hm Hk w e w'. unfold bind. destruct (m w) as [[a|e1] w1] eqn:E.
  - apply Hk.
  - intros H. injection H as <- _. exact (Hm _ _ _ E).
Qed.

Lemma throwsConversion_ret {A} (a : A) : throwsConversion (ret a : Eval D A).
Proof. intros w e w'. unfold ret. discriminate. Qed.

Lemma throwsConversion_mapM {A B} (f : A -> Eval D B) (l : list A) :
  Forall (fun x => throwsConversion (f x)) l -> throwsConversion (mapM f l).
Proof.
  induction 1 as [|x l Hx Hl IH]; simpl.
  - apply throwsConversion_ret.
  - apply throwsConversion_bind; [exact Hx|]. intros y.
    apply throwsConversion_bind; [exact IH|]. intros ys. apply throwsConversion_ret.
Qed.

Lemma bind_returned {A B} (m : Eval D A) (k : A -> Eval D B) w a w' :
  m w = (Returned a, w') -> bind m k w = k a w'.
Proof. intros E. unfold bind. rewrite E. reflexivity. Qed.

Lemma bind_threw {A B} (m : Eval D A) (k : A -> Eval D B) w e w' :
  m w = (Threw e, w') -> bind m k w = (Threw e, w').
Proof. intros E. unfold bind. rewrite E. reflexivity. Qed.



Lemma dbPrepare_configured text (w : World D) d :
  db w = Some d -> dbPrepare text w = (prepare text d, w).
Proof. intros E. unfold dbPrepare. rewrite E. reflexivity. Qed.

Lemma onDatabase_configured {A} (call : D -> Outcome A * D) (w : World D) d r d' :
  db w = Some d -> call d = (r, d') ->
  onDatabase call w = (r, {| ctx := ctx w; db := Some d' |}).
Proof. intros E Hc. unfold onDatabase. rewrite E, Hc. reflexivity. Qed.

Lemma framed_dbPrepare text : framed (dbPrepare text).
Proof.
  intros w. unfold dbPrepare. destruct (db w) as [d|] eqn:E.
  - exists (prepare text d), w. rewrite E. tauto.
  - exists nullHandle, w. rewrite E. tauto.
Qed.

Lemma framed_onDatabase {A} (call : D -> Outcome A * D) : framed (onDatabase call).
Proof.
  intros w. unfold onDatabase. destruct (db w) as [d|] eqn:E.
  - destruct (call d) as [r d']. exists r, {| ctx := ctx w; db := Some d' |}.
    simpl. split; [reflexivity|]. split; [reflexivity|]. split; discriminate.
  - exists nullHandle, w. rewrite E. tauto.
Qed.

Lemma framed_executeSql query argCount evaluatedArgs :
  framed (executeSql query argCount evaluatedArgs).
Proof.
  unfold executeSql.
  apply framed_bind; [apply framed_dbPrepare|]. intros stmt.
  repeat match goal with
         | |- framed (if ?b then _ else _) => destruct b
         | |- framed (bind _ _) => apply framed_bind; [apply framed_onDatabase|]; intros ?
         | |- framed (ret _) => apply settles_framed, settles_ret
         end.
Qed.

Lemma settles_catchSql e : settles (D := D) (catchSql e).
Proof. apply settles_ret. Qed.

(** Evaluating a condition returns a boolean and changes nothing. *)
Lemma evaluateCondition_pure (c : Condition) (w : World D) :
  exists b, evaluateCondition c w = (Returned b, w).
Proof.
  revert w. induction c as [n|n v|n v|n v|n v|n v|n v|cs IH|cs IH|c IH]
    using Condition_nested_ind; intros w;
    try (simpl; unfold readVariable, bind, getCtx, ret; eauto; fail).
  - simpl. induction IH as [|c cs Hc _ IHcs]; [unfold ret; eauto|].
    unfold bind at 1. destruct (Hc w) as [b ->].
    destruct b; [exact IHcs | unfold ret; eauto].
  - simpl. induction IH as [|c cs Hc _ IHcs]; [unfold ret; eauto|].
    unfold bind at 1. destruct (Hc w) as [b ->].
    destruct b; [unfold ret; eauto | exact IHcs].
  - simpl. unfold bind. destruct (IH w) as [b ->]. unfold ret. eauto.
Qed.

Lemma settles_evaluateCondition (c : Condition) :
  settles (D := D) (evaluateCondition c).
Proof.
  intros w. destruct (evaluateCondition_pure c w) as [b E].
  exists b, w. rewrite E. tauto.
Qed.

Lemma throwsConversion_evaluateCondition (c : Condition) :
  throwsConversion (D := D) (evaluateCondition c).
Proof.
  intros w e w'. destruct (evaluateCondition_pure c w) as [b ->]. discriminate.
Qed.

Lemma throwsConversion_evaluateSql (rec : Expression -> Eval D Value) query args :
  Forall (fun e => throwsConversion (rec e)) args ->
  throwsConversion (evaluateSql rec query args).
Proof.
  intros Hargs w e w'. unfold evaluateSql. destruct (db w) as [d|] eqn:E; [|discriminate].
  apply throwsConversion_bind; [apply throwsConversion_mapM; exact Hargs|].
  intros vs w1 e1 w1'.
  destruct (settles_tryCatch _ _ (framed_executeSql query (length args) vs) settles_catchSql w1)
    as (a & w2 & -> & _). discriminate.
Qed.

Lemma throwsConversion_evaluateIf (rec : Expression -> Eval D Value) branches elseValue :
  Forall (fun b => throwsConversion (rec (snd b))) branches ->
  (forall e, elseValue = Some e -> throwsConversion (rec e)) ->
  throwsConversion (evaluateIf rec branches elseValue).
Proof.
  intros Hb He. unfold evaluateIf.
  induction Hb as [|[c v] bs Hv _ IH].
  - destruct elseValue as [e|]; [apply He; reflexivity | apply throwsConversion_ret].
  - apply throwsConversion_bind; [apply throwsConversion_evaluateCondition|].
    intros [|]; [exact Hv | exact IH].
Qed.

Lemma settles_evaluateSql (rec : Expression -> Eval D Value) query args :
  Forall (fun e => settles (rec e)) args -> settles (evaluateSql rec query args).
Proof.
  intros Hargs w. unfold evaluateSql. destruct (db w) as [d|] eqn:E.
  - assert (Hs : settles (let* evaluatedArgs := mapM rec args in
                          tryCatch (executeSql query (length args) evaluatedArgs) catchSql)).
    { apply settles_bind; [apply settles_mapM; exact Hargs|]. intros vs.
      apply settles_tryCatch; [apply framed_executeSql | apply settles_catchSql]. }
    rewrite <- E. exact (Hs w).
  - exists (errorObject "Database not configured"), w. rewrite E. tauto.
Qed.

Lemma settles_evaluateIf (rec : Expression -> Eval D Value) branches elseValue :
  Forall (fun b => settles (rec (snd b))) branches ->
  (forall e, elseValue = Some e -> settles (rec e)) ->
  settles (evaluateIf rec branches elseValue).
Proof.
  intros Hb He. unfold evaluateIf.
  induction Hb as [|[c v] bs Hv _ IH].
  - destruct elseValue as [e|]; [apply He; reflexivity | apply settles_ret].
  - apply settles_bind; [apply settles_evaluateCondition|].
    intros [|]; [exact Hv | exact IH].
Qed.

Lemma framed_evaluateSql (rec : Expression -> Eval D Value) query args :
  Forall (fun e => framed (rec e)) args -> framed (evaluateSql rec query args).
Proof.
  intros Hargs w. unfold evaluateSql. destruct (db w) as [d|] eqn:E.
  - assert (Hs : framed (let* evaluatedArgs := mapM rec args in
                         tryCatch (executeSql query (length args) evaluatedArgs) catchSql)).
    { apply framed_bind; [apply framed_mapM; exact Hargs|]. intros vs.
      apply settles_framed.
      apply settles_tryCatch; [apply framed_executeSql | apply settles_catchSql]. }
    rewrite <- E. exact (Hs w).
  - exists (Returned (errorObject "Database not configured")), w. rewrite E. tauto.
Qed.

Lemma framed_evaluateIf (rec : Expression -> Eval D Value) branches elseValue :
  Forall (fun b => framed (rec (snd b))) branches ->
  (forall e, elseValue = Some e -> framed (rec e)) ->
  framed (evaluateIf rec branches elseValue).
Proof.
  intros Hb He. unfold evaluateIf.
  induction Hb as [|[c v] bs Hv _ IH].
  - destruct elseValue as [e|]; [apply He; reflexivity | apply settles_framed, settles_ret].
  - apply framed_bind; [apply settles_framed, settles_evaluateCondition|].
    intros [|]; [exact Hv | exact IH].
Qed.

(** Evaluating an expression leaves the request context as it was, whether
    it returns or throws. *)
Lemma framed_evaluateExpression (expr : Expression) :
  framed (evaluateExpression expr).
Proof.
  induction expr using Expression_nested_ind; simpl;
    try (apply settles_framed, settles_ret);
    try (apply settles_framed, settles_bind;
         [apply settles_getCtx | intros; apply settles_ret]).
  - apply framed_evaluateSql; assumption.
  - apply framed_evaluateIf; assumption.
  - apply framed_bind; [apply framed_mapM; assumption|]. intros values.
    apply framed_bind; [apply framed_lift | intros; apply settles_framed, settles_ret].
Qed.

Lemma framed_result {A} (m : Eval D A) (w : World D) r w' :
  framed m -> m w = (r, w') -> ctx w' = ctx w /\ (db w' = None <-> db w = None).
Proof.
  intros Hm E. destruct (Hm w) as (r1 & w1 & E1 & H). rewrite E in E1.
  injection E1 as -> ->. exact H.
Qed.

Lemma framed_arguments (args : list Expression) :
  framed (mapM evaluateExpression args).
Proof.
  apply framed_mapM. apply List.Forall_forall. intros e _. apply framed_evaluateExpression.
Qed.

(** Evaluating an expression that joins no texts returns a value: nothing
    the engine throws escapes, and the request context is left as it was. *)
Lemma settles_evaluateExpression (expr : Expression) :
  usesConcat expr = false -> settles (evaluateExpression expr).
Proof.
  induction expr as [v|n|n|n|n|n|q args IH|branches elseValue IHb IHe|v|s|parts IH]
    using Expression_nested_ind; simpl; intros Hc;
    try (apply settles_ret);
    try (apply settles_bind; [apply settles_getCtx | intros; apply settles_ret]).
  - apply settles_evaluateSql.
    induction IH as [|e es He _ IH']; constructor; simpl in Hc;
      apply orb_false_iff in Hc; [apply He | apply IH']; tauto.
  - apply orb_false_iff in Hc as [Hb He]. apply settles_evaluateIf.
    + induction IHb as [|b bs H _ IH']; constructor; simpl in Hb;
        apply orb_false_iff in Hb; [apply H | apply IH']; tauto.
    + intros e ->. apply (IHe e eq_refl). exact He.
  - discriminate.
Qed.

(** What the evaluation of an expression throws is the error of a failed
    conversion, from a [concat]: nothing else escapes. *)
Lemma throwsConversion_evaluateExpression (expr : Expression) :
  throwsConversion (evaluateExpression expr).
Proof.
  induction expr as [v|n|n|n|n|n|q args IH|branches elseValue IHb IHe|v|s|parts IH]
    using Expression_nested_ind; simpl;
    try (intros w e w'; unfold bind, getCtx, ret; discriminate).
  - apply throwsConversion_evaluateSql; assumption.
  - apply throwsConversion_evaluateIf; assumption.
  - apply throwsConversion_bind; [apply throwsConversion_mapM; assumption|]. intros values.
    apply throwsConversion_bind; [|intros text w e w'; unfold ret; discriminate].
    intros w e w'. unfold lift. intros E. injection E as E _.
    exact (joinValues_throws _ _ _ E).
Qed.

End EvaluatorFacts.

(** ** Queries, conditionals and conditions *)

Section EvaluatorProperties.
Context {D : Type} {engine : Executor D} {host : Builtins}.
Local Open Scope eval_scope.

(** What the [try] block of [evaluateSql] throws is what the engine threw:
    preparing the statement, or the one call the statement's keyword selects. *)
Lemma executeSql_throws query argCount evaluatedArgs w d e w' :
  db w = Some d ->
  executeSql query argCount evaluatedArgs w = (Threw e, w') ->
  prepare query d = Threw e \/
  exists stmt, prepare query d = Returned stmt /\
    (fst (stmt_get stmt evaluatedArgs d) = Threw e \/
     fst (stmt_all stmt evaluatedArgs d) = Threw e \/
     fst (stmt_run stmt evaluatedArgs d) = Threw e).
Proof.
  intros Hd. unfold executeSql, bind at 1, dbPrepare. rewrite Hd.
  destruct (prepare query d) as [stmt|e0] eqn:Hp; cbv iota.
  2: { intros Hx. left. congruence. }
  intros Hx. right. exists stmt. split; [reflexivity|].
  repeat match type of Hx with context [if ?b then _ else _] => destruct b end;
    unfold bind, onDatabase, ret in Hx; rewrite Hd in Hx;
    match type of Hx with
    | context [stmt_get ?s ?a ?x] => destruct (stmt_get s a x) as [[r|e1] d1]
    | context [stmt_all ?s ?a ?x] => destruct (stmt_all s a x) as [[r|e1] d1]
    | context [stmt_run ?s ?a ?x] => destruct (stmt_run s a x) as [[r|e1] d1]
    end; simpl in Hx; try discriminate; assert (e1 = e) as -> by congruence; auto.
Qed.

(** And the [try] block throws when the engine does: when preparing the
    statement throws, or when the prepared statement throws whichever way it
    is run. *)
Lemma executeSql_throws_with_engine query argCount evaluatedArgs (w : World D) d e :
  db w = Some d ->
  prepare query d = Threw e \/
  (exists stmt, prepare query d = Returned stmt /\
     fst (stmt_get stmt evaluatedArgs d) = Threw e /\
     fst (stmt_all stmt evaluatedArgs d) = Threw e /\
     fst (stmt_run stmt evaluatedArgs d) = Threw e) ->
  exists w', executeSql query argCount evaluatedArgs w = (Threw e, w').
Proof.
  intros Hd [Hp|(stmt & Hp & Hget & Hall & Hrun)]; unfold executeSql.
  - exists w. apply bind_threw. rewrite (dbPrepare_configured query w d Hd). congruence.
  - assert (Hprep : dbPrepare query w = (Returned stmt, w))
      by (rewrite (dbPrepare_configured query w d Hd), Hp; reflexivity).
    rewrite (bind_returned _ _ _ _ _ Hprep).
    destruct (stmt_get stmt evaluatedArgs d) as [rg dg] eqn:Eg.
    destruct (stmt_all stmt evaluatedArgs d) as [ra da] eqn:Ea.
    destruct (stmt_run stmt evaluatedArgs d) as [rr dr] eqn:Er.
    simpl in Hget, Hall, Hrun. subst rg ra rr.
    repeat match goal with |- context [if ?b then _ else _] => destruct b end;
      eexists; apply bind_threw; eapply onDatabase_configured; eassumption.
Qed.

(** One step of [evaluateSql] on a configured database: the arguments are
    evaluated, then the [try] block runs under the [catch]. *)
Lemma evaluateSql_configured query args w evaluatedArgs w1 :
  db w <> None ->
  mapM evaluateExpression args w = (Returned evaluatedArgs, w1) ->
  evaluateExpression (ESql query args) w =
  tryCatch (executeSql query (length args) evaluatedArgs) catchSql w1.
Proof.
  intros Hd Hargs. simpl. unfold evaluateSql.
  destruct (db w); [|congruence]. unfold bind. rewrite Hargs. reflexivity.
Qed.

(** C1, as amended.  For a query whose text, trimmed, starts with SELECT in
    any letter case, on a configured database whose engine prepares the
    statement and runs the fetch without throwing: when the text contains
    [LIMIT 1] or exactly one argument is supplied, evaluation runs [get] and
    returns the row as an object, or [null] when there is none; otherwise it
    runs [all] and returns the array of the rows. *)
Theorem evaluateSql_select query args (w : World D) evaluatedArgs w1 d1 stmt :
  startsWith (toUpperCase (trim query)) "SELECT" = true ->
  db w <> None ->
  mapM evaluateExpression args w = (Returned evaluatedArgs, w1) ->
  db w1 = Some d1 ->
  prepare query d1 = Returned stmt ->
  (forall result d2,
      (includes query "LIMIT 1" || Nat.eqb (length args) 1)%bool = true ->
      stmt_get stmt evaluatedArgs d1 = (Returned result, d2) ->
      evaluateExpression (ESql query args) w =
      (Returned (match result with Some row => VObject row | None => VNull end),
       {| ctx := ctx w; db := Some d2 |})) /\
  (forall rows d2,
      (includes query "LIMIT 1" || Nat.eqb (length args) 1)%bool = false ->
      stmt_all stmt evaluatedArgs d1 = (Returned rows, d2) ->
      evaluateExpression (ESql query args) w =
      (Returned (VArray (map VObject rows)), {| ctx := ctx w; db := Some d2 |})).
Proof.
  intros Hsel Hd Hargs Hd1 Hp.
  assert (Hctx : ctx w1 = ctx w).
  { exact (proj1 (framed_result _ _ _ _ (framed_arguments args) Hargs)). }
  rewrite (evaluateSql_configured query args w evaluatedArgs w1 Hd Hargs).
  unfold tryCatch, executeSql.
  assert (Hprep : dbPrepare query w1 = (Returned stmt, w1))
    by (rewrite (dbPrepare_configured query w1 d1 Hd1), Hp; reflexivity).
  rewrite (bind_returned _ _ _ _ _ Hprep), Hsel.
  split; intros r d2 Hone Hcall; rewrite Hone;
    rewrite (bind_returned _ _ _ _ _ (onDatabase_configured _ w1 d1 _ d2 Hd1 Hcall));
    unfold ret; rewrite Hctx; reflexivity.
Qed.

(** C2.  A query whose arguments have been evaluated, on a configured
    database: when the engine throws, preparing the statement or in the
    call the text of the query selects on it ([get] or [all] for a SELECT,
    [run] for any other statement), the query does not throw: it evaluates
    to the object whose [error] key holds the thrown message, and the
    request context is left as it was. *)
Theorem evaluateSql_catches query args (w : World D) evaluatedArgs w1 d1 e :
  mapM evaluateExpression args w = (Returned evaluatedArgs, w1) ->
  db w1 = Some d1 ->
  engineThrows query (length args) evaluatedArgs d1 e ->
  exists d2,
    evaluateExpression (ESql query args) w =
    (Returned (VObject [("error", VString (thrownMessage e))]),
     {| ctx := ctx w; db := Some d2 |}).
Proof.
  intros Hargs Hd1 Hthrows.
  destruct (framed_result _ _ _ _ (framed_arguments args) Hargs) as [Hctx Hdb].
  assert (Hd : db w <> None) by (intros H; apply Hdb in H; congruence).
  rewrite (evaluateSql_configured query args w evaluatedArgs w1 Hd Hargs).
  assert (Hcatch : forall w2, executeSql query (length args) evaluatedArgs w1 = (Threw e, w2) ->
                   tryCatch (executeSql query (length args) evaluatedArgs) catchSql w1 =
                   (Returned (VObject [("error", VString (thrownMessage e))]), w2)).
  { intros w2 Hx. unfold tryCatch. rewrite Hx. destruct e; reflexivity. }
  destruct Hthrows as [Hp|(stmt & Hp & Hcall)].
  - exists d1. rewrite (Hcatch w1).
    + destruct w1 as [c1 o1]. simpl in *. subst. reflexivity.
    + unfold executeSql. apply bind_threw.
      rewrite (dbPrepare_configured query w1 d1 Hd1). congruence.
  - assert (Hprep : dbPrepare query w1 = (Returned stmt, w1))
      by (rewrite (dbPrepare_configured query w1 d1 Hd1), Hp; reflexivity).
    assert (Hx : exists d2, executeSql query (length args) evaluatedArgs w1 =
                            (Threw e, {| ctx := ctx w1; db := Some d2 |})).
    { unfold executeSql. rewrite (bind_returned _ _ _ _ _ Hprep).
      destruct (startsWith (toUpperCase (trim query)) "SELECT");
        [destruct (includes query "LIMIT 1" || Nat.eqb (length args) 1)%bool|];
        match type of Hcall with
        | fst ?call = _ => destruct call as [r d2] eqn:Ecall
        end; simpl in Hcall; subst r; exists d2;
        repeat match goal with |- context [if ?b then _ else _] => destruct b end;
        apply bind_threw; eapply onDatabase_configured; eassumption. }
    destruct Hx as (d2 & Hx). exists d2. rewrite (Hcatch _ Hx), Hctx. reflexivity.
Qed.

Lemma evaluateCondition_holds condition (w : World D) :
  evaluateCondition condition w = (Returned (holds w condition), w).
Proof.
  unfold holds. destruct (evaluateCondition_pure condition w) as [b ->]. reflexivity.
Qed.

(** C3.  A conditional evaluates to what its selected expression evaluates
    to (the value of the first branch, in source order, whose condition is
    true, else the else expression), and to [null] when nothing is selected;
    testing a condition changes nothing. *)
Theorem evaluateIf_first_match branches elseValue (w : World D) :
  (forall condition, evaluateCondition condition w = (Returned (holds w condition), w)) /\
  evaluateExpression (EIf branches elseValue) w =
  match selected w branches elseValue with
  | Some e => evaluateExpression e w
  | None => (Returned VNull, w)
  end.
Proof.
  split; [intros; apply evaluateCondition_holds|].
  simpl. unfold evaluateIf, selected.
  induction branches as [|[c v] bs IH]; simpl.
  - destruct elseValue; reflexivity.
  - unfold bind at 1. rewrite evaluateCondition_holds.
    destruct (holds w c); [reflexivity | exact IH].
Qed.

(** A name that is none of the properties of [Object.prototype] reads as
    [undefined] on a record that does not have it. *)
Lemma objectPrototypeMember_other key :
  ~ In key inheritedNames -> objectPrototypeMember key = VUndefined.
Proof.
  intros H. unfold objectPrototypeMember.
  destruct (String.eqb_spec key "__proto__") as [->|_];
    [exfalso; apply H; simpl; tauto|].
  destruct (String.eqb_spec key "constructor") as [->|_];
    [exfalso; apply H; simpl; tauto|].
  destruct (existsb (String.eqb key) inheritedNames) eqn:E; [|reflexivity].
  apply existsb_exists in E as (x & Hin & Hx). apply String.eqb_eq in Hx. subst x.
  contradiction.
Qed.



(** C10.  Evaluating an expression or a condition leaves the request
    context as it was, whether the evaluation returns or throws: its
    [params], [query], [body], [headers] and [variables] are those it
    started with.  The one write to the context is [bindVariable], which
    the handler's loop over the assignments calls: under any name but
    [__proto__] it sets that key of [variables]. *)
Theorem evaluation_preserves_context (w : World D) :
  (forall expr,
      let w' := snd (evaluateExpression expr w) in
      params (ctx w') = params (ctx w) /\ query (ctx w') = query (ctx w) /\
      body (ctx w') = body (ctx w) /\ headers (ctx w') = headers (ctx w) /\
      variables (ctx w') = variables (ctx w)) /\
  (forall condition,
      let w' := snd (evaluateCondition condition w) in
      params (ctx w') = params (ctx w) /\ query (ctx w') = query (ctx w) /\
      body (ctx w') = body (ctx w) /\ headers (ctx w') = headers (ctx w) /\
      variables (ctx w') = variables (ctx w)) /\
  (forall name value,
      name <> "__proto__" ->
      variables (ctx (snd (bindVariable name value w))) =
      <[name := value]> (variables (ctx w))).
Proof.
  split; [|split].
  - intros expr. destruct (framed_evaluateExpression expr w) as (r & w1 & E & Hc & _).
    simpl. rewrite E. simpl. rewrite Hc. tauto.
  - intros condition. simpl. rewrite evaluateCondition_holds. simpl. tauto.
  - intros name value Hname. simpl. apply setValue_other. exact Hname.
Qed.

End EvaluatorProperties.

(** ** The handler *)

Section CompilerProperties.
Context {D : Type} {engine : Executor D} {host : Builtins}.
Local Open Scope eval_scope.














End CompilerProperties.

(** ** The parser terminates: the bound on the recursion is never reached *)

Section StringFacts.
Local Open Scope nat_scope.

Lemma trimStart_length s : String.length (trimStart s) <= String.length s.
Proof.
  induction s as [|c r IH]; simpl; [lia|].
  destruct (isWhiteSpace c); simpl; lia.
Qed.

Lemma trimEnd_length s : String.length (trimEnd s) <= String.length s.
Proof.
  induction s as [|c r IH]; simpl; [lia|].
  destruct (trimEnd r) eqn:E; [destruct (isWhiteSpace c)|]; simpl in *; lia.
Qed.

Lemma trim_length s : String.length (trim s) <= String.length s.
Proof.
  unfold trim. pose proof (trimEnd_length (trimStart s)).
  pose proof (trimStart_length s). lia.
Qed.

Lemma substring_length n m s :
  String.length (String.substring n m s) <= String.length s - n.
Proof.
  revert n m. induction s as [|c r IH]; intros [|n] [|m]; simpl; try lia.
  - specialize (IH 0 m). lia.
  - apply IH.
  - apply IH.
Qed.

Lemma slice_length s from to :
  (0 <= from)%Z ->
  String.length (slice s from to) <= String.length s - Z.to_nat from.
Proof.
  intros Hfrom. unfold slice.
  etransitivity; [apply substring_length|].
  unfold clampIndex at 1. destruct (from <? 0)%Z eqn:E; [lia|].
  unfold len. lia.
Qed.

Lemma slice_length_le s from to : String.length (slice s from to) <= String.length s.
Proof. unfold slice. etransitivity; [apply substring_length|]. lia. Qed.

Lemma sliceFrom_length s from :
  (0 <= from)%Z ->
  String.length (sliceFrom s from) <= String.length s - Z.to_nat from.
Proof. apply slice_length. Qed.

Lemma dropLast_length s : String.length (dropLast s) = String.length s - 1.
Proof.
  induction s as [|c r IH]; simpl; [reflexivity|].
  destruct r; simpl in *; lia.
Qed.

Lemma append_length (a b : string) :
  String.length (a ++ b)%string = String.length a + String.length b.
Proof. induction a as [|c a IH]; simpl; [reflexivity | rewrite IH; reflexivity]. Qed.

Lemma append_empty (a : string) : (a ++ EmptyString)%string = a.
Proof.
  induction a as [|c a IH]; [reflexivity|].
  change (String c (a ++ EmptyString)%string = String c a). f_equal. exact IH.
Qed.

Lemma indexOfFrom_lower needle s i : (i <= indexOfFrom needle s i \/ indexOfFrom needle s i = -1)%Z.
Proof.
  revert i. induction s as [|c r IH]; intros i; cbn [indexOfFrom].
  - destruct (String.prefix needle ""); lia.
  - destruct (String.prefix needle (String c r)); [lia|].
    destruct (IH (i + 1)%Z); lia.
Qed.

Lemma indexOf_lower s needle : (-1 <= indexOf s needle)%Z.
Proof. unfold indexOf. destruct (indexOfFrom_lower needle s 0); lia. Qed.

Lemma prefix_length p s : String.prefix p s = true -> String.length p <= String.length s.
Proof.
  revert s. induction p as [|c p IH]; intros [|d s]; simpl; try lia; try discriminate.
  destruct (ascii_dec c d); [|discriminate]. intros Hp. apply IH in Hp. lia.
Qed.

Lemma indexOfFrom_upper needle s i :
  indexOfFrom needle s i <> (-1)%Z ->
  (indexOfFrom needle s i - i + Z.of_nat (String.length needle) <= Z.of_nat (String.length s))%Z.
Proof.
  revert i. induction s as [|c r IH]; intros i; cbn [indexOfFrom].
  - destruct (String.prefix needle "") eqn:E; [|congruence].
    intros _. apply prefix_length in E. simpl in E. lia.
  - destruct (String.prefix needle (String c r)) eqn:E.
    + intros _. apply prefix_length in E. simpl String.length in *. lia.
    + intros Hne. specialize (IH (i + 1)%Z Hne). simpl String.length. lia.
Qed.

Lemma indexOf_upper s needle :
  indexOf s needle <> (-1)%Z ->
  (indexOf s needle + Z.of_nat (String.length needle) <= Z.of_nat (String.length s))%Z.
Proof. intros Hne. pose proof (indexOfFrom_upper needle s 0 Hne). unfold indexOf. lia. Qed.

(** Every text the scanners accumulate is no longer than the input. *)
Lemma splitScan_length sep st current s pieces last :
  splitScan sep st current s = (pieces, last) ->
  Forall (fun p => String.length p <= String.length current + String.length s)
         (pieces ++ [last]).
Proof.
  revert st current pieces last.
  induction s as [|c r IH]; intros st current pieces last; simpl.
  - intros [= <- <-]. simpl. constructor; [lia | constructor].
  - destruct (scanChar sep st c) as [st' isSep]. destruct isSep.
    + destruct (splitScan sep st' "" r) as [pieces' last'] eqn:E.
      intros [= <- <-]. simpl. constructor; [lia|].
      specialize (IH _ _ _ _ E). simpl in IH.
      eapply Forall_impl; [exact IH|]. simpl. intros p Hp. lia.
    + intros E. specialize (IH _ _ _ _ E).
      eapply Forall_impl; [exact IH|]. simpl. intros p Hp.
      rewrite append_length in Hp. simpl in Hp. lia.
Qed.

Lemma splitFunctionArgs_length argsStr :
  Forall (fun p => String.length p <= String.length argsStr) (splitFunctionArgs argsStr).
Proof.
  unfold splitFunctionArgs.
  destruct (splitScan "," scanStart "" argsStr) as [pieces last] eqn:E.
  apply splitScan_length in E. simpl in E.
  apply List.Forall_forall. intros p Hp. apply in_map_iff in Hp as (q & <- & Hq).
  apply filter_In in Hq as [Hq _].
  rewrite List.Forall_forall in E. specialize (E q Hq).
  pose proof (trim_length q). lia.
Qed.

Lemma splitIfBranches_length str :
  Forall (fun p => String.length p <= String.length str) (splitIfBranches str).
Proof.
  unfold splitIfBranches.
  destruct (splitScan ";" scanStart "" str) as [pieces last] eqn:E.
  apply splitScan_length in E. simpl in E.
  apply Forall_app in E as [E1 E2]. apply Forall_app. split; [exact E1|].
  destruct (nonBlank last); [exact E2 | constructor].
Qed.

Lemma extractFunctionContent_length value funcName :
  funcName <> EmptyString -> value <> EmptyString ->
  String.length (extractFunctionContent value funcName) < String.length value.
Proof.
  intros Hf Hv. unfold extractFunctionContent.
  set (start := (indexOf value (funcName ++ "(") + len funcName + 1)%Z).
  assert (1 <= start)%Z.
  { pose proof (indexOf_lower value (funcName ++ "(")). unfold start, len.
    destruct funcName; [congruence|]. simpl. lia. }
  match goal with |- String.length (slice _ _ ?e) < _ =>
    pose proof (slice_length value start e) end.
  destruct value; [congruence|]. simpl in *. lia.
Qed.

Lemma substring_length_count n m s : String.length (String.substring n m s) <= m.
Proof.
  revert n m. induction s as [|c r IH]; intros [|n] [|m]; simpl; try lia.
  - specialize (IH 0 m). lia.
  - apply IH.
  - apply (IH n (S m)).
Qed.

(** The two sides of a text split at an occurrence of [needle] are shorter
    than the text. *)
Lemma split_at_length t needle :
  needle <> EmptyString ->
  indexOf t needle <> (-1)%Z ->
  String.length (slice t 0 (indexOf t needle)) < String.length t /\
  String.length (sliceFrom t (indexOf t needle + len needle)) < String.length t.
Proof.
  intros Hn Hi. pose proof (indexOf_lower t needle) as Hlo.
  pose proof (indexOf_upper t needle Hi) as Hup.
  assert (0 < String.length needle) by (destruct needle; [congruence | simpl; lia]).
  split.
  - unfold slice. eapply Nat.le_lt_trans; [apply substring_length_count|].
    unfold clampIndex, len. simpl.
    destruct (indexOf t needle <? 0)%Z eqn:E; lia.
  - eapply Nat.le_lt_trans; [apply sliceFrom_length; unfold len; lia|].
    unfold len. lia.
Qed.

End StringFacts.

Section ParserTermination.
Context {host : Builtins}.
Local Open Scope nat_scope.

Lemma matchSqlTail_length rest a :
  matchSqlTail rest = Some (Some a) -> String.length a < String.length rest.
Proof.
  unfold matchSqlTail. pose proof (trimStart_length rest) as Hrest.
  destruct (trimStart rest) as [|c x'] eqn:E; [discriminate|].
  simpl in Hrest.
  destruct (Ascii.eqb c ",") eqn:Ec.
  - apply Ascii.eqb_eq in Ec as ->.
    destruct (lastChar x') as [l|]; [|discriminate].
    destruct (Ascii.eqb l ")"); [|discriminate].
    pose proof (dropLast_length x') as Hx.
    destruct (dropLast x') as [|d x] eqn:Ex; [discriminate|].
    pose proof (trimStart_length (String d x)) as Ht.
    destruct (trimStart (String d x)) as [|t0 t] eqn:Et.
    + destruct (lastChar (String d x)); [|discriminate].
      intros [= <-]. simpl in *. lia.
    + intros [= <-]. simpl in *. lia.
  - destruct c as [[] [] [] [] [] [] [] []]; try discriminate;
      destruct x'; discriminate.
Qed.

Lemma scanSqlText_length text s q a :
  scanSqlText text s = Some (q, Some a) -> String.length a < String.length s.
Proof.
  revert text. induction s as [|c r IH]; intros text; simpl; [discriminate|].
  assert (Hrec : scanSqlText (text ++ String c "") r = Some (q, Some a) ->
                 String.length a < S (String.length r)).
  { intros E. apply IH in E. lia. }
  destruct (isQuote c && negb (String.eqb text ""))%bool; [|exact Hrec].
  destruct (matchSqlTail r) as [g|] eqn:E; [|exact Hrec].
  intros [= <- ->]. apply matchSqlTail_length in E. lia.
Qed.

Lemma matchSql_length value q a :
  matchSql value = Some (q, Some a) -> String.length a < String.length value.
Proof.
  unfold matchSql. destruct (startsWith value "sql"); [|discriminate].
  pose proof (sliceFrom_length value 3 ltac:(lia)) as H3.
  pose proof (trimStart_length (sliceFrom value 3)) as Ht.
  destruct (trimStart (sliceFrom value 3)) as [|c r] eqn:E; [discriminate|].
  simpl in Ht.
  destruct (Ascii.eqb c "(") eqn:Ec.
  - apply Ascii.eqb_eq in Ec as ->.
    pose proof (trimStart_length r) as Hr.
    destruct (trimStart r) as [|q0 r'] eqn:Er; [discriminate|]. simpl in Hr.
    destruct (isQuote q0); [|discriminate].
    intros E'. apply scanSqlText_length in E'. lia.
  - destruct c as [[] [] [] [] [] [] [] []]; try discriminate.
Qed.

Lemma parseFunctionArgs_ext (rec rec' : string -> Expression) argsStr :
  (forall s, String.length s <= String.length argsStr -> rec s = rec' s) ->
  parseFunctionArgs rec argsStr = parseFunctionArgs rec' argsStr.
Proof.
  intros Hrec. unfold parseFunctionArgs. destruct (trim argsStr) as [|c t]; [reflexivity|].
  apply map_ext_in. intros s Hs. apply Hrec.
  pose proof (splitFunctionArgs_length argsStr) as Hall.
  rewrite List.Forall_forall in Hall. apply Hall. exact Hs.
Qed.

Lemma parseSqlExpression_ext (rec rec' : string -> Expression) value :
  (forall s, String.length s < String.length value -> rec s = rec' s) ->
  parseSqlExpression rec value = parseSqlExpression rec' value.
Proof.
  intros Hrec. unfold parseSqlExpression.
  destruct (matchSql value) as [[q [a|]]|] eqn:E; try reflexivity.
  apply matchSql_length in E. f_equal.
  apply parseFunctionArgs_ext. intros s Hs. apply Hrec. lia.
Qed.

Lemma parseIfPart_ext (rec rec' : string -> Expression) acc part :
  (forall s, String.length s <= String.length part -> rec s = rec' s) ->
  parseIfPart rec acc part = parseIfPart rec' acc part.
Proof.
  intros Hrec. unfold parseIfPart. destruct acc as [branches elseValue].
  destruct (startsWith (trim part) "else:").
  - rewrite Hrec; [reflexivity|].
    pose proof (trim_length (sliceFrom (trim part) 5)).
    pose proof (sliceFrom_length (trim part) 5 ltac:(lia)).
    pose proof (trim_length part). lia.
  - destruct (negb (findColonInBranch part =? -1)%Z); [|reflexivity].
    rewrite Hrec; [reflexivity|].
    pose proof (trim_length (sliceFrom part (findColonInBranch part + 1))).
    pose proof (slice_length_le part (findColonInBranch part + 1) (len part)).
    unfold sliceFrom in *. lia.
Qed.

Lemma parseIfExpression_ext (rec rec' : string -> Expression) value :
  (forall s, String.length s < String.length value -> rec s = rec' s) ->
  parseIfExpression rec value = parseIfExpression rec' value.
Proof.
  intros Hrec. unfold parseIfExpression.
  destruct value as [|c v].
  { reflexivity. }
  pose proof (extractFunctionContent_length (String c v) "if"
                ltac:(discriminate) ltac:(discriminate)) as Hinner.
  pose proof (splitIfBranches_length (extractFunctionContent (String c v) "if")) as Hparts.
  generalize ((@nil (Condition * Expression)), (@None Expression)).
  induction Hparts as [|part parts Hpart _ IH]; intros acc; simpl; [reflexivity|].
  rewrite (parseIfPart_ext rec rec' acc part); [apply IH|].
  intros s Hs. apply Hrec. lia.
Qed.

(** Any bound above the length of the text gives the same expression. *)
Lemma parseExpressionFuel_enough n m value :
  String.length value < n -> String.length value < m ->
  parseExpressionFuel n value = parseExpressionFuel m value.
Proof.
  revert m value. induction n as [|n IH]; intros [|m] value Hn Hm; try lia.
  cbn [parseExpressionFuel]. pose proof (trim_length value) as Ht.
  destruct (startsWith (trim value) "sql(").
  { apply parseSqlExpression_ext. intros s Hs. apply IH; lia. }
  repeat match goal with
         | |- (if ?b then ?x else _) = (if ?b then ?x else _) =>
             destruct b; [reflexivity|]
         end.
  destruct (startsWith (trim value) "if("); [|reflexivity].
  apply parseIfExpression_ext. intros s Hs. apply IH; lia.
Qed.

(** [parseExpression] satisfies the recursive equation of the source. *)
Lemma parseExpression_unfold value :
  parseExpression value =
  let trimmedValue := trim value in
  if startsWith trimmedValue "sql(" then parseSqlExpression parseExpression trimmedValue
  else if startsWith trimmedValue "param(" then
    EParam (stripPrefix ":" (extractFunctionContent trimmedValue "param"))
  else if startsWith trimmedValue "query(" then
    EQuery (extractFunctionContent trimmedValue "query")
  else if startsWith trimmedValue "body(" then
    EBody (extractFunctionContent trimmedValue "body")
  else if startsWith trimmedValue "header(" then
    EHeader (extractFunctionContent trimmedValue "header")
  else if startsWith trimmedValue "var(" then
    EVar (stripPrefix "--" (extractFunctionContent trimmedValue "var"))
  else if startsWith trimmedValue "if(" then
    parseIfExpression parseExpression trimmedValue
  else if isNumericLiteral trimmedValue then
    ELiteral (VNumber (parseFloat trimmedValue))
  else if (String.eqb trimmedValue "true" || String.eqb trimmedValue "false")%bool then
    ELiteral (VBool (String.eqb trimmedValue "true"))
  else if String.eqb trimmedValue "null" then ELiteral VNull
  else if (startsWith trimmedValue "[" || startsWith trimmedValue "{")%bool then
    match JSON_parse trimmedValue with
    | Some v => EJson v
    | None => ELiteral (VString (parseStringValue trimmedValue))
    end
  else ELiteral (VString (parseStringValue trimmedValue)).
Proof.
  unfold parseExpression at 1. cbn [parseExpressionFuel]. cbv zeta.
  pose proof (trim_length value) as Ht.
  destruct (startsWith (trim value) "sql(").
  { apply parseSqlExpression_ext. intros s Hs. unfold parseExpression.
    apply parseExpressionFuel_enough; lia. }
  repeat match goal with
         | |- (if ?b then ?x else _) = (if ?b then ?x else _) =>
             destruct b; [reflexivity|]
         end.
  destruct (startsWith (trim value) "if("); [|reflexivity].
  apply parseIfExpression_ext. intros s Hs. unfold parseExpression.
  apply parseExpressionFuel_enough; lia.
Qed.

Lemma parseConditionFuel_enough n m str :
  String.length str < n -> String.length str < m ->
  parseConditionFuel n str = parseConditionFuel m str.
Proof.
  revert m str. induction n as [|n IH]; intros [|m] str Hn Hm; try lia.
  cbn [parseConditionFuel]. cbv zeta. pose proof (trim_length str) as Ht.
  set (t := trim str) in *.
  destruct (negb (indexOf t " or " =? -1)%Z) eqn:Eor.
  { apply negb_true_iff, Z.eqb_neq in Eor.
    destruct (split_at_length t " or " ltac:(discriminate) Eor) as [Hl Hr].
    change (len " or ") with 4%Z in Hr.
    pose proof (trim_length (slice t 0 (indexOf t " or "))).
    pose proof (trim_length (sliceFrom t (indexOf t " or " + 4))).
    f_equal. f_equal; [apply IH; lia|]. f_equal. apply IH; lia. }
  destruct (negb (indexOf t " and " =? -1)%Z) eqn:Eand.
  { apply negb_true_iff, Z.eqb_neq in Eand.
    destruct (split_at_length t " and " ltac:(discriminate) Eand) as [Hl Hr].
    change (len " and ") with 5%Z in Hr.
    pose proof (trim_length (slice t 0 (indexOf t " and "))).
    pose proof (trim_length (sliceFrom t (indexOf t " and " + 5))).
    f_equal. f_equal; [apply IH; lia|]. f_equal. apply IH; lia. }
  destruct (startsWith t "not ") eqn:Enot; [|reflexivity].
  apply prefix_length in Enot. simpl in Enot.
  pose proof (sliceFrom_length t 4 ltac:(lia)).
  f_equal. apply IH; lia.
Qed.

(** [parseCondition] satisfies the recursive equation of the source. *)
Lemma parseCondition_unfold str :
  parseCondition str =
  let trimmedStr := trim str in
  let orIndex := indexOf trimmedStr " or " in
  let andIndex := indexOf trimmedStr " and " in
  if negb (orIndex =? -1)%Z then
    COr [parseCondition (trim (slice trimmedStr 0 orIndex));
         parseCondition (trim (sliceFrom trimmedStr (orIndex + 4)))]
  else if negb (andIndex =? -1)%Z then
    CAnd [parseCondition (trim (slice trimmedStr 0 andIndex));
          parseCondition (trim (sliceFrom trimmedStr (andIndex + 5)))]
  else if startsWith trimmedStr "not " then
    CNot (parseCondition (sliceFrom trimmedStr 4))
  else
    match parseComparison trimmedStr with
    | Some c => c
    | None =>
        match matchVariable trimmedStr with
        | Some name => CTruthy name
        | None => CTruthy (stripPrefix "--" trimmedStr)
        end
    end.
Proof.
  unfold parseCondition at 1. cbn [parseConditionFuel]. cbv zeta.
  pose proof (trim_length str) as Ht. set (t := trim str) in *.
  destruct (negb (indexOf t " or " =? -1)%Z) eqn:Eor.
  { apply negb_true_iff, Z.eqb_neq in Eor.
    destruct (split_at_length t " or " ltac:(discriminate) Eor) as [Hl Hr].
    change (len " or ") with 4%Z in Hr.
    pose proof (trim_length (slice t 0 (indexOf t " or "))).
    pose proof (trim_length (sliceFrom t (indexOf t " or " + 4))).
    unfold parseCondition.
    f_equal. f_equal; [apply parseConditionFuel_enough; lia|].
    f_equal. apply parseConditionFuel_enough; lia. }
  destruct (negb (indexOf t " and " =? -1)%Z) eqn:Eand.
  { apply negb_true_iff, Z.eqb_neq in Eand.
    destruct (split_at_length t " and " ltac:(discriminate) Eand) as [Hl Hr].
    change (len " and ") with 5%Z in Hr.
    pose proof (trim_length (slice t 0 (indexOf t " and "))).
    pose proof (trim_length (sliceFrom t (indexOf t " and " + 5))).
    unfold parseCondition.
    f_equal. f_equal; [apply parseConditionFuel_enough; lia|].
    f_equal. apply parseConditionFuel_enough; lia. }
  destruct (startsWith t "not ") eqn:Enot; [|reflexivity].
  apply prefix_length in Enot. simpl in Enot.
  pose proof (sliceFrom_length t 4 ltac:(lia)).
  unfold parseCondition. f_equal. apply parseConditionFuel_enough; lia.
Qed.

End ParserTermination.

(** ** The parser *)

Section ParserProperties.
Context {host : Builtins}.

Lemma startsWith_head c r p ps :
  startsWith (String c r) (String p ps) = true -> p = c.
Proof.
  unfold startsWith. simpl. destruct (ascii_dec p c); [auto | discriminate].
Qed.

Lemma startsWith_other_head c r p ps :
  p <> c -> startsWith (String c r) (String p ps) = false.
Proof.
  intros Hne. unfold startsWith. simpl. destruct (ascii_dec p c); [contradiction | reflexivity].
Qed.

(** Parts that are not [else:] parts leave the else expression as it is. *)
Lemma parseIfParts_keep_else (rec : string -> Expression) post branches elseValue :
  Forall (fun p => startsWith (trim p) "else:" = false) post ->
  exists branches',
    fold_left (parseIfPart rec) post (branches, elseValue) = (branches', elseValue).
Proof.
  intros Hpost. revert branches.
  induction Hpost as [|p post Hp _ IH]; intros branches; simpl.
  - eauto.
  - rewrite Hp. destruct (negb (findColonInBranch p =? -1)); apply IH.
Qed.

Lemma parseIfPart_else (rec : string -> Expression) part branches elseValue :
  startsWith (trim part) "else:" = true ->
  parseIfPart rec (branches, elseValue) part =
  (branches, Some (rec (trim (sliceFrom (trim part) 5)))).
Proof. intros Hp. unfold parseIfPart. rewrite Hp. reflexivity. Qed.

(** C5, as amended.  When the parts of the inner content of an [if(...)]
    expression, split at the semicolons at depth 0, include parts whose
    trimmed text starts with [else:], the else expression of the parsed
    conditional is the one parsed from the last of them: each such part
    overwrites the else expression of the parts before it. *)
Theorem parseIf_last_else value pre part post :
  startsWith (trim value) "if(" = true ->
  splitIfBranches (extractFunctionContent (trim value) "if") = (pre ++ part :: post)%list ->
  startsWith (trim part) "else:" = true ->
  Forall (fun p => startsWith (trim p) "else:" = false) post ->
  exists branches,
    parseExpression value =
    EIf branches (Some (parseExpression (trim (sliceFrom (trim part) 5)))).
Proof.
  intros Hif Hparts Hpart Hpost.
  rewrite parseExpression_unfold. cbv zeta.
  destruct (trim value) as [|c t] eqn:Et; [discriminate|].
  pose proof (startsWith_head _ _ _ _ Hif) as <-.
  rewrite !startsWith_other_head by discriminate. rewrite Hif.
  unfold parseIfExpression. rewrite Hparts, fold_left_app. simpl.
  destruct (fold_left (parseIfPart parseExpression) pre ([], None)) as [b0 e0].
  rewrite parseIfPart_else by exact Hpart.
  destruct (parseIfParts_keep_else parseExpression post b0
              (Some (parseExpression (trim (sliceFrom (trim part) 5)))) Hpost)
    as [branches ->].
  eauto.
Qed.

End ParserProperties.

(** ** Literals *)

Section LiteralProperties.
Context {D : Type} {engine : Executor D} {host : Builtins}.

Lemma takeDigits_spec s ds r :
  takeDigits s = (ds, r) -> s = (ds ++ r)%string /\ allChars isDigit ds = true.
Proof.
  revert ds r. induction s as [|c s IH]; intros ds r; simpl.
  - intros [= <- <-]. auto.
  - destruct (isDigit c) eqn:Ec.
    + destruct (takeDigits s) as [ds' r'] eqn:E. intros [= <- <-].
      destruct (IH _ _ eq_refl) as [-> Hds]. simpl. rewrite Ec, Hds. auto.
    + intros [= <- <-]. auto.
Qed.

Lemma isDigit_not_whitespace c : isDigit c = true -> isWhiteSpace c = false.
Proof. destruct c as [[] [] [] [] [] [] [] []]; vm_compute; congruence. Qed.

Lemma digits_no_whitespace ds :
  allChars isDigit ds = true -> existsChar isWhiteSpace ds = false.
Proof.
  induction ds as [|c ds IH]; simpl; [reflexivity|].
  intros Hd. apply andb_true_iff in Hd as [Hc Hds].
  rewrite (isDigit_not_whitespace c Hc), (IH Hds). reflexivity.
Qed.

Lemma existsChar_app f (a b : string) :
  existsChar f (a ++ b)%string = (existsChar f a || existsChar f b)%bool.
Proof.
  induction a as [|c a IH]; simpl; [reflexivity|].
  rewrite IH. apply orb_assoc.
Qed.

Lemma trimEnd_no_whitespace s : existsChar isWhiteSpace s = false -> trimEnd s = s.
Proof.
  induction s as [|c r IH]; simpl; [reflexivity|].
  intros Hs. apply orb_false_iff in Hs as [Hc Hr].
  rewrite (IH Hr), Hc. destruct r; reflexivity.
Qed.

Lemma trim_no_whitespace s : existsChar isWhiteSpace s = false -> trim s = s.
Proof.
  intros Hs. unfold trim.
  assert (trimStart s = s) as ->.
  { destruct s as [|c r]; [reflexivity|]. simpl in *.
    apply orb_false_iff in Hs as [-> _]. reflexivity. }
  apply trimEnd_no_whitespace. exact Hs.
Qed.

(** A text of the unsigned numeric grammar is a run of digits, maybe
    followed by a point and a run of digits, and [scanUnsigned] reads it
    whole as that decimal numeral. *)
Lemma isUnsignedNumeric_shape neg r0 :
  isUnsignedNumeric r0 = true ->
  exists i ip fp,
    r0 = decimalText false (String i ip) fp /\
    isDigit i = true /\ allChars isDigit ip = true /\ allChars isDigit fp = true /\
    scanUnsigned neg r0 = Some (ofDecimal neg (String i ip) fp 0, EmptyString).
Proof.
  unfold isUnsignedNumeric, scanUnsigned. intros Hn.
  destruct (takeDigits r0) as [ip0 r1] eqn:E.
  destruct (takeDigits_spec _ _ _ E) as [Hr0 Hip].
  destruct ip0 as [|i ip]; [discriminate|].
  simpl in Hip. apply andb_true_iff in Hip as [Hi Hip].
  assert (Hinf : startsWith r0 "Infinity" = false).
  { rewrite Hr0. apply startsWith_other_head. intros <-. discriminate. }
  rewrite Hinf.
  destruct r1 as [|c1 r2].
  - exists i, ip, EmptyString. unfold decimalText. simpl.
    rewrite Hr0. simpl. rewrite append_empty. auto.
  - destruct (Ascii.eqb c1 ".") eqn:Ec1.
    + apply Ascii.eqb_eq in Ec1 as ->.
      destruct (takeDigits r2) as [fp r3] eqn:E2.
      destruct (takeDigits_spec _ _ _ E2) as [Hr2 Hfp].
      destruct fp as [|f0 fp]; [discriminate|].
      destruct r3; [|discriminate].
      exists i, ip, (String f0 fp). unfold decimalText.
      rewrite Hr0, Hr2, append_empty. simpl. auto.
    + destruct c1 as [[] [] [] [] [] [] [] []]; try discriminate.
Qed.

(** A text of the numeric grammar holds no white space, starts with a minus
    sign or a digit, and is read by [parseFloat] as the decimal numeral it
    is: the number nearest to it. *)
Lemma isNumericLiteral_shape t :
  isNumericLiteral t = true ->
  existsChar isWhiteSpace t = false /\
  (exists c r, t = String c r /\ (c = "-"%char \/ isDigit c = true)) /\
  exists neg ip fp,
    t = decimalText neg ip fp /\
    allChars isDigit ip = true /\ allChars isDigit fp = true /\
    parseFloat t = ofDecimal neg ip fp 0.
Proof.
  unfold isNumericLiteral. intros Hn.
  assert (Hws : forall i ip fp,
             isDigit i = true -> allChars isDigit ip = true ->
             allChars isDigit fp = true ->
             existsChar isWhiteSpace (decimalText false (String i ip) fp) = false).
  { intros i ip fp Hi Hip Hfp. unfold decimalText. simpl.
    rewrite (isDigit_not_whitespace i Hi), existsChar_app, (digits_no_whitespace ip Hip).
    destruct fp as [|f0 fp]; [reflexivity|].
    change ("." ++ String f0 fp)%string with (String "." (String f0 fp)).
    cbn [existsChar orb]. change (isWhiteSpace ".") with false.
    pose proof (digits_no_whitespace _ Hfp) as Hx. cbn [existsChar] in Hx.
    rewrite Hx. reflexivity. }
  destruct t as [|c t']; [discriminate|].
  destruct (Ascii.eqb c "-") eqn:Ec.
  - apply Ascii.eqb_eq in Ec as ->.
    destruct (isUnsignedNumeric_shape true t' Hn)
      as (i & ip & fp & Ht' & Hi & Hip & Hfp & Hscan).
    split; [|split].
    + simpl. rewrite Ht'. apply Hws; assumption.
    + eauto.
    + exists true, (String i ip), fp. split; [|split; [|split]].
      * rewrite Ht'. reflexivity.
      * simpl. rewrite Hi, Hip. reflexivity.
      * exact Hfp.
      * unfold parseFloat, scanDecimal. simpl. rewrite Hscan. reflexivity.
  - assert (Hn' : isUnsignedNumeric (String c t') = true).
    { destruct c as [[] [] [] [] [] [] [] []]; try discriminate; exact Hn. }
    destruct (isUnsignedNumeric_shape false _ Hn')
      as (i & ip & fp & Ht & Hi & Hip & Hfp & Hscan).
    assert (Hci : c = i).
    { change (String c t' =
              String i (ip ++ match fp with
                              | EmptyString => EmptyString
                              | _ => "." ++ fp
                              end)%string) in Ht.
      congruence. }
    subst i.
    split; [|split].
    + rewrite Ht. apply Hws; assumption.
    + eauto.
    + exists false, (String c ip), fp. split; [|split; [|split]].
      * exact Ht.
      * simpl. rewrite Hi, Hip. reflexivity.
      * exact Hfp.
      * unfold parseFloat, scanDecimal.
        assert (trimStart (String c t') = String c t') as ->
            by (simpl; rewrite (isDigit_not_whitespace c Hi); reflexivity).
        assert (scanSign (String c t') = (false, String c t')) as ->.
        { destruct c as [[] [] [] [] [] [] [] []]; try discriminate; reflexivity. }
        rewrite Hscan. reflexivity.
Qed.

(** C9.  A literal text parses to the expression that evaluates, in every
    environment, to the value it denotes: a text of the numeric grammar to
    the number [parseFloat] reads from it, which is the number nearest to
    the decimal numeral the text is, [-12.5] being minus twenty-five halves;
    [true] and [false] to the booleans; [null] to [null]. *)
Theorem literal_round_trip :
  (forall t (w : World D),
      isNumericLiteral t = true ->
      parseExpression t = ELiteral (VNumber (parseFloat t)) /\
      evaluateExpression (parseExpression t) w = (Returned (VNumber (parseFloat t)), w) /\
      exists neg ip fp,
        t = decimalText neg ip fp /\
        allChars isDigit ip = true /\ allChars isDigit fp = true /\
        parseFloat t = ofDecimal neg ip fp 0) /\
  parseFloat "-12.5" = ofRatio true 25 2 /\
  (forall w : World D,
      evaluateExpression (parseExpression "-12.5") w
      = (Returned (VNumber (ofRatio true 25 2)), w) /\
      evaluateExpression (parseExpression "true") w = (Returned (VBool true), w) /\
      evaluateExpression (parseExpression "false") w = (Returned (VBool false), w) /\
      evaluateExpression (parseExpression "null") w = (Returned VNull, w)).
Proof.
  split; [|split; [vm_compute; reflexivity | intros w; repeat split; reflexivity]].
  intros t w Hn.
  destruct (isNumericLiteral_shape t Hn) as (Hws & (c & r & Ht & Hc) & Hdec).
  assert (Hparse : parseExpression t = ELiteral (VNumber (parseFloat t))).
  { rewrite parseExpression_unfold. cbv zeta.
    rewrite (trim_no_whitespace _ Hws), Ht.
    rewrite !startsWith_other_head; [rewrite <- Ht, Hn; reflexivity|..];
      intros <-; destruct Hc as [Hc|Hc]; discriminate. }
  split; [exact Hparse|]. split; [rewrite Hparse; reflexivity | exact Hdec].
Qed.

End LiteralProperties.

(** * Examples *)

Section Examples.
Local Existing Instance exampleBuiltins.
Local Existing Instance exampleExecutor.

(** C1, the claim as stated fails: a SELECT with no argument and no
    [LIMIT 1] evaluates to an error object, not to an array, when no
    database is configured (nothing executes then) and when the engine
    throws, here on a table it does not know. *)
Lemma select_without_database :
  startsWith (toUpperCase (trim "SELECT * FROM users")) "SELECT" = true /\
  includes "SELECT * FROM users" "LIMIT 1" = false /\
  evaluateExpression (ESql "SELECT * FROM users" [])
    {| ctx := emptyContext; db := @None (list Row) |}
  = (Returned (VObject [("error", VString "Database not configured")]),
     {| ctx := emptyContext; db := None |}) /\
  startsWith (toUpperCase (trim "SELECT * FROM missing")) "SELECT" = true /\
  includes "SELECT * FROM missing" "LIMIT 1" = false /\
  evaluateExpression (ESql "SELECT * FROM missing" []) exampleWorld
  = (Returned (VObject [("error", VString "no such table: missing")]), exampleWorld).
Proof. repeat split. Qed.

(** C1, as amended, on the two users: one argument fetches one row. *)
Lemma evaluateSql_select_example :
  startsWith (toUpperCase (trim "select * from users where id = ?")) "SELECT" = true /\
  db exampleWorld <> None /\
  mapM evaluateExpression [ELiteral (VNumber (ofZ 1))] exampleWorld
  = (Returned [VNumber (ofZ 1)], exampleWorld) /\
  prepare "select * from users where id = ?" exampleUsers
  = Returned "select * from users where id = ?" /\
  (includes "select * from users where id = ?" "LIMIT 1"
   || Nat.eqb (length [ELiteral (VNumber (ofZ 1))]) 1)%bool = true /\
  stmt_get "select * from users where id = ?" [VNumber (ofZ 1)] exampleUsers
  = (Returned (head exampleUsers), exampleUsers) /\
  evaluateExpression
    (ESql "select * from users where id = ?" [ELiteral (VNumber (ofZ 1))]) exampleWorld
  = (Returned (VObject [("id", VNumber (ofZ 1)); ("name", VString "Alice")]),
     exampleWorld).
Proof.
  split; [reflexivity|]. split; [discriminate|].
  split; [reflexivity|]. split; [reflexivity|].
  split; [reflexivity|]. split; [reflexivity|].
  exact (proj1 (evaluateSql_select
                  "select * from users where id = ?" [ELiteral (VNumber (ofZ 1))]
                  exampleWorld [VNumber (ofZ 1)] exampleWorld exampleUsers
                  "select * from users where id = ?"
                  eq_refl ltac:(discriminate) eq_refl eq_refl eq_refl)
           (head exampleUsers) exampleUsers eq_refl eq_refl).
Defined.

(** The same statement without arguments fetches all rows. *)
Lemma evaluateSql_select_all_example :
  evaluateExpression (ESql "SELECT * FROM users" []) exampleWorld
  = (Returned (VArray (map VObject exampleUsers)), exampleWorld).
Proof. reflexivity. Qed.

(** C2 on an insertion the engine rejects when it runs it. *)
Lemma evaluateSql_catches_example :
  exists d2,
    evaluateExpression
      (ESql "INSERT INTO users (id) VALUES (?) -- UNIQUE" [ELiteral (VNumber (ofZ 1))])
      exampleWorld
    = (Returned (VObject [("error", VString "UNIQUE constraint failed")]),
       {| ctx := ctx exampleWorld; db := Some d2 |}).
Proof.
  apply (@evaluateSql_catches _ exampleExecutor exampleBuiltins
           "INSERT INTO users (id) VALUES (?) -- UNIQUE" [ELiteral (VNumber (ofZ 1))]
           exampleWorld [VNumber (ofZ 1)] exampleWorld exampleUsers
           (ThrownError "UNIQUE constraint failed") eq_refl eq_refl).
  right. exists "INSERT INTO users (id) VALUES (?) -- UNIQUE". split; reflexivity.
Defined.

(** And on a statement the engine refuses to prepare. *)
Lemma evaluateSql_catches_prepare_example :
  evaluateExpression (ESql "SELECT * FROM missing" []) exampleWorld
  = (Returned (VObject [("error", VString "no such table: missing")]), exampleWorld).
Proof. reflexivity. Qed.

(** C4: [extractFunctionContent] counts a parenthesis inside a quoted run.
    On [if(--x: ')'; else: 'no')] it stops at the quoted [)], where the
    matching parenthesis is the last character; the parsed conditional has
    lost its else branch. *)
Lemma extractFunctionContent_counts_quoted_parenthesis :
  extractFunctionContent "if(--x: ')'; else: 'no')" "if" = "--x: '" /\
  extractFunctionContent "if(--x: ')'; else: 'no')" "if" <> "--x: ')'; else: 'no'" /\
  parseExpression "if(--x: ')'; else: 'no')"
  = EIf [(CTruthy "x", ELiteral (VString EmptyString))] None /\
  extractFunctionContent "html('<p>:)</p>')" "html" = "'<p>:" /\
  parseReturnAtRule "html('<p>:)</p>')"
  = {| rv_type := ReturnHtml; rv_value := ELiteral (VString "<p>:") |}.
Proof. repeat split. discriminate. Qed.

(** The scanners of the branches do skip quoted runs: a semicolon or a
    colon between quotes separates nothing. *)
Lemma scanners_skip_quoted_runs :
  splitIfBranches "--x: ';'; else: 1" = ["--x: ';'"; " else: 1"] /\
  findColonInBranch "'a:b' : 1" = 6 /\
  splitFunctionArgs "'a,b', var(--c)" = ["'a,b'"; "var(--c)"].
Proof. repeat split. Qed.

(** C5, the claim as stated fails: of two [else:] parts the second one
    gives the else expression. *)
Lemma first_else_is_overwritten :
  splitIfBranches (extractFunctionContent "if(--x: 1; else: 2; else: 3)" "if")
  = ["--x: 1"; " else: 2"; " else: 3"] /\
  parseExpression "if(--x: 1; else: 2; else: 3)"
  = EIf [(CTruthy "x", ELiteral (VNumber (ofZ 1)))] (Some (ELiteral (VNumber (ofZ 3)))) /\
  ~ (exists branches,
        parseExpression "if(--x: 1; else: 2; else: 3)"
        = EIf branches (Some (parseExpression (trim (sliceFrom (trim " else: 2") 5))))).
Proof.
  split; [reflexivity|]. split; [reflexivity|].
  intros [branches E]. vm_compute in E. discriminate.
Qed.

(** C5, as amended, on the same text. *)
Lemma parseIf_last_else_example :
  startsWith (trim "if(--x: 1; else: 2; else: 3)") "if(" = true /\
  splitIfBranches (extractFunctionContent (trim "if(--x: 1; else: 2; else: 3)") "if")
  = (["--x: 1"; " else: 2"] ++ " else: 3" :: [])%list /\
  startsWith (trim " else: 3") "else:" = true /\
  exists branches,
    parseExpression "if(--x: 1; else: 2; else: 3)"
    = EIf branches (Some (parseExpression (trim (sliceFrom (trim " else: 3") 5)))).
Proof.
  split; [reflexivity|]. split; [reflexivity|]. split; [reflexivity|].
  apply (parseIf_last_else "if(--x: 1; else: 2; else: 3)"
           ["--x: 1"; " else: 2"] " else: 3" []);
    [reflexivity | reflexivity | reflexivity | constructor].
Defined.

(** C3 on the branches [(C1, V1); (C2, V2)] with [C1] false and [C2] true:
    the result is the value of [V2], not that of [V1] or of the else
    expression. *)
Lemma evaluateIf_second_branch_example :
  evaluateExpression
    (EIf [(CTruthy "other", ELiteral (VString "V1")); (CTruthy "name", EVar "name")]
         (Some (ELiteral (VString "else")))) truthyWorld
  = (Returned (VString "Ada"), truthyWorld) /\
  evaluateExpression
    (EIf [(CTruthy "other", ELiteral (VString "V1")); (CTruthy "count", EVar "name")] None)
    truthyWorld
  = (Returned VNull, truthyWorld).
Proof. split; reflexivity. Qed.





(** What the handler of [userRoute] emits. *)
Lemma userRoute_response :
  fst (createHandler userRoute userRequest blankResponse (Some exampleUsers))
  = Returned {| statusCode := None;
                emitted := Some (EmitJson (VObject [("id", VNumber (ofZ 1));
                                                    ("name", VString "Alice")])) |}.
Proof. reflexivity. Qed.

(** An assignment does not see a binding declared after it. *)
Lemma earlier_assignment_misses_later_binding :
  fst (createHandler
         {| route_path := "/"; route_method := "GET";
            route_variables := [ {| va_name := "a"; va_value := EVar "b" |};
                                 {| va_name := "b"; va_value := ELiteral (VNumber (ofZ 1)) |};
                                 {| va_name := "c"; va_value := EVar "b" |} ];
            route_status := None;
            route_return := {| rv_type := ReturnJson;
                               rv_value := ELiteral VNull |} |}
         userRequest blankResponse (@None (list Row)))
  = Returned {| statusCode := None; emitted := Some (EmitJson VNull) |} /\
  variables (ctx (snd (createHandler
         {| route_path := "/"; route_method := "GET";
            route_variables := [ {| va_name := "a"; va_value := EVar "b" |};
                                 {| va_name := "b"; va_value := ELiteral (VNumber (ofZ 1)) |};
                                 {| va_name := "c"; va_value := EVar "b" |} ];
            route_status := None;
            route_return := {| rv_type := ReturnJson;
                               rv_value := ELiteral VNull |} |}
         userRequest blankResponse (@None (list Row)))))
  = <["c" := VNumber (ofZ 1)]> (<["b" := VNumber (ofZ 1)]> (<["a" := VUndefined]> ∅)).
Proof. split; reflexivity. Qed.



(** The statuses of [adminRoute] with and without the header, and a status
    that is not a number. *)
Lemma adminRoute_statuses :
  statusCode <$> outcomeValue (fst (createHandler adminRoute adminRequest blankResponse
                                      (@None (list Row))))
  = Some (Some (ofZ 200)) /\
  statusCode <$> outcomeValue (fst (createHandler adminRoute userRequest blankResponse
                                      (@None (list Row))))
  = Some (Some (ofZ 403)) /\
  statusCode <$> outcomeValue
    (fst (createHandler
            {| route_path := "/"; route_method := "GET"; route_variables := [];
               route_status := Some (StatusVar (EVar "unbound"));
               route_return := {| rv_type := ReturnJson; rv_value := ELiteral VNull |} |}
            userRequest blankResponse (@None (list Row))))
  = Some None.
Proof. repeat split. Qed.

(** C9 on a text with a fraction that no binary number equals. *)
Lemma literal_round_trip_example :
  isNumericLiteral "0.1" = true /\
  parseExpression "0.1" = ELiteral (VNumber (S754_finite false 7205759403792794 (-56))) /\
  evaluateExpression (parseExpression "0.1") exampleWorld
  = (Returned (VNumber (S754_finite false 7205759403792794 (-56))), exampleWorld).
Proof.
  split; [reflexivity|].
  pose proof (proj1 literal_round_trip "0.1" exampleWorld eq_refl) as [Hp [He _]].
  exact (conj Hp He).
Defined.

(** The expressions of the repository's parser tests
    ([tests/parser.test.ts]), parsed by the model. *)
Lemma parser_tests_functions :
  parseExpression "param(:id)" = EParam "id" /\
  parseExpression "query(q)" = EQuery "q" /\
  parseExpression "body(name)" = EBody "name" /\
  parseExpression "header(x-user-role)" = EHeader "x-user-role" /\
  parseExpression "var(--x)" = EVar "x" /\
  parseExpression ("sql(" ++ quoted "SELECT * FROM users" ++ ")")
  = ESql "SELECT * FROM users" [] /\
  parseExpression ("sql(" ++ quoted "SELECT * FROM users WHERE id = ?" ++ ", var(--id))")
  = ESql "SELECT * FROM users WHERE id = ?" [EVar "id"] /\
  parseExpression ("sql(" ++ quoted "INSERT INTO users (name, email) VALUES (?, ?)"
                     ++ ", var(--name), var(--email))")
  = ESql "INSERT INTO users (name, email) VALUES (?, ?)" [EVar "name"; EVar "email"].
Proof. repeat split. Qed.

Lemma parser_tests_conditionals :
  parseExpression ("if(--x: " ++ quoted "yes" ++ "; else: " ++ quoted "no" ++ ")")
  = EIf [(CTruthy "x", ELiteral (VString "yes"))] (Some (ELiteral (VString "no"))) /\
  parseExpression ("if(--role = admin: " ++ quoted "granted" ++ "; else: "
                     ++ quoted "denied" ++ ")")
  = EIf [(CEquals "role" (CmpString "admin"), ELiteral (VString "granted"))]
        (Some (ELiteral (VString "denied"))) /\
  parseExpression ageConditional
  = EIf [(CGreaterThan "age" (CmpNumber (ofZ 18)), ELiteral (VString "adult"));
         (CLessThan "age" (CmpNumber (ofZ 13)), ELiteral (VString "child"))]
        (Some (ELiteral (VString "teen"))) /\
  parseCondition "--status != banned" = CNotEquals "status" (CmpString "banned") /\
  parseCondition "--age >= 18" = CGreaterOrEqual "age" (CmpNumber (ofZ 18)) /\
  parseCondition "--a and --b" = CAnd [CTruthy "a"; CTruthy "b"] /\
  parseCondition "--a or --b" = COr [CTruthy "a"; CTruthy "b"] /\
  parseCondition "not --flag" = CNot (CTruthy "flag") /\
  parseExpression "if(--role = admin: 200; else: 403)"
  = EIf [(CEquals "role" (CmpString "admin"), ELiteral (VNumber (ofZ 200)))]
        (Some (ELiteral (VNumber (ofZ 403)))).
Proof. repeat split. Qed.

Lemma parser_tests_literals :
  parseExpression "-12.5" = ELiteral (VNumber (ofRatio true 25 2)) /\
  parseExpression "true" = ELiteral (VBool true) /\
  parseExpression "false" = ELiteral (VBool false) /\
  parseExpression "404" = ELiteral (VNumber (ofZ 404)) /\
  parseExpression (quoted "<h1>Hello</h1>") = ELiteral (VString "<h1>Hello</h1>").
Proof. repeat split. Qed.

(** The header test of [tests/evaluator.test.ts]: the name is folded to
    lower case before the lookup. *)
Lemma evaluator_test_header :
  evaluateExpression (EHeader "X-User-Role")
    {| ctx := {| params := ∅; query := ∅; body := ∅;
                 headers := {[ "x-user-role" := "admin" ]}; variables := ∅ |};
       db := @None (list Row) |}
  = (Returned (VString "admin"),
     {| ctx := {| params := ∅; query := ∅; body := ∅;
                  headers := {[ "x-user-role" := "admin" ]}; variables := ∅ |};
        db := None |}).
Proof. reflexivity. Qed.

End Examples.

(** * Further properties *)

(** ** More of the evaluator *)

Section MoreEvaluator.
Context {D : Type} {engine : Executor D} {host : Builtins}.
Local Open Scope eval_scope.

Lemma mapM_pure {A B} (f : A -> Eval D B) (l : list A) (w : World D) :
  Forall (fun x => exists r, f x w = (r, w)) l ->
  exists rs, mapM f l w = (rs, w).
Proof.
  induction 1 as [|x l [r Hx] _ [rs IH]]; simpl.
  - exists (Returned []). reflexivity.
  - unfold bind at 1. rewrite Hx. destruct r as [y|e]; [|eauto].
    unfold bind at 1. rewrite IH. destruct rs as [ys|e]; unfold ret; eauto.
Qed.

(** Without a query to run, an evaluation changes nothing, whether it
    returns or throws. *)
Lemma evaluateExpression_pure expr (w : World D) :
  db w = None \/ usesSql expr = false ->
  exists r, evaluateExpression expr w = (r, w).
Proof.
  induction expr as [v|n|n|n|n|n|q args IH|branches elseValue IHb IHe|v|s|parts IH]
    using Expression_nested_ind; intros Hw;
    try (simpl; unfold bind, getCtx, ret; eauto; fail).
  - destruct Hw as [Hw|Hw]; [|discriminate].
    simpl. unfold evaluateSql. rewrite Hw. eauto.
  - assert (Hb : Forall (fun b => exists r, evaluateExpression (snd b) w = (r, w))
                   branches).
    { destruct Hw as [Hw|Hw].
      - eapply Forall_impl; [exact IHb|]. simpl. auto.
      - simpl in Hw. apply orb_false_iff in Hw as [Hw _].
        induction IHb as [|b bs Hb _ IH']; constructor.
        + apply Hb. right. simpl in Hw. apply orb_false_iff in Hw. tauto.
        + apply IH'. simpl in Hw. apply orb_false_iff in Hw. tauto. }
    assert (He : forall e, elseValue = Some e ->
                           exists r, evaluateExpression e w = (r, w)).
    { intros e ->. apply (IHe e eq_refl). destruct Hw as [Hw|Hw]; [auto|].
      simpl in Hw. apply orb_false_iff in Hw. tauto. }
    simpl. unfold evaluateIf. clear IHb IHe Hw.
    induction Hb as [|[c v] bs Hv _ IH'].
    + destruct elseValue as [e|]; [apply He; reflexivity | unfold ret; eauto].
    + unfold bind at 1. rewrite evaluateCondition_holds.
      destruct (holds w c); [exact Hv | exact IH'].
  - assert (Hp : Forall (fun e => exists r, evaluateExpression e w = (r, w)) parts).
    { destruct Hw as [Hw|Hw].
      - eapply Forall_impl; [exact IH|]. simpl. auto.
      - simpl in Hw. induction IH as [|e es He _ IH']; constructor.
        + apply He. right. simpl in Hw. apply orb_false_iff in Hw. tauto.
        + apply IH'. simpl in Hw. apply orb_false_iff in Hw. tauto. }
    destruct (mapM_pure evaluateExpression parts w Hp) as [rs E].
    simpl. unfold bind at 1. rewrite E. destruct rs as [values|e]; [|eauto].
    unfold bind, lift, ret. destruct (joinValues EmptyString values); eauto.
Qed.

(** What a record inherits is never a number. *)
Lemma objectPrototypeMember_not_number key :
  isNumber (objectPrototypeMember key) = None.
Proof.
  unfold objectPrototypeMember.
  repeat match goal with |- context [if ?b then _ else _] => destruct b end; reflexivity.
Qed.

(** X1.  An expression that holds no query, and any expression when no
    database is configured, leaves the context and the database handle
    exactly as they were, whether its evaluation returns or throws.  It
    returns a value when the expression holds no [concat]; what it throws
    otherwise is the error of a text conversion that failed. *)
Theorem evaluation_is_pure_without_sql expr (w : World D) :
  db w = None \/ usesSql expr = false ->
  exists r,
    evaluateExpression expr w = (r, w) /\
    (usesConcat expr = false -> exists v, r = Returned v) /\
    (forall e, r = Threw e -> e = conversionError).
Proof.
  intros Hw. destruct (evaluateExpression_pure expr w Hw) as [r E].
  exists r. split; [exact E|]. split.
  - intros Hc. destruct (settles_evaluateExpression expr Hc w) as (v & w' & E' & _).
    exists v. congruence.
  - intros e ->. exact (throwsConversion_evaluateExpression expr _ _ _ E).
Qed.

(** X2.  A statement that does not start with SELECT, on a database that
    prepares and runs it: an INSERT evaluates to the inserted row id and the
    number of changes under [id] and [changes], an UPDATE or a DELETE to the
    number of changes alone, and any other statement to the engine's own
    result, [changes] and [lastInsertRowid]; the database is left as the run
    left it and the context as it was. *)
Theorem evaluateSql_write query args (w : World D) evaluatedArgs w1 d1 stmt result d2 :
  startsWith (toUpperCase (trim query)) "SELECT" = false ->
  db w <> None ->
  mapM evaluateExpression args w = (Returned evaluatedArgs, w1) ->
  db w1 = Some d1 ->
  prepare query d1 = Returned stmt ->
  stmt_run stmt evaluatedArgs d1 = (Returned result, d2) ->
  evaluateExpression (ESql query args) w =
  (Returned
     (if startsWith (toUpperCase (trim query)) "INSERT" then
        VObject [("id", VNumber (lastInsertRowid result));
                 ("changes", VNumber (changes result))]
      else if (startsWith (toUpperCase (trim query)) "UPDATE"
               || startsWith (toUpperCase (trim query)) "DELETE")%bool then
        VObject [("changes", VNumber (changes result))]
      else
        VObject [("changes", VNumber (changes result));
                 ("lastInsertRowid", VNumber (lastInsertRowid result))]),
   {| ctx := ctx w; db := Some d2 |}).
Proof.
  intros Hsel Hd Hargs Hd1 Hp Hrun.
  assert (Hctx : ctx w1 = ctx w).
  { exact (proj1 (framed_result _ _ _ _ (framed_arguments args) Hargs)). }
  rewrite (evaluateSql_configured query args w evaluatedArgs w1 Hd Hargs).
  unfold tryCatch, executeSql.
  assert (Hprep : dbPrepare query w1 = (Returned stmt, w1))
    by (rewrite (dbPrepare_configured query w1 d1 Hd1), Hp; reflexivity).
  rewrite (bind_returned _ _ _ _ _ Hprep), Hsel.
  pose proof (onDatabase_configured _ w1 d1 _ d2 Hd1 Hrun) as Hcall.
  destruct (startsWith (toUpperCase (trim query)) "INSERT");
    [|destruct (startsWith (toUpperCase (trim query)) "UPDATE"
                || startsWith (toUpperCase (trim query)) "DELETE")%bool];
    rewrite (bind_returned _ _ _ _ _ Hcall); unfold ret; rewrite Hctx; reflexivity.
Qed.

(** X3.  [and] holds when every condition of its list holds, [or] when one
    of them does, and [not] when its condition does not; so the empty [and]
    holds and the empty [or] does not. *)
Theorem conditions_are_connectives (w : World D) :
  (forall conditions, holds w (CAnd conditions) = forallb (holds w) conditions) /\
  (forall conditions, holds w (COr conditions) = existsb (holds w) conditions) /\
  (forall condition, holds w (CNot condition) = negb (holds w condition)).
Proof.
  split; [|split].
  - intros cs. unfold holds at 1. simpl.
    induction cs as [|c cs IH]; [reflexivity|].
    unfold bind at 1. rewrite evaluateCondition_holds. simpl.
    destruct (holds w c); [exact IH | reflexivity].
  - intros cs. unfold holds at 1. simpl.
    induction cs as [|c cs IH]; [reflexivity|].
    unfold bind at 1. rewrite evaluateCondition_holds. simpl.
    destruct (holds w c); [reflexivity | exact IH].
  - intros c. unfold holds at 1. simpl. unfold bind.
    rewrite evaluateCondition_holds. reflexivity.
Qed.

(** X4.  A variable assigned from [param], [query] or [header] never holds
    a number, since the request's records hold text: whatever the request,
    the four order comparisons on it are false for every comparand, and it
    is equal to no number comparand. *)
Theorem request_text_is_not_a_number name source (w : World D) :
  (exists p, source = EParam p \/ source = EQuery p \/ source = EHeader p) ->
  exists w',
    assign {| va_name := name; va_value := source |} w = (Returned tt, w') /\
    (forall c,
        holds w' (CGreaterThan name c) = false /\ holds w' (CLessThan name c) = false /\
        holds w' (CGreaterOrEqual name c) = false /\ holds w' (CLessOrEqual name c) = false) /\
    (forall n,
        holds w' (CEquals name (CmpNumber n)) = false /\
        holds w' (CNotEquals name (CmpNumber n)) = true).
Proof.
  intros (p & Hsource).
  assert (Hv : exists v, evaluateExpression source w = (Returned v, w) /\
                         isNumber v = None).
  { destruct Hsource as [->|[->| ->]]; simpl; unfold bind, getCtx, ret, lookupString;
      match goal with |- context [?m !! ?k] => destruct (m !! k) end;
      eauto using objectPrototypeMember_not_number. }
  destruct Hv as (v & Ev & Hv).
  exists (snd (bindVariable name v w)). split.
  { unfold assign. cbn [va_value va_name]. rewrite (bind_returned _ _ _ _ _ Ev). reflexivity. }
  assert (Hl : isNumber (lookupValue (variables (ctx (snd (bindVariable name v w)))) name)
               = None).
  { unfold bindVariable. cbn [snd ctx variables]. unfold lookupValue, setValue.
    destruct (variables (ctx w) !! name) eqn:E.
    - rewrite lookup_insert_eq. exact Hv.
    - destruct (String.eqb name "__proto__").
      + rewrite E. apply objectPrototypeMember_not_number.
      + rewrite lookup_insert_eq. exact Hv. }
  unfold holds. cbn [evaluateCondition]. unfold readVariable, bind, getCtx, ret.
  destruct (lookupValue (variables (ctx (snd (bindVariable name v w)))) name);
    try discriminate Hl; repeat split.
Qed.

End MoreEvaluator.

(** ** The records of a request *)

Section NormalizeFacts.

(** A fold of insertions: the last entry of a key decides, and a key no
    entry has is left as it was. *)
Lemma fold_insert_last {E V} (keyOf : E -> string)
    (textOf : E -> V) entries (m : gmap string V) pre e post :
  entries = (pre ++ e :: post)%list ->
  Forall (fun e' => keyOf e' <> keyOf e) post ->
  fold_left (fun acc e' => <[keyOf e' := textOf e']> acc) entries m !! keyOf e
  = Some (textOf e).
Proof.
  intros -> Hpost. rewrite fold_left_app. simpl.
  generalize (fold_left (fun acc e' => <[keyOf e' := textOf e']> acc) pre m). intros m0.
  assert (H0 : <[keyOf e := textOf e]> m0 !! keyOf e = Some (textOf e))
    by apply lookup_insert_eq.
  revert H0. generalize (<[keyOf e := textOf e]> m0).
  induction Hpost as [|e' post Hne _ IH]; intros m1 H1; simpl; [exact H1|].
  apply IH. rewrite lookup_insert_ne by exact Hne. exact H1.
Qed.

Lemma fold_insert_missing {E V} (keyOf : E -> string)
    (textOf : E -> V) entries (m : gmap string V) k :
  Forall (fun e' => keyOf e' <> k) entries ->
  fold_left (fun acc e' => <[keyOf e' := textOf e']> acc) entries m !! k = m !! k.
Proof.
  intros H. revert m. induction H as [|e' post Hne _ IH]; intros m; simpl; [reflexivity|].
  rewrite IH. apply lookup_insert_ne. exact Hne.
Qed.

(** The same for a fold of [setString], under a key other than
    [__proto__]. *)
Lemma setString_lookup_ne key k text (m : gmap string string) :
  key <> k -> setString key text m !! k = m !! k.
Proof.
  intros H. unfold setString. destruct (String.eqb key "__proto__"); [reflexivity|].
  apply lookup_insert_ne. exact H.
Qed.

Lemma fold_setString_last {E} (keyOf : E -> string)
    (textOf : E -> string) entries (m : gmap string string) pre e post :
  entries = (pre ++ e :: post)%list ->
  Forall (fun e' => keyOf e' <> keyOf e) post ->
  keyOf e <> "__proto__" ->
  fold_left (fun acc e' => setString (keyOf e') (textOf e') acc) entries m !! keyOf e
  = Some (textOf e).
Proof.
  intros -> Hpost Hkey. rewrite fold_left_app. simpl.
  generalize (fold_left (fun acc e' => setString (keyOf e') (textOf e') acc) pre m).
  intros m0.
  assert (H0 : setString (keyOf e) (textOf e) m0 !! keyOf e = Some (textOf e)).
  { unfold setString. destruct (String.eqb_spec (keyOf e) "__proto__"); [contradiction|].
    apply lookup_insert_eq. }
  revert H0. generalize (setString (keyOf e) (textOf e) m0).
  induction Hpost as [|e' post Hne _ IH]; intros m1 H1; simpl; [exact H1|].
  apply IH. rewrite setString_lookup_ne by exact Hne. exact H1.
Qed.

Lemma fold_setString_missing {E} (keyOf : E -> string)
    (textOf : E -> string) entries (m : gmap string string) k :
  Forall (fun e' => keyOf e' <> k) entries ->
  fold_left (fun acc e' => setString (keyOf e') (textOf e') acc) entries m !! k = m !! k.
Proof.
  intros H. revert m. induction H as [|e' post Hne _ IH]; intros m; simpl; [reflexivity|].
  rewrite IH. apply setString_lookup_ne. exact Hne.
Qed.

Lemma normalizeQuery_fold entries :
  normalizeQuery entries =
  fold_left (fun acc e => setString (fst e) (queryText (snd e)) acc) entries ∅.
Proof.
  unfold normalizeQuery. generalize (∅ : gmap string string).
  induction entries as [|[k v] entries IH]; intros m; simpl; [reflexivity|].
  rewrite <- IH. destruct v; reflexivity.
Qed.

Lemma normalizeParams_fold entries :
  normalizeParams entries =
  fold_left (fun acc e => setString (fst e) (rawString (snd e)) acc) entries ∅.
Proof.
  unfold normalizeParams. generalize (∅ : gmap string string).
  induction entries as [|[k v] entries IH]; intros m; simpl; [reflexivity|].
  rewrite <- IH. destruct v; reflexivity.
Qed.

Lemma normalizeHeaders_fold entries :
  normalizeHeaders entries =
  fold_left (fun acc e => setString (toLowerCase (fst e)) (queryText (snd e)) acc) entries ∅.
Proof.
  unfold normalizeHeaders. generalize (∅ : gmap string string).
  induction entries as [|[k v] entries IH]; intros m; simpl; [reflexivity|].
  rewrite <- IH. destruct v; reflexivity.
Qed.

Lemma normalizeBody_fold fields :
  normalizeBody (VObject fields) =
  fold_left (fun acc e => <[fst e := snd e]> acc) fields ∅.
Proof.
  unfold normalizeBody. generalize (∅ : gmap string Value).
  induction fields as [|[k v] fields IH]; intros m; simpl; [reflexivity|].
  rewrite <- IH. reflexivity.
Qed.

End NormalizeFacts.

(** ** More of the handler *)

Section MoreCompiler.
Context {D : Type} {engine : Executor D} {host : Builtins}.
Local Open Scope eval_scope.

(** X5.  An entry of the request's parameters, query or headers that no
    later entry of the same key overrides is read back as text: a list as
    its items joined by commas, a string as itself, and [undefined] as the
    empty text in the query and the headers but as the text [undefined] in
    the parameters.  A header is found under its name in any letter case.
    (The key [__proto__] is left out: writing it to a plain object does not
    make an entry.) *)
Theorem request_inputs_are_strings req (d : option D) pre key value post :
  let w := {| ctx := freshContext req; db := d |} in
  (req_params req = (pre ++ (key, value) :: post)%list ->
   Forall (fun e => fst e <> key) post -> key <> "__proto__" ->
   evaluateExpression (EParam key) w
   = (Returned (VString (match value with
                         | RawArray items => join "," items
                         | RawUndefined => "undefined"
                         | RawString s => s
                         end)), w)) /\
  (req_query req = (pre ++ (key, value) :: post)%list ->
   Forall (fun e => fst e <> key) post -> key <> "__proto__" ->
   evaluateExpression (EQuery key) w
   = (Returned (VString (match value with
                         | RawArray items => join "," items
                         | RawUndefined => EmptyString
                         | RawString s => s
                         end)), w)) /\
  (forall name,
      req_headers req = (pre ++ (key, value) :: post)%list ->
      toLowerCase key = toLowerCase name ->
      Forall (fun e => toLowerCase (fst e) <> toLowerCase name) post ->
      toLowerCase name <> "__proto__" ->
      evaluateExpression (EHeader name) w
      = (Returned (VString (match value with
                            | RawArray items => join "," items
                            | RawUndefined => EmptyString
                            | RawString s => s
                            end)), w)).
Proof.
  cbv zeta. split; [|split].
  - intros Hreq Hpost Hproto. simpl. unfold bind, getCtx, ret, lookupString. simpl.
    rewrite Hreq, normalizeParams_fold.
    rewrite (fold_setString_last fst (fun e => rawString (snd e)) _ ∅ pre (key, value) post
               eq_refl Hpost Hproto).
    destruct value; reflexivity.
  - intros Hreq Hpost Hproto. simpl. unfold bind, getCtx, ret, lookupString. simpl.
    rewrite Hreq, normalizeQuery_fold.
    rewrite (fold_setString_last fst (fun e => queryText (snd e)) _ ∅ pre (key, value) post
               eq_refl Hpost Hproto).
    destruct value; reflexivity.
  - intros name Hreq Hkey Hpost Hproto. simpl. unfold bind, getCtx, ret, lookupString. simpl.
    rewrite Hreq, normalizeHeaders_fold, <- Hkey.
    rewrite (fold_setString_last (fun e => toLowerCase (fst e)) (fun e => queryText (snd e))
               _ ∅ pre (key, value) post eq_refl).
    + destruct value; reflexivity.
    + simpl. rewrite Hkey. exact Hpost.
    + simpl. rewrite Hkey. exact Hproto.
Qed.

(** X6.  A parameter, query key, body field or header that the request
    does not have, and any variable before the assignments, evaluates to
    [undefined]; the body has no field at all when it is not an object.
    (Names that every plain object inherits are left out.) *)
Theorem missing_inputs_are_undefined req name (d : option D) :
  let w := {| ctx := freshContext req; db := d |} in
  (~ In name inheritedNames ->
   (~ In name (map fst (req_params req)) ->
    evaluateExpression (EParam name) w = (Returned VUndefined, w)) /\
   (~ In name (map fst (req_query req)) ->
    evaluateExpression (EQuery name) w = (Returned VUndefined, w)) /\
   ((forall fields, req_body req = VObject fields -> ~ In name (map fst fields)) ->
    evaluateExpression (EBody name) w = (Returned VUndefined, w)) /\
   evaluateExpression (EVar name) w = (Returned VUndefined, w)) /\
  (~ In (toLowerCase name) inheritedNames ->
   ~ In (toLowerCase name) (map (fun e => toLowerCase (fst e)) (req_headers req)) ->
   evaluateExpression (EHeader name) w = (Returned VUndefined, w)).
Proof.
  assert (Hmiss : forall {E} (keyOf : E -> string) (entries : list E) k,
             ~ In k (map keyOf entries) -> Forall (fun e => keyOf e <> k) entries).
  { intros E keyOf entries k Hk. apply List.Forall_forall. intros e He Heq.
    apply Hk. apply in_map_iff. eauto. }
  cbv zeta. cbn [evaluateExpression].
  unfold bind, getCtx, ret, lookupString, lookupValue. cbn [ctx freshContext params query
    body headers variables].
  split; [intros Hname; split; [|split; [|split]]|].
  - intros Hk.
    rewrite normalizeParams_fold, fold_setString_missing by (apply Hmiss; exact Hk).
    rewrite lookup_empty, (objectPrototypeMember_other _ Hname). reflexivity.
  - intros Hk.
    rewrite normalizeQuery_fold, fold_setString_missing by (apply Hmiss; exact Hk).
    rewrite lookup_empty, (objectPrototypeMember_other _ Hname). reflexivity.
  - intros Hk. destruct (req_body req) as [| | | | |items|fields|b] eqn:Eb;
      try (cbn [normalizeBody];
           rewrite lookup_empty, (objectPrototypeMember_other _ Hname); reflexivity).
    rewrite normalizeBody_fold, fold_insert_missing by (apply Hmiss; exact (Hk _ eq_refl)).
    rewrite lookup_empty, (objectPrototypeMember_other _ Hname). reflexivity.
  - rewrite lookup_empty, (objectPrototypeMember_other _ Hname). reflexivity.
  - intros Hname Hk. rewrite normalizeHeaders_fold.
    rewrite (fold_setString_missing (fun e => toLowerCase (fst e)))
      by (apply (Hmiss _ (fun e => toLowerCase (fst e))); exact Hk).
    rewrite lookup_empty, (objectPrototypeMember_other _ Hname). reflexivity.
Qed.



End MoreCompiler.

(** ** Numbers that are not [NaN] *)

Section NumberFacts.

Lemma shr_1_nonneg mrs : 0 <= shr_m mrs -> 0 <= shr_m (shr_1 mrs).
Proof.
  destruct mrs as [m r s]. simpl. destruct m as [|[p|p|]|p]; simpl; lia.
Qed.

Lemma iter_pos_shr_1_nonneg p mrs :
  0 <= shr_m mrs -> 0 <= shr_m (SpecFloat.iter_pos shr_1 p mrs).
Proof.
  revert mrs. induction p as [p IH|p IH|]; intros mrs H; simpl.
  - apply IH, IH, shr_1_nonneg, H.
  - apply IH, IH, H.
  - apply shr_1_nonneg, H.
Qed.

Lemma shr_fexp_nonneg m e l :
  0 <= m -> 0 <= shr_m (fst (shr_fexp prec emax m e l)).
Proof.
  intros H. unfold shr_fexp, shr.
  assert (H0 : 0 <= shr_m (shr_record_of_loc m l)) by (destruct l as [|[]]; exact H).
  destruct (fexp prec emax (Zdigits2 m + e) - e); simpl; [exact H0| |exact H0].
  apply iter_pos_shr_1_nonneg, H0.
Qed.

Lemma round_nearest_even_nonneg m l : 0 <= m -> 0 <= round_nearest_even m l.
Proof.
  intros H. unfold round_nearest_even.
  destruct l as [|[]]; [exact H | | exact H | lia]. destruct (Z.even m); lia.
Qed.

Lemma binary_round_aux_not_nan sx mx ex lx :
  0 <= mx -> isNaN (binary_round_aux prec emax sx mx ex lx) = false.
Proof.
  intros H. unfold binary_round_aux.
  pose proof (shr_fexp_nonneg mx ex lx H) as H1.
  destruct (shr_fexp prec emax mx ex lx) as [mrs' e']. simpl in H1.
  pose proof (shr_fexp_nonneg _ e' loc_Exact
                (round_nearest_even_nonneg _ (loc_of_shr_record mrs') H1)) as H2.
  destruct (shr_fexp prec emax _ e' loc_Exact) as [mrs'' e'']. simpl in H2.
  destruct (shr_m mrs''); [reflexivity | | lia].
  destruct (e'' <=? emax - prec); reflexivity.
Qed.

(** A ratio of positive integers rounds to a number, never to [NaN]. *)
Lemma ofRatio_not_nan neg num den : isNaN (ofRatio neg num den) = false.
Proof.
  unfold ofRatio, SFdiv_core_binary.
  set (e' := Z.min _ _). set (s := 0 - 0 - e').
  set (m' := match s with 0 => Z.pos num | Z.pos _ => Z.shiftl (Z.pos num) s | Z.neg _ => 0 end).
  assert (Hm : 0 <= m').
  { unfold m'. destruct s; [lia | | lia]. apply Z.shiftl_nonneg. lia. }
  pose proof (Z.div_pos m' (Z.pos den) Hm ltac:(lia)) as Hq.
  unfold Z.div in Hq. destruct (Z.div_eucl m' (Z.pos den)) as [q r]. simpl in Hq.
  apply binary_round_aux_not_nan. exact Hq.
Qed.

Lemma ofDecimal_not_nan neg ip fp e : isNaN (ofDecimal neg ip fp e) = false.
Proof.
  unfold ofDecimal. destruct (digitsValue 0 (ip ++ fp)); try reflexivity.
  destruct (0 <=? e - len fp); apply ofRatio_not_nan.
Qed.

End NumberFacts.

(** ** Numeric text *)

Section NumericText.

Lemma scanDecimal_numeric t :
  isNumericLiteral t = true ->
  exists x, scanDecimal t = Some (x, EmptyString) /\ parseFloat t = x /\ isNaN x = false.
Proof.
  intros Hn. destruct t as [|c t']; [discriminate|].
  destruct (Ascii.eqb_spec c "-") as [->|Hc].
  - destruct (isUnsignedNumeric_shape true t' Hn) as (i & ip & fp & _ & _ & _ & _ & Hscan).
    exists (ofDecimal true (String i ip) fp 0).
    split; [exact Hscan|]. split; [|apply ofDecimal_not_nan].
    unfold parseFloat. change (trimStart (String "-" t')) with (String "-" t').
    change (scanDecimal (String "-" t')) with (scanUnsigned true t'). rewrite Hscan. reflexivity.
  - assert (Hn' : isUnsignedNumeric (String c t') = true).
    { destruct c as [[] [] [] [] [] [] [] []]; try exact Hn. exfalso. apply Hc. reflexivity. }
    destruct (isUnsignedNumeric_shape false _ Hn') as (i & ip & fp & Ht & Hi & _ & _ & Hscan).
    assert (Hci : c = i).
    { change (String c t' =
              String i (ip ++ match fp with
                              | EmptyString => EmptyString
                              | _ => "." ++ fp
                              end)%string) in Ht.
      congruence. }
    subst i.
    assert (Hsign : scanSign (String c t') = (false, String c t')).
    { destruct c as [[] [] [] [] [] [] [] []]; try discriminate; reflexivity. }
    exists (ofDecimal false (String c ip) fp 0).
    split; [|split; [|apply ofDecimal_not_nan]].
    + unfold scanDecimal. rewrite Hsign. exact Hscan.
    + unfold parseFloat.
      assert (trimStart (String c t') = String c t') as ->
          by (simpl; rewrite (isDigit_not_whitespace c Hi); reflexivity).
      unfold scanDecimal. rewrite Hsign, Hscan. reflexivity.
Qed.

Lemma ofString_decimal t x :
  trim t = t ->
  (forall c ds, t = String "0" (String c ds) -> isDigit c = true \/ c = "."%char) ->
  scanDecimal t = Some (x, EmptyString) ->
  ofString t = x.
Proof.
  intros Ht Hz Hscan. unfold ofString. rewrite Ht.
  destruct t as [|c0 t']; [discriminate|].
  destruct (Ascii.eqb_spec c0 "0") as [->|Hc0].
  - destruct t' as [|c1 ds]; [rewrite Hscan; reflexivity|].
    destruct (Hz c1 ds eq_refl) as [Hd| ->]; [|rewrite Hscan; reflexivity].
    assert (Hx : forall k, isDigit k = false -> Ascii.eqb c1 k = false).
    { intros k Hk. destruct (Ascii.eqb_spec c1 k) as [->|]; [congruence | reflexivity]. }
    rewrite !Hx by reflexivity. simpl. rewrite Hscan. reflexivity.
  - destruct c0 as [[] [] [] [] [] [] [] []]; try (rewrite Hscan; reflexivity).
    exfalso. apply Hc0. reflexivity.
Qed.

(** On a text of the numeric grammar [Number] and [parseFloat] agree, and
    the result is a number. *)
Lemma ofString_numeric t :
  isNumericLiteral t = true -> ofString t = parseFloat t /\ isNaN (ofString t) = false.
Proof.
  intros Hn. destruct (scanDecimal_numeric t Hn) as (x & Hscan & Hpf & Hnan).
  destruct (isNumericLiteral_shape t Hn) as (Hws & _ & _).
  assert (Ho : ofString t = x).
  { apply ofString_decimal; [apply trim_no_whitespace; exact Hws | | exact Hscan].
    intros c ds ->. unfold isNumericLiteral, isUnsignedNumeric in Hn. simpl in Hn.
    destruct (isDigit c) eqn:Ed; [auto|]. right.
    destruct (Ascii.eqb_spec c ".") as [->|Hne]; [reflexivity|].
    destruct c as [[] [] [] [] [] [] [] []]; try discriminate. exfalso. apply Hne. reflexivity. }
  rewrite Ho, Hpf. auto.
Qed.

End NumericText.

(** ** A status from text *)

Section StatusText.
Context {D : Type} {engine : Executor D} {host : Builtins}.

(** X8.  A status read from a variable.  When the variable holds text of
    the numeric grammar the status is the number [parseFloat] reads from it
    (never [NaN]), given to [res.status] when that number is finite; when it
    holds blank text [res.status] is given zero; when it is [undefined] the
    status is not set. *)
Theorem status_from_variable name res (w : World D) :
  let status := resolveStatus (Some (StatusVar (EVar name))) res w in
  (forall t,
      lookupValue (variables (ctx w)) name = VString t -> isNumericLiteral t = true ->
      status = (Returned (if isFinite (parseFloat t)
                          then res_status res (parseFloat t) else res), w) /\
      isNaN (parseFloat t) = false) /\
  (forall t,
      lookupValue (variables (ctx w)) name = VString t -> trim t = EmptyString ->
      status = (Returned (res_status res zero), w)) /\
  (lookupValue (variables (ctx w)) name = VUndefined -> status = (Returned res, w)).
Proof.
  cbv zeta. unfold resolveStatus, statusValueOf. simpl. unfold bind, getCtx, ret.
  split; [|split].
  - intros t -> Hn. destruct (ofString_numeric t Hn) as [Ho Hnan].
    simpl. rewrite Ho. split; [reflexivity|]. rewrite <- Ho. exact Hnan.
  - intros t -> Ht. simpl. unfold ofString. rewrite Ht. reflexivity.
  - intros ->. reflexivity.
Qed.

End StatusText.

(** ** More on strings *)

Section MoreStringFacts.
Local Arguments String.append !s1 s2 : simpl nomatch.

Lemma append_assoc (a b c : string) : ((a ++ b) ++ c = a ++ (b ++ c))%string.
Proof. induction a as [|x a IH]; simpl; [reflexivity | rewrite IH; reflexivity]. Qed.

Lemma prefix_app (a b : string) : String.prefix a (a ++ b) = true.
Proof.
  induction a as [|x a IH]; simpl; [destruct b; reflexivity|].
  destruct (ascii_dec x x); [exact IH | contradiction].
Qed.

Lemma indexOf_prefix (a b : string) : indexOf (a ++ b) a = 0.
Proof.
  unfold indexOf. destruct (a ++ b)%string eqn:E; cbn [indexOfFrom];
    rewrite <- E, prefix_app; reflexivity.
Qed.

Lemma indexOfFrom_prefix (a b : string) i : indexOfFrom a (a ++ b) i = i.
Proof. destruct (a ++ b)%string eqn:E; cbn [indexOfFrom]; rewrite <- E, prefix_app; reflexivity. Qed.

Lemma prefix_cons a (p : string) b (s : string) :
  String.prefix (String a p) (String b s) = if ascii_dec a b then String.prefix p s else false.
Proof. reflexivity. Qed.

Lemma prefix_other a (p : string) b (s : string) :
  a <> b -> String.prefix (String a p) (String b s) = false.
Proof. intros Hne. rewrite prefix_cons. destruct (ascii_dec a b); [contradiction | reflexivity]. Qed.

Lemma prefix_same a (p s : string) :
  String.prefix (String a p) (String a s) = String.prefix p s.
Proof. rewrite prefix_cons. destruct (ascii_dec a a); [reflexivity | contradiction]. Qed.

Lemma indexOfFrom_step needle c r i :
  String.prefix needle (String c r) = false ->
  indexOfFrom needle (String c r) i = indexOfFrom needle r (i + 1).
Proof. intros H. cbn [indexOfFrom]. rewrite H. reflexivity. Qed.

(** A text without the first character of the needle holds no occurrence,
    and is passed over. *)
Lemma indexOfFrom_skip k needle (w s : string) i :
  existsChar (Ascii.eqb k) w = false ->
  indexOfFrom (String k needle) (w ++ s) i = indexOfFrom (String k needle) s (i + len w).
Proof.
  revert i. induction w as [|c w IH]; intros i Hw.
  - simpl. unfold len. simpl. f_equal. lia.
  - simpl in Hw. apply orb_false_iff in Hw as [Hc Hw].
    change (String c w ++ s)%string with (String c (w ++ s)).
    rewrite indexOfFrom_step.
    + rewrite (IH _ Hw). f_equal. unfold len. simpl String.length. lia.
    + apply prefix_other. intros ->. rewrite Ascii.eqb_refl in Hc. discriminate.
Qed.

Lemma substring_app_skip (a b : string) n m :
  String.substring (String.length a + n) m (a ++ b) = String.substring n m b.
Proof. induction a as [|x a IH]; simpl; [reflexivity | exact IH]. Qed.

Lemma substring_app_take (a b : string) :
  String.substring 0 (String.length a) (a ++ b) = a.
Proof.
  induction a as [|x a IH]; simpl; [destruct b; reflexivity | rewrite IH; reflexivity].
Qed.

Lemma substring_all (a : string) : String.substring 0 (String.length a) a = a.
Proof. induction a as [|x a IH]; simpl; [reflexivity | rewrite IH; reflexivity]. Qed.

Lemma substring_none n (s : string) : String.substring n 0 s = EmptyString.
Proof.
  revert n. induction s as [|x s IH]; intros [|n]; simpl; try reflexivity. apply IH.
Qed.

Lemma len_nonneg (s : string) : 0 <= len s.
Proof. unfold len. lia. Qed.

Lemma clampIndex_inside (s : string) k : 0 <= k <= len s -> clampIndex s k = k.
Proof.
  intros Hk. unfold clampIndex. destruct (k <? 0) eqn:E; [apply Z.ltb_lt in E; lia | lia].
Qed.

(** [slice] between two positions of a concatenation. *)
Lemma slice_app_middle (a b c : string) :
  slice (a ++ b ++ c) (len a) (len a + len b) = b.
Proof.
  unfold slice. rewrite !clampIndex_inside by (unfold len; rewrite !append_length; lia).
  unfold len.
  replace (Z.to_nat (Z.of_nat (String.length a))) with (String.length a + 0)%nat by lia.
  match goal with |- String.substring _ ?m _ = _ =>
    replace m with (String.length b) by lia end.
  rewrite substring_app_skip. apply substring_app_take.
Qed.

Lemma sliceFrom_app (a b : string) : sliceFrom (a ++ b) (len a) = b.
Proof.
  unfold sliceFrom, slice. rewrite !clampIndex_inside by (unfold len; rewrite !append_length; lia).
  unfold len. rewrite append_length.
  replace (Z.to_nat (Z.of_nat (String.length a))) with (String.length a + 0)%nat by lia.
  match goal with |- String.substring _ ?m _ = _ =>
    replace m with (String.length b) by lia end.
  rewrite substring_app_skip. apply substring_all.
Qed.

Lemma slice_app_head (a b : string) : slice (a ++ b) 0 (len a) = a.
Proof.
  pose proof (slice_app_middle EmptyString a b) as H. simpl in H. exact H.
Qed.

Lemma slice_empty (s : string) k : slice s k k = EmptyString.
Proof. unfold slice. rewrite Z.sub_diag. apply substring_none. Qed.

Lemma lastChar_app (s : string) c : lastChar (s ++ String c EmptyString) = Some c.
Proof.
  induction s as [|x s IH]; simpl; [reflexivity|].
  rewrite IH. destruct (s ++ String c "")%string eqn:E; [|reflexivity].
  destruct s; discriminate.
Qed.

Lemma dropLast_app (s : string) c : dropLast (s ++ String c EmptyString) = s.
Proof.
  induction s as [|x s IH]; simpl; [reflexivity|].
  rewrite IH. destruct (s ++ String c "")%string eqn:E; [|reflexivity].
  destruct s; discriminate.
Qed.

Lemma trimEnd_app_char (s : string) c :
  isWhiteSpace c = false -> trimEnd (s ++ String c EmptyString) = s ++ String c EmptyString.
Proof.
  intros Hc. induction s as [|x s IH]; simpl; [rewrite Hc; reflexivity|].
  rewrite IH. destruct (s ++ String c "")%string eqn:E; [|reflexivity].
  destruct s; discriminate.
Qed.

(** A text that starts and ends with a character that is not white space
    is its own trimmed text. *)
Lemma trim_framed c (s : string) c' :
  isWhiteSpace c = false -> isWhiteSpace c' = false ->
  trim (String c (s ++ String c' EmptyString)) = String c (s ++ String c' EmptyString).
Proof.
  intros Hc Hc'. unfold trim. cbn [trimStart]. rewrite Hc.
  exact (trimEnd_app_char (String c s) c' Hc').
Qed.

End MoreStringFacts.

(** ** Balanced content *)

Section ExtractionFacts.
Local Arguments String.append !s1 s2 : simpl nomatch.

Lemma findClose_balanced inner rest depth i :
  balancedFrom depth inner = true ->
  findClose (inner ++ String ")" rest) (Z.of_nat depth + 1) i = Some (i + len inner).
Proof.
  revert depth i. induction inner as [|c inner IH]; intros depth i; simpl.
  - intros Hd. apply Nat.eqb_eq in Hd as ->. simpl. unfold len. simpl. f_equal. lia.
  - destruct (Ascii.eqb c "(") eqn:E1.
    + intros Hb. replace (Z.of_nat depth + 1 + 1) with (Z.of_nat (S depth) + 1) by lia.
      rewrite (IH _ _ Hb). unfold len. simpl String.length. f_equal. lia.
    + destruct (Ascii.eqb c ")") eqn:E2.
      * destruct depth as [|d]; [discriminate|]. intros Hb.
        replace (Z.of_nat (S d) + 1 - 1) with (Z.of_nat d + 1) by lia.
        destruct (Z.eqb_spec (Z.of_nat d + 1) 0) as [E0|E0]; [lia|].
        rewrite (IH _ _ Hb). unfold len. simpl String.length. f_equal. lia.
      * intros Hb. rewrite (IH _ _ Hb). unfold len. simpl String.length. f_equal. lia.
Qed.

Lemma findClose_unclosed inner depth i :
  existsChar (Ascii.eqb ")") inner = false -> findClose inner depth i = None.
Proof.
  revert depth i. induction inner as [|c inner IH]; intros depth i; [reflexivity|].
  cbn [existsChar findClose].
  intros H. apply orb_false_iff in H as [H1 H2]. rewrite Ascii.eqb_sym in H1. rewrite H1.
  destruct (Ascii.eqb c "("); apply IH; exact H2.
Qed.

(** The inner text of a call whose parentheses match, and of a call that is
    never closed. *)
Lemma extractFunctionContent_inner funcName inner rest :
  balanced inner = true ->
  extractFunctionContent (funcName ++ "(" ++ inner ++ ")" ++ rest) funcName = inner.
Proof.
  intros Hb. unfold extractFunctionContent.
  replace (funcName ++ "(" ++ inner ++ ")" ++ rest)%string
    with ((funcName ++ "(") ++ inner ++ ")" ++ rest)%string by apply append_assoc.
  rewrite indexOf_prefix.
  assert (Hstart : 0 + len funcName + 1 = len (funcName ++ "(")).
  { unfold len. rewrite append_length. simpl. lia. }
  rewrite Hstart, sliceFrom_app.
  change (")" ++ rest)%string with (String ")" rest).
  pose proof (findClose_balanced inner rest 0 (len (funcName ++ "(")) Hb) as Hc.
  change (Z.of_nat 0 + 1) with 1 in Hc. rewrite Hc.
  apply slice_app_middle.
Qed.

Lemma extractFunctionContent_open funcName inner :
  existsChar (Ascii.eqb ")") inner = false ->
  extractFunctionContent (funcName ++ "(" ++ inner) funcName = EmptyString.
Proof.
  intros Hb. unfold extractFunctionContent.
  replace (funcName ++ "(" ++ inner)%string
    with ((funcName ++ "(") ++ inner)%string by apply append_assoc.
  rewrite indexOf_prefix.
  assert (Hstart : 0 + len funcName + 1 = len (funcName ++ "(")).
  { unfold len. rewrite append_length. simpl. lia. }
  rewrite Hstart, sliceFrom_app, (findClose_unclosed inner _ _ Hb).
  apply slice_empty.
Qed.

End ExtractionFacts.

(** ** The scanners on plain and quoted text *)

Section ScannerFacts.
Local Arguments String.append !s1 s2 : simpl nomatch.

Lemma scanChar_plain sep st c :
  inString st = false -> isPlain sep c = true -> scanChar sep st c = (st, false).
Proof.
  intros Hs Hc. unfold isPlain in Hc. apply negb_true_iff in Hc.
  do 3 (apply orb_false_iff in Hc as [Hc ?]).
  unfold scanChar. rewrite Hs, Hc. simpl.
  rewrite andb_false_r.
  repeat match goal with H : Ascii.eqb _ _ = false |- _ => rewrite H; clear H end.
  reflexivity.
Qed.

Lemma scanChar_open sep st q :
  inString st = false -> isQuote q = true ->
  scanChar sep st q = ({| depth := depth st; inString := true; stringChar := Some q |}, false).
Proof. intros Hs Hq. unfold scanChar. rewrite Hs, Hq. reflexivity. Qed.

Lemma scanChar_inside sep st q c :
  inString st = true -> stringChar st = Some q -> Ascii.eqb q c = false ->
  scanChar sep st c = (st, false).
Proof.
  intros Hs Hq Hc. unfold scanChar. rewrite Hs, Hq, andb_false_r.
  rewrite Ascii.eqb_sym, Hc. reflexivity.
Qed.

Lemma scanChar_close sep st q :
  inString st = true -> stringChar st = Some q ->
  scanChar sep st q = ({| depth := depth st; inString := false; stringChar := Some q |}, false).
Proof.
  intros Hs Hq. unfold scanChar. rewrite Hs, Hq, andb_false_r, Ascii.eqb_refl. reflexivity.
Qed.

(** Only the separator is reported as one. *)
Lemma scanChar_separator sep st c st' :
  scanChar sep st c = (st', true) -> c = sep /\ st' = st.
Proof.
  unfold scanChar.
  repeat match goal with
         | |- context [if ?b then _ else _] => destruct b eqn:?
         end; intros [= <-]; try discriminate.
  split; [|reflexivity].
  match goal with H : (_ && _)%bool = true |- _ => apply andb_true_iff in H as [H _];
    apply Ascii.eqb_eq in H; exact H end.
Qed.

(** Scanning over plain text, and over a quoted run. *)
Lemma splitScan_plain sep st current a s :
  inString st = false -> allChars (isPlain sep) a = true ->
  splitScan sep st current (a ++ s) = splitScan sep st (current ++ a) s.
Proof.
  intros Hs. revert current. induction a as [|c a IH]; intros current Ha; simpl.
  - rewrite append_empty. reflexivity.
  - simpl in Ha. apply andb_true_iff in Ha as [Hc Ha].
    rewrite (scanChar_plain sep st c Hs Hc), (IH _ Ha), append_assoc. reflexivity.
Qed.

Lemma splitScan_inside sep st q current body s :
  inString st = true -> stringChar st = Some q ->
  existsChar (Ascii.eqb q) body = false ->
  splitScan sep st current (body ++ s) = splitScan sep st (current ++ body) s.
Proof.
  intros Hs Hq. revert current. induction body as [|c body IH]; intros current Hb; simpl.
  - rewrite append_empty. reflexivity.
  - simpl in Hb. apply orb_false_iff in Hb as [Hc Hb].
    rewrite (scanChar_inside sep st q c Hs Hq Hc), (IH _ Hb), append_assoc. reflexivity.
Qed.

Lemma splitScan_quoted sep st q current body s :
  inString st = false -> isQuote q = true ->
  existsChar (Ascii.eqb q) body = false ->
  splitScan sep st current (String q (body ++ String q s)) =
  splitScan sep {| depth := depth st; inString := false; stringChar := Some q |}
    (current ++ String q (body ++ String q EmptyString)) s.
Proof.
  intros Hs Hq Hb. cbn [splitScan]. rewrite (scanChar_open sep st q Hs Hq).
  rewrite (splitScan_inside sep {| depth := depth st; inString := true; stringChar := Some q |}
             q _ body (String q s) eq_refl eq_refl Hb).
  cbn [splitScan].
  rewrite (scanChar_close sep {| depth := depth st; inString := true; stringChar := Some q |}
             q eq_refl eq_refl). simpl.
  rewrite !append_assoc. reflexivity.
Qed.

Lemma findColonFrom_plain st a s i :
  inString st = false -> allChars (isPlain ":") a = true ->
  findColonFrom st (a ++ s) i = findColonFrom st s (i + len a).
Proof.
  intros Hs. revert i. induction a as [|c a IH]; intros i Ha; simpl.
  - unfold len. simpl. f_equal. lia.
  - simpl in Ha. apply andb_true_iff in Ha as [Hc Ha].
    rewrite (scanChar_plain ":" st c Hs Hc), (IH _ Ha). f_equal.
    unfold len. simpl String.length. lia.
Qed.

Lemma findColonFrom_inside st q body s i :
  inString st = true -> stringChar st = Some q ->
  existsChar (Ascii.eqb q) body = false ->
  findColonFrom st (body ++ s) i = findColonFrom st s (i + len body).
Proof.
  intros Hs Hq. revert i. induction body as [|c body IH]; intros i Hb; simpl.
  - unfold len. simpl. f_equal. lia.
  - simpl in Hb. apply orb_false_iff in Hb as [Hc Hb].
    rewrite (scanChar_inside ":" st q c Hs Hq Hc), (IH _ Hb). f_equal.
    unfold len. simpl String.length. lia.
Qed.

Lemma findColonFrom_quoted st q body s i :
  inString st = false -> isQuote q = true ->
  existsChar (Ascii.eqb q) body = false ->
  findColonFrom st (String q (body ++ String q s)) i =
  findColonFrom {| depth := depth st; inString := false; stringChar := Some q |} s
    (i + len body + 2).
Proof.
  intros Hs Hq Hb. cbn [findColonFrom]. rewrite (scanChar_open ":" st q Hs Hq).
  rewrite (findColonFrom_inside
             {| depth := depth st; inString := true; stringChar := Some q |}
             q body (String q s) _ eq_refl eq_refl Hb).
  cbn [findColonFrom].
  rewrite (scanChar_close ":" {| depth := depth st; inString := true; stringChar := Some q |}
             q eq_refl eq_refl). simpl.
  f_equal. lia.
Qed.

(** What the scanner cuts and what it keeps, joined again, is the text. *)
Lemma splitScan_join sep st current s pieces last :
  splitScan sep st current s = (pieces, last) ->
  join (String sep EmptyString) (pieces ++ [last]) = (current ++ s)%string.
Proof.
  revert st current pieces last. induction s as [|c s IH]; intros st current pieces last; simpl.
  - intros [= <- <-]. simpl. rewrite append_empty. reflexivity.
  - destruct (scanChar sep st c) as [st' isSep] eqn:Ec. destruct isSep.
    + apply scanChar_separator in Ec as [-> _].
      destruct (splitScan sep st' "" s) as [pieces' last'] eqn:E.
      intros [= <- <-]. apply IH in E. simpl in E.
      change ((current :: pieces') ++ [last'])%list with (current :: (pieces' ++ [last']))%list.
      cbn [join]. destruct (pieces' ++ [last'])%list eqn:El.
      { destruct pieces'; discriminate. }
      rewrite E. reflexivity.
    + intros E. apply IH in E. rewrite E, append_assoc. reflexivity.
Qed.

Lemma nonBlank_char (a : string) c (b : string) :
  isWhiteSpace c = false -> nonBlank (a ++ String c b) = true.
Proof.
  intros Hc. unfold nonBlank, trim.
  assert (Hs : exists c' r, trimStart (a ++ String c b) = String c' r /\ isWhiteSpace c' = false).
  { induction a as [|x a IH]; simpl.
    - rewrite Hc. eauto.
    - destruct (isWhiteSpace x) eqn:Ex; eauto. }
  destruct Hs as (c' & r & -> & Hc'). simpl. rewrite Hc'.
  destruct (trimEnd r); reflexivity.
Qed.

End ScannerFacts.

(** ** What the scanners keep *)

Section ScannerProperties.
Local Arguments String.append !s1 s2 : simpl nomatch.

(** X9.  [extractFunctionContent] returns the text between the
    parenthesis that opens the call and the one that matches it, whenever
    the parentheses of that text match among themselves (every parenthesis
    counts, quoted or not), whatever follows the call; and the empty text
    when the call is never closed. *)
Theorem extractFunctionContent_matching funcName inner rest :
  (balanced inner = true ->
   extractFunctionContent (funcName ++ "(" ++ inner ++ ")" ++ rest) funcName = inner) /\
  (existsChar (Ascii.eqb ")") inner = false ->
   extractFunctionContent (funcName ++ "(" ++ inner) funcName = EmptyString).
Proof.
  split; [apply extractFunctionContent_inner | apply extractFunctionContent_open].
Qed.

(** X10.  Inside a quoted run that does not hold its own quote character,
    separators are text: around plain text, the run does not split a
    conditional at a semicolon, nor an argument list at a comma, and a colon
    inside it is not the colon of a branch. *)
Theorem quoted_run_is_not_split q body a b :
  isQuote q = true ->
  existsChar (Ascii.eqb q) body = false ->
  let text := (a ++ String q (body ++ String q b))%string in
  (allChars (isPlain ";") a = true -> allChars (isPlain ";") b = true ->
   splitIfBranches text = [text]) /\
  (allChars (isPlain ",") a = true -> allChars (isPlain ",") b = true ->
   splitFunctionArgs text = [trim text]) /\
  (allChars (isPlain ":") a = true -> allChars (isPlain ":") b = true ->
   findColonInBranch text = -1).
Proof.
  intros Hq Hbody text.
  assert (Hnws : isWhiteSpace q = false).
  { apply orb_true_iff in Hq as [Hq|Hq]; apply Ascii.eqb_eq in Hq; subst q; reflexivity. }
  assert (Hscan : forall sep, allChars (isPlain sep) a = true ->
                              allChars (isPlain sep) b = true ->
                              splitScan sep scanStart "" text = ([], text)).
  { intros sep Ha Hb. unfold text.
    rewrite (splitScan_plain sep scanStart "" a _ eq_refl Ha).
    rewrite (splitScan_quoted sep scanStart q _ body b eq_refl Hq Hbody).
    pose proof (splitScan_plain sep {| depth := 0; inString := false; stringChar := Some q |}
                  (a ++ String q (body ++ String q "")) b "" eq_refl Hb) as Hp.
    rewrite append_empty in Hp. simpl depth. change ("" ++ a)%string with a.
    rewrite Hp. cbn [splitScan].
    rewrite append_assoc. simpl. rewrite append_assoc. reflexivity. }
  assert (Hnb : nonBlank text = true) by (apply nonBlank_char; exact Hnws).
  split; [|split].
  - intros Ha Hb. unfold splitIfBranches. rewrite (Hscan ";"%char Ha Hb), Hnb. reflexivity.
  - intros Ha Hb. unfold splitFunctionArgs. rewrite (Hscan ","%char Ha Hb). simpl.
    rewrite Hnb. reflexivity.
  - intros Ha Hb. unfold findColonInBranch, text.
    rewrite (findColonFrom_plain scanStart a _ 0 eq_refl Ha).
    rewrite (findColonFrom_quoted scanStart q body b _ eq_refl Hq Hbody).
    pose proof (findColonFrom_plain {| depth := 0; inString := false; stringChar := Some q |}
                  b "" (0 + len a + len body + 2) eq_refl Hb) as Hp.
    rewrite append_empty in Hp. simpl depth. rewrite Hp. reflexivity.
Qed.

Lemma findColonFrom_bounds st s i :
  findColonFrom st s i = -1 \/
  (i <= findColonFrom st s i < i + len s /\
   String.get (Z.to_nat (findColonFrom st s i - i)) s = Some ":"%char).
Proof.
  revert st i. induction s as [|c s IH]; intros st i; simpl; [auto|].
  destruct (scanChar ":" st c) as [st' isSep] eqn:Ec. destruct isSep.
  - right. apply scanChar_separator in Ec as [-> _].
    rewrite Z.sub_diag. simpl. unfold len. simpl String.length. split; [lia | reflexivity].
  - destruct (IH st' (i + 1)) as [H|[H1 H2]]; [auto|]. right.
    unfold len in *. simpl String.length. split; [lia|].
    replace (Z.to_nat (findColonFrom st' s (i + 1) - i))
      with (S (Z.to_nat (findColonFrom st' s (i + 1) - (i + 1)))) by lia.
    exact H2.
Qed.

(** X11.  Splitting loses no text: the pieces [splitIfBranches] cuts at
    semicolons, with the last one put back when it was dropped for being
    blank, join to the text again, and the arguments of [parseFunctionArgs]
    are the trimmed non-blank pieces of a list that joins, with commas, to
    the text. *)
Theorem split_pieces_join :
  (forall str, exists pieces last,
      join ";" (pieces ++ [last]) = str /\
      splitIfBranches str = (pieces ++ (if nonBlank last then [last] else []))%list) /\
  (forall argsStr, exists pieces,
      join "," pieces = argsStr /\
      splitFunctionArgs argsStr = map trim (List.filter nonBlank pieces)).
Proof.
  split.
  - intros str. destruct (splitScan ";" scanStart "" str) as [pieces last'] eqn:E.
    exists pieces, last'. split.
    + apply splitScan_join in E. exact E.
    + unfold splitIfBranches. rewrite E. reflexivity.
  - intros argsStr. destruct (splitScan "," scanStart "" argsStr) as [pieces last'] eqn:E.
    exists (pieces ++ [last'])%list. split.
    + apply splitScan_join in E. exact E.
    + unfold splitFunctionArgs. rewrite E. reflexivity.
Qed.

End ScannerProperties.

(** ** Expressions by form *)

Section MoreParserProperties.
Context {host : Builtins}.
Local Arguments String.append !s1 s2 : simpl nomatch.

Lemma startsWith_app (p s : string) : startsWith (p ++ s) p = true.
Proof. apply prefix_app. Qed.

Lemma startsWith_app_other c (a s : string) p ps :
  p <> c -> startsWith (String c a ++ s) (String p ps) = false.
Proof. intros Hne. simpl. apply startsWith_other_head. exact Hne. Qed.

(** X12.  The accessor forms, with white space around them allowed:
    [param(...)], [query(...)], [body(...)], [header(...)] and [var(...)]
    parse to the node of their kind holding the text between the
    parentheses as it is, except that [param] drops one leading colon and
    [var] one leading pair of hyphens.  Whatever follows the closing
    parenthesis is ignored. *)
Theorem parseExpression_accessors value inner rest :
  balanced inner = true ->
  (trim value = ("param(" ++ inner ++ ")" ++ rest)%string ->
   parseExpression value = EParam (stripPrefix ":" inner)) /\
  (trim value = ("query(" ++ inner ++ ")" ++ rest)%string ->
   parseExpression value = EQuery inner) /\
  (trim value = ("body(" ++ inner ++ ")" ++ rest)%string ->
   parseExpression value = EBody inner) /\
  (trim value = ("header(" ++ inner ++ ")" ++ rest)%string ->
   parseExpression value = EHeader inner) /\
  (trim value = ("var(" ++ inner ++ ")" ++ rest)%string ->
   parseExpression value = EVar (stripPrefix "--" inner)).
Proof.
  intros Hb.
  repeat split; intros Ht; rewrite parseExpression_unfold; cbv zeta; rewrite Ht;
    repeat (rewrite startsWith_app_other by discriminate);
    rewrite startsWith_app; cbv iota;
    match goal with
    | |- context [extractFunctionContent ?v ?f] =>
        replace (extractFunctionContent v f) with inner
          by (symmetry; exact (extractFunctionContent_inner f inner rest Hb))
    end; reflexivity.
Qed.

Lemma parseStringValue_quoted q (s : string) q' :
  isQuote q = true -> isQuote q' = true ->
  parseStringValue (String q (s ++ String q' EmptyString)) = s.
Proof.
  intros Hq Hq'. unfold parseStringValue.
  rewrite trim_framed.
  - unfold stripQuotes. rewrite Hq, lastChar_app, Hq'. apply dropLast_app.
  - apply orb_true_iff in Hq as [Hq|Hq]; apply Ascii.eqb_eq in Hq; subst q; reflexivity.
  - apply orb_true_iff in Hq' as [Hq'|Hq']; apply Ascii.eqb_eq in Hq'; subst q'; reflexivity.
Qed.

Lemma parseExpression_quoted value q s q' :
  isQuote q = true -> isQuote q' = true ->
  trim value = String q (s ++ String q' EmptyString) ->
  parseExpression value = ELiteral (VString s).
Proof.
  intros Hq Hq' Ht. rewrite parseExpression_unfold. cbv zeta. rewrite Ht.
  rewrite parseStringValue_quoted by assumption.
  assert (Hhead : forall p ps, isQuote p = false ->
            startsWith (String q (s ++ String q' "")) (String p ps) = false).
  { intros p ps Hp. apply startsWith_other_head. intros ->. congruence. }
  rewrite !Hhead by reflexivity.
  assert (Hnum : isNumericLiteral (String q (s ++ String q' "")) = false).
  { apply orb_true_iff in Hq as [Hq|Hq]; apply Ascii.eqb_eq in Hq; subst q; reflexivity. }
  assert (Heq : forall k, isQuote k = false ->
            forall ks, String.eqb (String q (s ++ String q' "")) (String k ks) = false).
  { intros k Hk ks. simpl. destruct (Ascii.eqb_spec q k) as [->|Hne]; [congruence|reflexivity]. }
  rewrite Hnum, !Heq by reflexivity. reflexivity.
Qed.

(** X13.  A text between two quote characters, of either kind and not
    necessarily the same, parses to the literal that evaluates, in every
    environment, to the string between them, whatever that string looks
    like: a quoted number or a quoted [true] is a string. *)
Theorem parseExpression_quoted_text {D : Type} {engine : Executor D} value q s q'
    (w : World D) :
  isQuote q = true -> isQuote q' = true ->
  trim value = String q (s ++ String q' EmptyString) ->
  parseExpression value = ELiteral (VString s) /\
  evaluateExpression (parseExpression value) w = (Returned (VString s), w).
Proof.
  intros Hq Hq' Ht.
  rewrite (parseExpression_quoted value q s q' Hq Hq' Ht).
  split; reflexivity.
Qed.

Lemma parseIfParts_form (rec : string -> Expression) parts acc :
  (forall s, parsedForm (rec s) = true) ->
  forallb (fun b => parsedForm (snd b)) (fst acc) = true ->
  match snd acc with Some e => parsedForm e = true | None => True end ->
  let r := fold_left (parseIfPart rec) parts acc in
  forallb (fun b => parsedForm (snd b)) (fst r) = true /\
  match snd r with Some e => parsedForm e = true | None => True end.
Proof.
  intros Hrec. revert acc. induction parts as [|part parts IH]; intros [branches elseValue];
    simpl; [auto|].
  intros Hb He. apply IH.
  - destruct (startsWith (trim part) "else:"); [exact Hb|].
    destruct (negb (findColonInBranch part =? -1)); [|exact Hb].
    simpl. rewrite forallb_app, Hb. simpl. rewrite Hrec. reflexivity.
  - destruct (startsWith (trim part) "else:"); [simpl; apply Hrec|].
    destruct (negb (findColonInBranch part =? -1)); exact He.
Qed.

Lemma parseExpressionFuel_form n value : parsedForm (parseExpressionFuel n value) = true.
Proof.
  revert value. induction n as [|n IH]; intros value; [reflexivity|].
  cbn [parseExpressionFuel]. cbv zeta.
  repeat match goal with
         | |- parsedForm (if ?b then _ else _) = true => destruct b
         | |- parsedForm (match ?o with Some _ => _ | None => _ end) = true => destruct o
         end; try reflexivity.
  - unfold parseSqlExpression.
    destruct (matchSql (trim value)) as [[q g2]|]; [|reflexivity].
    simpl. unfold parseFunctionArgs. destruct (trim _) as [|c0 t0]; [reflexivity|].
    apply forallb_forall. intros e He. apply in_map_iff in He as (piece & <- & _). apply IH.
  - unfold parseIfExpression.
    pose proof (parseIfParts_form (parseExpressionFuel n)
                  (splitIfBranches (extractFunctionContent (trim value) "if")) ([], None)
                  IH eq_refl I) as Hf.
    cbv zeta in Hf.
    destruct (fold_left _ _ _) as [branches elseValue]. simpl in *.
    destruct Hf as [-> He]. destruct elseValue; [exact He | reflexivity].
Qed.

(** X14.  The parser builds no [html] and no [concat] node, at any
    depth, and its literals are strings, numbers, booleans or [null]: this
    holds of every text given to [parseExpression] and of the value of every
    [@return] rule. *)
Theorem parseExpression_forms value atRuleParams :
  parsedForm (parseExpression value) = true /\
  parsedForm (rv_value (parseReturnAtRule atRuleParams)) = true.
Proof.
  split; [apply parseExpressionFuel_form|].
  unfold parseReturnAtRule.
  repeat match goal with |- context [if ?b then _ else _] => destruct b end;
    apply parseExpressionFuel_form.
Qed.

Lemma trimStart_keeps c (s : string) : isWhiteSpace c = false -> trimStart (String c s) = String c s.
Proof. intros Hc. simpl. rewrite Hc. reflexivity. Qed.

Lemma trimStart_app_ws (ws s : string) :
  allChars isWhiteSpace ws = true -> trimStart (ws ++ s) = trimStart s.
Proof.
  induction ws as [|c ws IH]; simpl; [reflexivity|].
  intros H. apply andb_true_iff in H as [Hc H]. rewrite Hc. apply IH. exact H.
Qed.

Lemma isQuote_not_whitespace q : isQuote q = true -> isWhiteSpace q = false.
Proof.
  intros Hq. apply orb_true_iff in Hq as [Hq|Hq]; apply Ascii.eqb_eq in Hq; subst q; reflexivity.
Qed.

Lemma scanSqlText_first_quote acc text q' r g :
  existsChar isQuote text = false -> isQuote q' = true ->
  (acc ++ text)%string <> EmptyString ->
  matchSqlTail r = Some g ->
  scanSqlText acc (text ++ String q' r) = Some ((acc ++ text)%string, g).
Proof.
  intros Ht Hq'. revert acc. induction text as [|c text IH]; intros acc Hne Hg.
  - rewrite append_empty in *. simpl. rewrite Hq', Hg.
    destruct (String.eqb_spec acc ""); [contradiction | reflexivity].
  - simpl in Ht. apply orb_false_iff in Ht as [Hc Ht].
    cbn [String.append scanSqlText]. rewrite Hc. simpl.
    rewrite (IH Ht (acc ++ String c "")%string).
    + rewrite append_assoc. reflexivity.
    + rewrite append_assoc. exact Hne.
    + exact Hg.
Qed.

Lemma matchSql_quoted q text q' r g :
  isQuote q = true -> isQuote q' = true ->
  text <> EmptyString -> existsChar isQuote text = false ->
  matchSqlTail r = Some g ->
  matchSql ("sql(" ++ String q (text ++ String q' r)) = Some (text, g).
Proof.
  intros Hq Hq' Hne Ht Hg. unfold matchSql.
  change ("sql(" ++ String q (text ++ String q' r))%string
    with ("sql" ++ String "(" (String q (text ++ String q' r)))%string.
  rewrite startsWith_app. change 3 with (len "sql"). rewrite sliceFrom_app.
  rewrite trimStart_keeps by reflexivity.
  rewrite trimStart_keeps by (apply isQuote_not_whitespace; exact Hq).
  rewrite Hq. apply (scanSqlText_first_quote "" text q' r g Ht Hq' Hne Hg).
Qed.

Lemma matchSqlTail_args ws c argsStr :
  allChars isWhiteSpace ws = true -> isWhiteSpace c = false ->
  matchSqlTail ("," ++ ws ++ String c argsStr ++ ")") = Some (Some (String c argsStr)).
Proof.
  intros Hws Hc. unfold matchSqlTail.
  assert (Hx : (ws ++ String c argsStr ++ ")")%string
               = ((ws ++ String c argsStr) ++ String ")" "")%string)
    by (rewrite append_assoc; reflexivity).
  change ("," ++ ws ++ String c argsStr ++ ")")%string
    with (String "," (ws ++ String c argsStr ++ ")")%string).
  rewrite trimStart_keeps by reflexivity. cbv iota.
  rewrite Hx, lastChar_app, dropLast_app.
  change (Ascii.eqb ")" ")") with true. cbv iota.
  destruct (ws ++ String c argsStr)%string eqn:E.
  { destruct ws; discriminate. }
  rewrite <- E, trimStart_app_ws, trimStart_keeps by assumption. reflexivity.
Qed.

(** X15.  A query call whose statement is quoted and holds no quote
    character parses to a query node with that statement: without arguments
    when the call closes after the statement, and else with the argument
    list after the comma split and parsed argument by argument. *)
Theorem parseSql_round_trip value q text q' :
  isQuote q = true -> isQuote q' = true ->
  text <> EmptyString -> existsChar isQuote text = false ->
  (trim value = ("sql(" ++ String q (text ++ String q' ")"))%string ->
   parseExpression value = ESql text []) /\
  (forall ws c argsStr,
      allChars isWhiteSpace ws = true -> isWhiteSpace c = false ->
      trim value
      = ("sql(" ++ String q (text ++ String q' ("," ++ ws ++ String c argsStr ++ ")")))%string ->
      parseExpression value
      = ESql text (map parseExpression (splitFunctionArgs (String c argsStr)))).
Proof.
  intros Hq Hq' Hne Ht. split.
  - intros Hv. rewrite parseExpression_unfold. cbv zeta. rewrite Hv.
    rewrite startsWith_app. unfold parseSqlExpression.
    rewrite (matchSql_quoted q text q' ")" None Hq Hq' Hne Ht eq_refl). reflexivity.
  - intros ws c argsStr Hws Hc Hv. rewrite parseExpression_unfold. cbv zeta. rewrite Hv.
    rewrite startsWith_app. unfold parseSqlExpression.
    rewrite (matchSql_quoted q text q' _ (Some (String c argsStr)) Hq Hq' Hne Ht).
    + unfold parseFunctionArgs.
      pose proof (nonBlank_char "" c argsStr Hc) as Hnb. unfold nonBlank in Hnb. simpl in Hnb.
      destruct (trim (String c argsStr)); [discriminate | reflexivity].
    + apply matchSqlTail_args; assumption.
Qed.

End MoreParserProperties.

(** ** Keywords between words *)

Section KeywordFacts.
Local Arguments String.append !s1 s2 : simpl nomatch.

Lemma join_spaced w words : join " " (w :: words) = (w ++ spaced words)%string.
Proof.
  revert w. induction words as [|w' words IH]; intros w.
  - simpl. rewrite append_empty. reflexivity.
  - change (join " " (w :: w' :: words)) with (w ++ " " ++ join " " (w' :: words))%string.
    rewrite IH. reflexivity.
Qed.

Lemma spaceFree_head c (w : string) :
  existsChar isWhiteSpace (String c w) = false ->
  c <> " "%char /\ existsChar isWhiteSpace w = false.
Proof.
  simpl. intros H. apply orb_false_iff in H as [Hc Hw].
  split; [intros ->; discriminate | exact Hw].
Qed.

Lemma isWord_spaceFree w : isWord w = true -> existsChar isWhiteSpace w = false.
Proof. destruct w; [discriminate|]. unfold isWord. apply negb_true_iff. Qed.

(** A keyword followed by a space starts a text made of a word and what
    follows the word exactly when the word is the keyword and something
    follows. *)
Lemma prefix_keyword (kw w T : string) :
  existsChar isWhiteSpace kw = false -> existsChar isWhiteSpace w = false ->
  (T = EmptyString \/ exists T', T = String " " T') ->
  String.prefix (kw ++ " ") (w ++ T) = true -> w = kw /\ T <> EmptyString.
Proof.
  intros Hkw Hw HT. revert w Hw. induction kw as [|k kw IH]; intros w Hw.
  - destruct w as [|c w].
    + change ("" ++ " ")%string with (String " " ""). change ("" ++ T)%string with T.
      destruct HT as [->|[T' ->]]; [discriminate|]. intros _. split; [reflexivity | discriminate].
    + apply spaceFree_head in Hw as [Hc _].
      change ("" ++ " ")%string with (String " " "").
      change (String c w ++ T)%string with (String c (w ++ T)).
      rewrite prefix_other by congruence. discriminate.
  - apply spaceFree_head in Hkw as [Hk Hkw]. specialize (IH Hkw).
    change (String k kw ++ " ")%string with (String k (kw ++ " ")).
    destruct w as [|c w].
    + change ("" ++ T)%string with T. destruct HT as [->|[T' ->]]; [discriminate|].
      rewrite prefix_other by exact Hk. discriminate.
    + apply spaceFree_head in Hw as [_ Hw].
      change (String c w ++ T)%string with (String c (w ++ T)).
      rewrite prefix_cons. destruct (ascii_dec k c) as [->|]; [|discriminate].
      intros Hp. destruct (IH w Hw Hp) as [-> HT']. split; [reflexivity | exact HT'].
Qed.

Lemma indexOfFrom_word needle w s i :
  existsChar isWhiteSpace w = false ->
  indexOfFrom (String " " needle) (w ++ s) i = indexOfFrom (String " " needle) s (i + len w).
Proof.
  revert i. induction w as [|c w IH]; intros i Hw.
  - simpl. unfold len. simpl. f_equal. lia.
  - apply spaceFree_head in Hw as [Hc Hw].
    change (String c w ++ s)%string with (String c (w ++ s)).
    rewrite indexOfFrom_step by (apply prefix_other; congruence).
    rewrite (IH _ Hw). f_equal. unfold len. simpl String.length. lia.
Qed.

Lemma spaced_shape words :
  spaced words = EmptyString \/ exists T', spaced words = String " " T'.
Proof. destruct words; simpl; eauto. Qed.

Lemma indexOfFrom_spaced_none kw words i :
  existsChar isWhiteSpace kw = false ->
  Forall (fun w => existsChar isWhiteSpace w = false) words ->
  Forall (fun w => w <> kw) (removelast words) ->
  indexOfFrom (" " ++ kw ++ " ") (spaced words) i = -1.
Proof.
  intros Hkw Hwords. revert i. induction Hwords as [|w words Hw _ IH]; intros i Hne.
  - reflexivity.
  - cbn [spaced]. change (" " ++ kw ++ " ")%string with (String " " (kw ++ " ")).
    change (" " ++ w ++ spaced words)%string with (String " " (w ++ spaced words)).
    rewrite indexOfFrom_step.
    + rewrite (indexOfFrom_word _ w _ _ Hw). apply IH.
      destruct words; [constructor|]. inversion Hne; assumption.
    + rewrite prefix_same.
      destruct (String.prefix (kw ++ " ") (w ++ spaced words)) eqn:Hp; [|reflexivity].
      apply prefix_keyword in Hp as [-> HT]; [|assumption|assumption|apply spaced_shape].
      destruct words; [contradiction|]. inversion Hne; contradiction.
Qed.

(** No keyword among the words between the first and the last: no
    occurrence. *)
Lemma indexOf_keyword_none kw w words :
  existsChar isWhiteSpace kw = false -> existsChar isWhiteSpace w = false ->
  Forall (fun w => existsChar isWhiteSpace w = false) words ->
  Forall (fun w => w <> kw) (removelast words) ->
  indexOf (join " " (w :: words)) (" " ++ kw ++ " ") = -1.
Proof.
  intros Hkw Hw Hwords Hne. rewrite join_spaced. unfold indexOf.
  change (" " ++ kw ++ " ")%string with (String " " (kw ++ " ")).
  rewrite (indexOfFrom_word _ w _ _ Hw).
  apply (indexOfFrom_spaced_none kw words _ Hkw Hwords Hne).
Qed.

Lemma indexOfFrom_spaced_at kw words R i :
  existsChar isWhiteSpace kw = false ->
  Forall (fun w => existsChar isWhiteSpace w = false) words ->
  Forall (fun w => w <> kw) words ->
  indexOfFrom (" " ++ kw ++ " ") (spaced words ++ " " ++ kw ++ " " ++ R) i
  = i + len (spaced words).
Proof.
  intros Hkw Hwords. revert i. induction Hwords as [|w words Hw _ IH]; intros i Hne.
  - simpl spaced. change ("" ++ " " ++ kw ++ " " ++ R)%string with (" " ++ kw ++ " " ++ R)%string.
    replace (" " ++ kw ++ " " ++ R)%string with ((" " ++ kw ++ " ") ++ R)%string
      by (rewrite !append_assoc; reflexivity).
    rewrite indexOfFrom_prefix. unfold len. simpl. lia.
  - inversion Hne as [|? ? Hwne Hne']; subst. cbn [spaced].
    change (" " ++ kw ++ " ")%string with (String " " (kw ++ " ")) at 1.
    replace ((" " ++ w ++ spaced words) ++ " " ++ kw ++ " " ++ R)%string
      with (String " " (w ++ (spaced words ++ " " ++ kw ++ " " ++ R)))%string
      by (simpl; rewrite !append_assoc; reflexivity).
    rewrite indexOfFrom_step.
    + rewrite (indexOfFrom_word _ w _ _ Hw).
      change (String " " (kw ++ " ")) with (" " ++ kw ++ " ")%string.
      rewrite (IH _ Hne'). unfold len. simpl String.length. rewrite !append_length. lia.
    + rewrite prefix_same.
      destruct (String.prefix (kw ++ " ") (w ++ spaced words ++ " " ++ kw ++ " " ++ R)) eqn:Hp;
        [|reflexivity].
      apply prefix_keyword in Hp as [-> _]; [congruence | assumption | assumption |].
      right. destruct words; simpl; eauto.
Qed.

(** The first occurrence of a keyword after words that are not it. *)
Lemma indexOf_keyword_at kw w words R :
  existsChar isWhiteSpace kw = false -> existsChar isWhiteSpace w = false ->
  Forall (fun w => existsChar isWhiteSpace w = false) words ->
  Forall (fun w => w <> kw) words ->
  indexOf (join " " (w :: words) ++ " " ++ kw ++ " " ++ R) (" " ++ kw ++ " ")
  = len (join " " (w :: words)).
Proof.
  intros Hkw Hw Hwords Hne. rewrite join_spaced, append_assoc. unfold indexOf.
  change (" " ++ kw ++ " ")%string with (String " " (kw ++ " ")) at 1.
  rewrite (indexOfFrom_word _ w _ _ Hw).
  change (String " " (kw ++ " ")) with (" " ++ kw ++ " ")%string.
  rewrite (indexOfFrom_spaced_at kw words R _ Hkw Hwords Hne).
  unfold len. rewrite append_length. lia.
Qed.

End KeywordFacts.

(** ** Conditions by form *)

Section ConditionParsing.
Local Arguments String.append !s1 s2 : simpl nomatch.

Lemma trimEnd_app_keeps (a b : string) :
  b <> EmptyString -> trimEnd b = b -> trimEnd (a ++ b) = (a ++ b)%string.
Proof.
  intros Hne Hb. induction a as [|c a IH]; [exact Hb|].
  change (String c a ++ b)%string with (String c (a ++ b)). cbn [trimEnd]. rewrite IH.
  destruct (a ++ b)%string eqn:E; [|reflexivity].
  destruct a; [simpl in E; congruence | discriminate].
Qed.

Lemma isWord_trimEnd w : isWord w = true -> w <> EmptyString /\ trimEnd w = w.
Proof.
  intros Hw. split; [intros ->; discriminate|].
  apply trimEnd_no_whitespace, isWord_spaceFree, Hw.
Qed.

Lemma trimEnd_spaced (a : string) words :
  a <> EmptyString -> trimEnd a = a ->
  Forall (fun x => isWord x = true) words ->
  trimEnd (a ++ spaced words) = (a ++ spaced words)%string.
Proof.
  intros Hne Ha Hwords. revert a Hne Ha.
  induction Hwords as [|w words Hw _ IH]; intros a Hne Ha.
  - simpl. rewrite append_empty. exact Ha.
  - cbn [spaced].
    replace (a ++ " " ++ w ++ spaced words)%string
      with (((a ++ " ") ++ w) ++ spaced words)%string
      by (rewrite !append_assoc; reflexivity).
    destruct (isWord_trimEnd w Hw) as [Hwne Hwt].
    apply IH.
    + destruct a; discriminate.
    + apply trimEnd_app_keeps; assumption.
Qed.

(** Words joined by single spaces are their own trimmed text. *)
Lemma trim_join w words :
  Forall (fun x => isWord x = true) (w :: words) ->
  trim (join " " (w :: words)) = join " " (w :: words).
Proof.
  intros Hall. inversion Hall as [|? ? Hw Hwords]; subst.
  rewrite join_spaced. unfold trim.
  destruct (isWord_trimEnd w Hw) as [Hwne Hwt].
  assert (Hs : trimStart (w ++ spaced words) = (w ++ spaced words)%string).
  { destruct w as [|c w']; [congruence|].
    apply isWord_spaceFree in Hw. simpl in Hw. apply orb_false_iff in Hw as [Hc _].
    change (String c w' ++ spaced words)%string with (String c (w' ++ spaced words)).
    simpl. rewrite Hc. reflexivity. }
  rewrite Hs. apply trimEnd_spaced; assumption.
Qed.

Lemma spaced_app l1 l2 : spaced (l1 ++ l2) = (spaced l1 ++ spaced l2)%string.
Proof.
  induction l1 as [|w l1 IH]; [reflexivity|].
  simpl. rewrite IH, !append_assoc. reflexivity.
Qed.

Lemma join_keyword w words kw r rwords :
  join " " (w :: words ++ kw :: r :: rwords)
  = (join " " (w :: words) ++ " " ++ kw ++ " " ++ join " " (r :: rwords))%string.
Proof.
  rewrite !join_spaced, spaced_app. simpl. rewrite !append_assoc. reflexivity.
Qed.

Lemma Forall_spaceFree words :
  Forall (fun x => isWord x = true) words ->
  Forall (fun x => existsChar isWhiteSpace x = false) words.
Proof. intros H. eapply Forall_impl; [exact H|]. intros x. apply isWord_spaceFree. Qed.

Lemma parseCondition_or_split (L R : string) :
  trim (L ++ " or " ++ R) = (L ++ " or " ++ R)%string ->
  indexOf (L ++ " or " ++ R) " or " = len L ->
  trim L = L -> trim R = R ->
  parseCondition (L ++ " or " ++ R) = COr [parseCondition L; parseCondition R].
Proof.
  intros Ht Hi HL HR. rewrite parseCondition_unfold. cbv zeta. rewrite Ht, Hi.
  destruct (Z.eqb_spec (len L) (-1)) as [E|_]; [pose proof (len_nonneg L); lia|].
  cbn [negb]. rewrite slice_app_head, HL.
  replace (L ++ " or " ++ R)%string with ((L ++ " or ") ++ R)%string
    by (rewrite append_assoc; reflexivity).
  replace (len L + 4) with (len (L ++ " or "))
    by (unfold len; rewrite append_length; simpl; lia).
  rewrite sliceFrom_app, HR. reflexivity.
Qed.

Lemma parseCondition_and_split (L R : string) :
  trim (L ++ " and " ++ R) = (L ++ " and " ++ R)%string ->
  indexOf (L ++ " and " ++ R) " or " = -1 ->
  indexOf (L ++ " and " ++ R) " and " = len L ->
  trim L = L -> trim R = R ->
  parseCondition (L ++ " and " ++ R) = CAnd [parseCondition L; parseCondition R].
Proof.
  intros Ht Ho Hi HL HR. rewrite parseCondition_unfold. cbv zeta. rewrite Ht, Ho, Hi.
  rewrite Z.eqb_refl. cbn [negb].
  destruct (Z.eqb_spec (len L) (-1)) as [E|_]; [pose proof (len_nonneg L); lia|].
  cbn [negb]. rewrite slice_app_head, HL.
  replace (L ++ " and " ++ R)%string with ((L ++ " and ") ++ R)%string
    by (rewrite append_assoc; reflexivity).
  replace (len L + 5) with (len (L ++ " and "))
    by (unfold len; rewrite append_length; simpl; lia).
  rewrite sliceFrom_app, HR. reflexivity.
Qed.

Lemma parseCondition_not_split (R : string) :
  trim ("not " ++ R) = ("not " ++ R)%string ->
  indexOf ("not " ++ R) " or " = -1 ->
  indexOf ("not " ++ R) " and " = -1 ->
  parseCondition ("not " ++ R) = CNot (parseCondition R).
Proof.
  intros Ht Ho Ha. rewrite parseCondition_unfold. cbv zeta. rewrite Ht, Ho, Ha.
  rewrite Z.eqb_refl. cbn [negb]. rewrite startsWith_app.
  replace (sliceFrom ("not " ++ R) 4) with R by (symmetry; apply (sliceFrom_app "not " R)).
  reflexivity.
Qed.

(** X16.  Conditions written as words between single spaces.  A text
    with [ or ] in it is the disjunction of what stands before the first and
    what stands after it; without [ or ], a text with [ and ] in it is the
    conjunction split at the first [ and ]; and [not ] before a text that
    holds neither is its negation. *)
Theorem parseCondition_connectives w words r rwords :
  Forall (fun x => isWord x = true) (w :: words) ->
  Forall (fun x => isWord x = true) (r :: rwords) ->
  let left := join " " (w :: words) in
  let right := join " " (r :: rwords) in
  (Forall (fun x => x <> "or") words ->
   parseCondition (left ++ " or " ++ right)
   = COr [parseCondition left; parseCondition right]) /\
  (Forall (fun x => x <> "or") words -> Forall (fun x => x <> "and") words ->
   Forall (fun x => x <> "or") (removelast (r :: rwords)) ->
   parseCondition (left ++ " and " ++ right)
   = CAnd [parseCondition left; parseCondition right]) /\
  (Forall (fun x => x <> "or") (removelast (r :: rwords)) ->
   Forall (fun x => x <> "and") (removelast (r :: rwords)) ->
   parseCondition ("not " ++ right) = CNot (parseCondition right)).
Proof.
  intros Hl Hr. cbv zeta.
  pose proof (trim_join w words Hl) as Htl. pose proof (trim_join r rwords Hr) as Htr.
  assert (Hw : existsChar isWhiteSpace w = false)
    by (apply isWord_spaceFree; inversion Hl; assumption).
  assert (Hws : Forall (fun x => existsChar isWhiteSpace x = false) words)
    by (apply Forall_spaceFree; inversion Hl; assumption).
  assert (Hrs : Forall (fun x => existsChar isWhiteSpace x = false) (r :: rwords))
    by (apply Forall_spaceFree; exact Hr).
  assert (Hjoin : forall kw, isWord kw = true ->
            trim (join " " (w :: words) ++ " " ++ kw ++ " " ++ join " " (r :: rwords))
            = (join " " (w :: words) ++ " " ++ kw ++ " " ++ join " " (r :: rwords))%string).
  { intros kw Hkw. rewrite <- join_keyword. apply trim_join.
    inversion Hl; subst. constructor; [assumption|].
    apply Forall_app. split; [assumption|]. constructor; assumption. }
  split; [|split].
  - intros Hor. apply parseCondition_or_split; [|  | exact Htl | exact Htr].
    + exact (Hjoin "or" eq_refl).
    + exact (indexOf_keyword_at "or" w words _ eq_refl Hw Hws Hor).
  - intros Hor Hand Hror. apply parseCondition_and_split; [| | | exact Htl | exact Htr].
    + exact (Hjoin "and" eq_refl).
    + pose proof (join_keyword w words "and" r rwords) as Hj.
      change (" " ++ "and" ++ " " ++ join " " (r :: rwords))%string
        with (" and " ++ join " " (r :: rwords))%string in Hj.
      rewrite <- Hj.
      apply (indexOf_keyword_none "or" w _ eq_refl Hw).
      * apply Forall_app. split; [exact Hws|]. constructor; [reflexivity | exact Hrs].
      * rewrite List.removelast_app by discriminate.
        apply Forall_app. split; [exact Hor|].
        change (removelast ("and" :: r :: rwords)) with ("and" :: removelast (r :: rwords)).
        constructor; [discriminate | exact Hror].
    + exact (indexOf_keyword_at "and" w words _ eq_refl Hw Hws Hand).
  - intros Hror Hrand.
    assert (Hn : ("not " ++ join " " (r :: rwords))%string = join " " ("not" :: r :: rwords))
      by reflexivity.
    apply parseCondition_not_split.
    + rewrite Hn. apply trim_join. constructor; [reflexivity | exact Hr].
    + rewrite Hn. apply (indexOf_keyword_none "or" "not" _ eq_refl eq_refl Hrs Hror).
    + rewrite Hn. apply (indexOf_keyword_none "and" "not" _ eq_refl eq_refl Hrs Hrand).
Qed.

Lemma isWordOrHyphen_not_whitespace c : isWordOrHyphen c = true -> isWhiteSpace c = false.
Proof. destruct c as [[] [] [] [] [] [] [] []]; vm_compute; congruence. Qed.

Lemma wordChars_spaceFree name :
  allChars isWordOrHyphen name = true -> existsChar isWhiteSpace name = false.
Proof.
  induction name as [|c name IH]; simpl; [reflexivity|].
  intros H. apply andb_true_iff in H as [Hc H].
  rewrite (isWordOrHyphen_not_whitespace c Hc), (IH H). reflexivity.
Qed.

Lemma takeWhile_word name (r : string) :
  allChars isWordOrHyphen name = true ->
  takeWhile isWordOrHyphen (name ++ String " " r) = (name, String " " r).
Proof.
  induction name as [|c name IH]; simpl; [reflexivity|].
  intros H. apply andb_true_iff in H as [Hc H]. rewrite Hc, (IH H). reflexivity.
Qed.

Lemma takeWhile_all name :
  allChars isWordOrHyphen name = true -> takeWhile isWordOrHyphen name = (name, EmptyString).
Proof.
  induction name as [|c name IH]; simpl; [reflexivity|].
  intros H. apply andb_true_iff in H as [Hc H]. rewrite Hc, (IH H). reflexivity.
Qed.

Lemma variable_isWord name :
  allChars isWordOrHyphen name = true -> isWord ("--" ++ name) = true.
Proof.
  intros H. unfold isWord. simpl. rewrite (wordChars_spaceFree name H). reflexivity.
Qed.

Lemma isLineTerminator_whitespace c : isLineTerminator c = true -> isWhiteSpace c = true.
Proof. destruct c as [[] [] [] [] [] [] [] []]; vm_compute; congruence. Qed.

Lemma spaced_no_line_terminator (a : string) words :
  existsChar isLineTerminator a = false ->
  Forall (fun x => isWord x = true) words ->
  existsChar isLineTerminator (a ++ spaced words) = false.
Proof.
  intros Ha Hwords. rewrite existsChar_app, Ha. simpl.
  induction Hwords as [|w words Hw _ IH]; [reflexivity|].
  cbn [spaced]. change (" " ++ w ++ spaced words)%string with (String " " (w ++ spaced words)).
  cbn [existsChar]. rewrite existsChar_app, IH.
  assert (Hwl : existsChar isLineTerminator w = false).
  { apply isWord_spaceFree in Hw. clear -Hw. induction w as [|c w IH]; [reflexivity|].
    simpl in *. apply orb_false_iff in Hw as [Hc Hw]. rewrite (IH Hw).
    destruct (isLineTerminator c) eqn:E; [|reflexivity].
    apply isLineTerminator_whitespace in E. congruence. }
  rewrite Hwl. reflexivity.
Qed.

(** The parts the comparison pattern finds in a variable, an operator and a
    comparand separated by single spaces. *)
Lemma matchComparison_spaced name op v vwords :
  name <> EmptyString -> allChars isWordOrHyphen name = true ->
  In op ["="; "!="; ">"; "<"; ">="; "<="] ->
  Forall (fun x => isWord x = true) (v :: vwords) ->
  matchComparison ("--" ++ name ++ " " ++ op ++ " " ++ join " " (v :: vwords))
  = Some (("--" ++ name)%string, op, join " " (v :: vwords)).
Proof.
  intros Hne Hname Hop Hv. unfold matchComparison. rewrite startsWith_app.
  replace (sliceFrom ("--" ++ name ++ " " ++ op ++ " " ++ join " " (v :: vwords)) 2)
    with (name ++ " " ++ op ++ " " ++ join " " (v :: vwords))%string
    by (symmetry; apply (sliceFrom_app "--")).
  change (name ++ " " ++ op ++ " " ++ join " " (v :: vwords))%string
    with (name ++ String " " (op ++ " " ++ join " " (v :: vwords)))%string.
  rewrite (takeWhile_word name _ Hname).
  destruct name as [|n0 name']; [congruence|].
  assert (Hcmp : matchComparand (String " " (join " " (v :: vwords)))
                 = Some (join " " (v :: vwords))).
  { unfold matchComparand. cbn [trimStart]. change (isWhiteSpace " ") with true. cbv iota.
    pose proof (trim_join v vwords Hv) as Ht.
    assert (Hs : trimStart (join " " (v :: vwords)) = join " " (v :: vwords)).
    { rewrite join_spaced. inversion Hv as [|? ? Hv0 _]; subst.
      destruct v as [|c v']; [discriminate|].
      apply isWord_spaceFree in Hv0. simpl in Hv0. apply orb_false_iff in Hv0 as [Hc _].
      change (String c v' ++ spaced vwords)%string with (String c (v' ++ spaced vwords)).
      simpl. rewrite Hc. reflexivity. }
    rewrite Hs.
    assert (Hl : existsChar isLineTerminator (join " " (v :: vwords)) = false).
    { rewrite join_spaced. inversion Hv as [|? ? Hv0 Hvs]; subst.
      apply spaced_no_line_terminator; [|exact Hvs].
      apply isWord_spaceFree in Hv0. clear -Hv0. induction v as [|c w IH]; [reflexivity|].
      simpl in *. apply orb_false_iff in Hv0 as [Hc Hw]. rewrite (IH Hw).
      destruct (isLineTerminator c) eqn:E; [|reflexivity].
      apply isLineTerminator_whitespace in E. congruence. }
    destruct (join " " (v :: vwords)) as [|c0 t0] eqn:E.
    { rewrite join_spaced in E. inversion Hv; subst. destruct v; discriminate. }
    rewrite Hl. reflexivity. }
  simpl in Hop.
  assert (Hsp : forall t, trimStart (String " " t) = trimStart t) by reflexivity.
  repeat (destruct Hop as [<-|Hop];
          [cbn [String.append]; rewrite Hsp, trimStart_keeps by reflexivity;
           cbv iota; rewrite Hcmp; reflexivity|]).
  contradiction.
Qed.

Lemma parseCondition_comparison name op v vwords :
  name <> EmptyString -> allChars isWordOrHyphen name = true ->
  In op ["="; "!="; ">"; "<"; ">="; "<="] ->
  Forall (fun x => isWord x = true) (v :: vwords) ->
  Forall (fun x => x <> "or") (removelast (v :: vwords)) ->
  Forall (fun x => x <> "and") (removelast (v :: vwords)) ->
  parseCondition ("--" ++ name ++ " " ++ op ++ " " ++ join " " (v :: vwords))
  = let value := parseComparand (join " " (v :: vwords)) in
    if String.eqb op "=" then CEquals name value
    else if String.eqb op "!=" then CNotEquals name value
    else if String.eqb op ">" then CGreaterThan name value
    else if String.eqb op "<" then CLessThan name value
    else if String.eqb op ">=" then CGreaterOrEqual name value
    else CLessOrEqual name value.
Proof.
  intros Hne Hname Hop Hv Hor Hand.
  assert (Hopw : isWord op = true /\ op <> "or" /\ op <> "and").
  { simpl in Hop. repeat (destruct Hop as [<-|Hop]; [repeat split; discriminate|]).
    contradiction. }
  destruct Hopw as (Hopw & Hopo & Hopa).
  assert (Hj : ("--" ++ name ++ " " ++ op ++ " " ++ join " " (v :: vwords))%string
               = join " " (("--" ++ name)%string :: op :: v :: vwords)).
  { rewrite (join_spaced ("--" ++ name)%string). cbn [spaced].
    rewrite <- (join_spaced v vwords), !append_assoc. reflexivity. }
  assert (Hall : Forall (fun x => isWord x = true) (("--" ++ name)%string :: op :: v :: vwords)).
  { constructor; [apply variable_isWord; exact Hname|]. constructor; assumption. }
  assert (Htrim : trim ("--" ++ name ++ " " ++ op ++ " " ++ join " " (v :: vwords))
                  = ("--" ++ name ++ " " ++ op ++ " " ++ join " " (v :: vwords))%string).
  { rewrite Hj. apply trim_join. exact Hall. }
  assert (Hio : indexOf ("--" ++ name ++ " " ++ op ++ " " ++ join " " (v :: vwords)) " or "
                = -1).
  { rewrite Hj.
    apply (indexOf_keyword_none "or" _ (op :: v :: vwords) eq_refl
             (isWord_spaceFree _ (variable_isWord name Hname))
             (Forall_spaceFree _ (Forall_inv_tail Hall))).
    change (removelast (op :: v :: vwords)) with (op :: removelast (v :: vwords)).
    constructor; assumption. }
  assert (Hia : indexOf ("--" ++ name ++ " " ++ op ++ " " ++ join " " (v :: vwords)) " and "
                = -1).
  { rewrite Hj.
    apply (indexOf_keyword_none "and" _ (op :: v :: vwords) eq_refl
             (isWord_spaceFree _ (variable_isWord name Hname))
             (Forall_spaceFree _ (Forall_inv_tail Hall))).
    change (removelast (op :: v :: vwords)) with (op :: removelast (v :: vwords)).
    constructor; assumption. }
  rewrite parseCondition_unfold. cbv zeta. rewrite Htrim, Hio, Hia.
  rewrite Z.eqb_refl. cbn [negb].
  rewrite startsWith_app_other by discriminate.
  unfold parseComparison.
  rewrite (matchComparison_spaced name op v vwords Hne Hname Hop Hv).
  unfold stripPrefix. rewrite startsWith_app.
  replace (sliceFrom ("--" ++ name) (len "--")) with name
    by (symmetry; apply (sliceFrom_app "--")).
  rewrite (trim_join v vwords Hv). cbv zeta.
  simpl in Hop. repeat (destruct Hop as [<-|Hop]; [reflexivity|]). contradiction.
Qed.

Lemma parseCondition_variable name :
  name <> EmptyString -> allChars isWordOrHyphen name = true ->
  parseCondition ("--" ++ name) = CTruthy name.
Proof.
  intros Hne Hname. rewrite parseCondition_unfold. cbv zeta.
  pose proof (variable_isWord name Hname) as Hw.
  pose proof (trim_join _ [] ltac:(constructor; [exact Hw | constructor])) as Htrim.
  pose proof (indexOf_keyword_none "or" _ [] eq_refl (isWord_spaceFree _ Hw)
                ltac:(constructor) ltac:(constructor)) as Hio.
  pose proof (indexOf_keyword_none "and" _ [] eq_refl (isWord_spaceFree _ Hw)
                ltac:(constructor) ltac:(constructor)) as Hia.
  cbn [join] in Htrim, Hio, Hia.
  change (" " ++ "or" ++ " ")%string with " or " in Hio.
  change (" " ++ "and" ++ " ")%string with " and " in Hia.
  rewrite Htrim, Hio, Hia, Z.eqb_refl. cbn [negb].
  rewrite startsWith_app_other by discriminate.
  assert (Hm : matchComparison ("--" ++ name) = None).
  { unfold matchComparison. rewrite startsWith_app.
    replace (sliceFrom ("--" ++ name) 2) with name by (symmetry; apply (sliceFrom_app "--")).
    rewrite (takeWhile_all name Hname). destruct name; [congruence | reflexivity]. }
  unfold parseComparison. rewrite Hm.
  unfold matchVariable. rewrite startsWith_app.
  replace (sliceFrom ("--" ++ name) 2) with name by (symmetry; apply (sliceFrom_app "--")).
  rewrite (takeWhile_all name Hname). destruct name; [congruence | reflexivity].
Qed.

Lemma parseComparand_numeric value :
  isNumericLiteral value = true -> parseComparand value = CmpNumber (parseFloat value).
Proof.
  intros Hn. destruct (ofString_numeric value Hn) as [Ho Hnan].
  unfold parseComparand. rewrite Hnan, Ho. reflexivity.
Qed.

Lemma parseComparand_quoted q s q' :
  isQuote q = true -> isQuote q' = true ->
  parseComparand (String q (s ++ String q' EmptyString)) = CmpString s.
Proof.
  intros Hq Hq'. unfold parseComparand.
  assert (Hnan : ofString (String q (s ++ String q' "")) = NaN).
  { unfold ofString.
    rewrite trim_framed by (apply isQuote_not_whitespace; assumption).
    apply orb_true_iff in Hq as [Hq|Hq]; apply Ascii.eqb_eq in Hq; subst q; reflexivity. }
  rewrite Hnan. simpl isNaN. cbv iota. rewrite parseStringValue_quoted by assumption.
  reflexivity.
Qed.

(** X17.  The atoms of conditions: a variable alone tests its truth, and
    a variable, an operator and a value between single spaces parse to the
    comparison of that operator on the variable's name without its hyphens,
    for a value of one or more words with no connective among them but
    possibly the last.  The value is a number when it is text of the
    numeric grammar, and the text between the quotes when it is quoted. *)
Theorem parseCondition_atoms name v vwords :
  name <> EmptyString -> allChars isWordOrHyphen name = true ->
  Forall (fun x => isWord x = true) (v :: vwords) ->
  Forall (fun x => x <> "or") (removelast (v :: vwords)) ->
  Forall (fun x => x <> "and") (removelast (v :: vwords)) ->
  let value := join " " (v :: vwords) in
  parseCondition ("--" ++ name) = CTruthy name /\
  parseCondition ("--" ++ name ++ " = " ++ value) = CEquals name (parseComparand value) /\
  parseCondition ("--" ++ name ++ " != " ++ value) = CNotEquals name (parseComparand value) /\
  parseCondition ("--" ++ name ++ " > " ++ value) = CGreaterThan name (parseComparand value) /\
  parseCondition ("--" ++ name ++ " < " ++ value) = CLessThan name (parseComparand value) /\
  parseCondition ("--" ++ name ++ " >= " ++ value)
  = CGreaterOrEqual name (parseComparand value) /\
  parseCondition ("--" ++ name ++ " <= " ++ value) = CLessOrEqual name (parseComparand value) /\
  (isNumericLiteral value = true -> parseComparand value = CmpNumber (parseFloat value)) /\
  (forall q s q', isQuote q = true -> isQuote q' = true ->
                  value = String q (s ++ String q' EmptyString) ->
                  parseComparand value = CmpString s).
Proof.
  intros Hne Hname Hv Hor Hand value.
  pose proof (fun op Hop => parseCondition_comparison name op v vwords Hne Hname Hop Hv Hor Hand)
    as Hcmp.
  split; [apply parseCondition_variable; assumption|].
  split; [apply (Hcmp "="); simpl; tauto|].
  split; [apply (Hcmp "!="); simpl; tauto|].
  split; [apply (Hcmp ">"); simpl; tauto|].
  split; [apply (Hcmp "<"); simpl; tauto|].
  split; [apply (Hcmp ">="); simpl; tauto|].
  split; [apply (Hcmp "<="); simpl; tauto|].
  split; [apply parseComparand_numeric|].
  intros q s q' Hq Hq' ->. apply parseComparand_quoted; assumption.
Qed.

End ConditionParsing.

(** ** Segments *)

Section SegmentFacts.
Local Arguments String.append !s1 s2 : simpl nomatch.

Lemma scanChar_sameMode sep st1 st2 c :
  sameMode st1 st2 ->
  snd (scanChar sep st1 c) = snd (scanChar sep st2 c) /\
  sameMode (fst (scanChar sep st1 c)) (fst (scanChar sep st2 c)).
Proof.
  destruct st1 as [d1 i1 q1], st2 as [d2 i2 q2]. unfold sameMode. simpl.
  intros (-> & -> & Hq). unfold scanChar. simpl.
  destruct i2.
  - rewrite (Hq eq_refl).
    repeat match goal with
           | |- context [if ?b then _ else _] => destruct b
           end; simpl; repeat split; auto; discriminate.
  - rewrite !andb_false_r.
    repeat match goal with
           | |- context [if ?b then _ else _] => destruct b
           end; simpl; repeat split; auto; discriminate.
Qed.

Lemma scanThrough_sameMode sep st1 st2 s st1' :
  sameMode st1 st2 -> scanThrough sep st1 s = Some st1' ->
  exists st2', scanThrough sep st2 s = Some st2' /\ sameMode st1' st2'.
Proof.
  revert st1 st2. induction s as [|c s IH]; intros st1 st2 Hm; simpl.
  - intros [= <-]. eauto.
  - destruct (scanChar_sameMode sep st1 st2 c Hm) as [Hb Hm'].
    destruct (scanChar sep st1 c) as [t1 b1]. destruct (scanChar sep st2 c) as [t2 b2].
    simpl in Hb, Hm'. subst b2. destruct b1; [discriminate|]. apply IH. exact Hm'.
Qed.

Lemma splitScan_through sep st current seg rest st' :
  scanThrough sep st seg = Some st' ->
  splitScan sep st current (seg ++ rest) = splitScan sep st' (current ++ seg) rest.
Proof.
  revert st current. induction seg as [|c seg IH]; intros st current; simpl.
  - intros [= <-]. rewrite append_empty. reflexivity.
  - destruct (scanChar sep st c) as [t b]. destruct b; [discriminate|].
    intros H. rewrite (IH _ _ H), append_assoc. reflexivity.
Qed.

Lemma findColonFrom_through st seg rest st' i :
  scanThrough ":" st seg = Some st' ->
  findColonFrom st (seg ++ rest) i = findColonFrom st' rest (i + len seg).
Proof.
  revert st i. induction seg as [|c seg IH]; intros st i; simpl.
  - intros [= <-]. unfold len. simpl. f_equal. lia.
  - destruct (scanChar ":" st c) as [t b]. destruct b; [discriminate|].
    intros H. rewrite (IH _ _ H). f_equal. unfold len. simpl String.length. lia.
Qed.

Lemma isSegment_through sep s st :
  isSegment sep s = true -> atTop st ->
  exists st', scanThrough sep st s = Some st' /\ atTop st'.
Proof.
  unfold isSegment. intros Hs [Hd Hi].
  destruct (scanThrough sep scanStart s) as [st0|] eqn:E; [|discriminate].
  apply andb_true_iff in Hs as [Hd0 Hi0].
  apply Z.eqb_eq in Hd0. apply negb_true_iff in Hi0.
  destruct (scanThrough_sameMode sep scanStart st s st0) as (st' & Hst' & Hd' & Hi' & _).
  - repeat split; simpl; [congruence | congruence | discriminate].
  - exact E.
  - exists st'. split; [exact Hst'|]. split; congruence.
Qed.

Lemma scanChar_at_separator sep st :
  atTop st -> isPlain "000" sep = true -> scanChar sep st sep = (st, true).
Proof.
  intros [Hd Hi] Hp. unfold isPlain in Hp. apply negb_true_iff in Hp.
  do 3 (apply orb_false_iff in Hp as [Hp ?]).
  unfold scanChar. rewrite Hi, Hd, Hp. simpl.
  rewrite andb_false_r.
  repeat match goal with H : Ascii.eqb _ _ = false |- _ => rewrite H; clear H end.
  rewrite Ascii.eqb_refl. reflexivity.
Qed.

Lemma splitScan_segments sep p ps st :
  isPlain "000" sep = true -> atTop st ->
  Forall (fun s => isSegment sep s = true) (p :: ps) ->
  splitScan sep st EmptyString (join (String sep EmptyString) (p :: ps))
  = (removelast (p :: ps), List.last (p :: ps) EmptyString).
Proof.
  intros Hsep Hst Hall. revert p st Hst Hall.
  induction ps as [|p' ps IH]; intros p st Hst Hall.
  - inversion Hall as [|? ? Hp _]; subst.
    destruct (isSegment_through sep p st Hp Hst) as (st' & Ht & _).
    cbn [join]. rewrite <- (append_empty p) at 1.
    rewrite (splitScan_through sep st "" p "" st' Ht). reflexivity.
  - inversion Hall as [|? ? Hp Hrest]; subst.
    destruct (isSegment_through sep p st Hp Hst) as (st' & Ht & Hst').
    change (join (String sep "") (p :: p' :: ps))
      with (p ++ String sep "" ++ join (String sep "") (p' :: ps))%string.
    rewrite (splitScan_through sep st "" p _ st' Ht).
    change (String sep "" ++ join (String sep "") (p' :: ps))%string
      with (String sep (join (String sep "") (p' :: ps))).
    cbn [splitScan]. rewrite (scanChar_at_separator sep st' Hst' Hsep).
    rewrite (IH p' st' Hst' Hrest). reflexivity.
Qed.

(** Segments joined by semicolons split into themselves. *)
Lemma splitIfBranches_segments parts :
  Forall (fun s => isSegment ";" s = true) parts ->
  nonBlank (List.last parts EmptyString) = true ->
  splitIfBranches (join ";" parts) = parts.
Proof.
  intros Hall Hnb. destruct parts as [|p ps]; [discriminate|].
  unfold splitIfBranches.
  rewrite (splitScan_segments ";" p ps scanStart eq_refl (conj eq_refl eq_refl) Hall), Hnb.
  symmetry. apply app_removelast_last. discriminate.
Qed.

Lemma isSegment_app sep a b :
  isSegment sep a = true -> isSegment sep b = true -> isSegment sep (a ++ b) = true.
Proof.
  intros Ha Hb.
  destruct (isSegment_through sep a scanStart Ha (conj eq_refl eq_refl)) as (st1 & H1 & Ht1).
  destruct (isSegment_through sep b st1 Hb Ht1) as (st2 & H2 & [Hd2 Hi2]).
  unfold isSegment.
  assert (Hc : forall st s1 s2 st', scanThrough sep st s1 = Some st' ->
                 scanThrough sep st (s1 ++ s2) = scanThrough sep st' s2).
  { intros st s1. revert st. induction s1 as [|c s1 IH]; intros st s2 st'; simpl.
    - intros [= <-]. reflexivity.
    - destruct (scanChar sep st c) as [t b0]. destruct b0; [discriminate|]. apply IH. }
  rewrite (Hc _ _ _ _ H1), H2, Hd2, Hi2. reflexivity.
Qed.

Lemma isSegment_plain sep s : allChars (isPlain sep) s = true -> isSegment sep s = true.
Proof.
  intros Hs. unfold isSegment.
  assert (H : scanThrough sep scanStart s = Some scanStart).
  { induction s as [|c s IH]; [reflexivity|].
    simpl in Hs. apply andb_true_iff in Hs as [Hc Hs].
    simpl. rewrite (scanChar_plain sep scanStart c eq_refl Hc). apply IH. exact Hs. }
  rewrite H. reflexivity.
Qed.

(** X18.  Segments joined by the separator are split into themselves,
    a segment being a text in which the scanner meets no separator at depth
    0 outside quotes and which it leaves at depth 0 outside quotes: branches
    come back as they are when the last one is not blank, arguments trimmed
    and without the blank ones. *)
Theorem split_joined_segments :
  (forall parts,
      Forall (fun s => isSegment ";" s = true) parts ->
      nonBlank (List.last parts EmptyString) = true ->
      splitIfBranches (join ";" parts) = parts) /\
  (forall arg args,
      Forall (fun s => isSegment "," s = true) (arg :: args) ->
      splitFunctionArgs (join "," (arg :: args))
      = map trim (List.filter nonBlank (arg :: args))).
Proof.
  split.
  - exact splitIfBranches_segments.
  - intros arg args Hall. unfold splitFunctionArgs.
    rewrite (splitScan_segments "," arg args scanStart eq_refl (conj eq_refl eq_refl) Hall).
    rewrite <- app_removelast_last by discriminate. reflexivity.
Qed.

End SegmentFacts.

(** ** Trimming twice *)

Section TrimFacts.
Local Arguments String.append !s1 s2 : simpl nomatch.

Lemma trimStart_shape s :
  trimStart s = EmptyString \/
  exists c r, trimStart s = String c r /\ isWhiteSpace c = false.
Proof.
  induction s as [|c s IH]; simpl; [auto|].
  destruct (isWhiteSpace c) eqn:E; [exact IH | eauto].
Qed.

Lemma trimEnd_cons_nonws c e :
  isWhiteSpace c = false -> trimEnd (String c e) = String c (trimEnd e).
Proof. intros Hc. cbn [trimEnd]. destruct (trimEnd e); [rewrite Hc|]; reflexivity. Qed.

Lemma trimEnd_idempotent s : trimEnd (trimEnd s) = trimEnd s.
Proof.
  induction s as [|c s IH]; [reflexivity|].
  cbn [trimEnd]. destruct (trimEnd s) as [|d r] eqn:E.
  - destruct (isWhiteSpace c) eqn:Ec; [reflexivity|]. cbn [trimEnd]. rewrite Ec. reflexivity.
  - cbn [trimEnd] in *. rewrite IH. reflexivity.
Qed.

Lemma trimStart_trimEnd s : trimStart (trimEnd s) = trimEnd (trimStart s).
Proof.
  induction s as [|c s IH]; [reflexivity|].
  cbn [trimStart]. destruct (isWhiteSpace c) eqn:Ec.
  - cbn [trimEnd]. rewrite <- IH. destruct (trimEnd s) as [|d r] eqn:E.
    + rewrite Ec. reflexivity.
    + cbn [trimStart]. rewrite Ec. reflexivity.
  - rewrite (trimEnd_cons_nonws c s Ec). cbn [trimStart]. rewrite Ec. reflexivity.
Qed.

Lemma trimStart_idempotent s : trimStart (trimStart s) = trimStart s.
Proof.
  destruct (trimStart_shape s) as [->|(c & r & -> & Hc)]; [reflexivity|].
  cbn [trimStart]. rewrite Hc. reflexivity.
Qed.

Lemma trim_idempotent s : trim (trim s) = trim s.
Proof.
  unfold trim. rewrite trimStart_trimEnd, trimStart_idempotent, trimEnd_idempotent.
  reflexivity.
Qed.

Lemma trim_trimEnd s : trim (trimEnd s) = trim s.
Proof. unfold trim. rewrite trimStart_trimEnd, trimEnd_idempotent. reflexivity. Qed.

End TrimFacts.

(** ** Conditionals from their parts *)

Section IfParsing.
Context {host : Builtins}.
Local Arguments String.append !s1 s2 : simpl nomatch.

Lemma parseExpression_trim value : parseExpression (trim value) = parseExpression value.
Proof.
  rewrite (parseExpression_unfold (trim value)), (parseExpression_unfold value).
  cbv zeta. rewrite trim_idempotent. reflexivity.
Qed.

Lemma parseCondition_trim str : parseCondition (trim str) = parseCondition str.
Proof.
  rewrite (parseCondition_unfold (trim str)), (parseCondition_unfold str).
  cbv zeta. rewrite trim_idempotent. reflexivity.
Qed.

Lemma findColonInBranch_segment condition rest :
  isSegment ":" condition = true ->
  findColonInBranch (condition ++ ":" ++ rest) = len condition.
Proof.
  intros Hc. unfold findColonInBranch.
  destruct (isSegment_through ":" condition scanStart Hc (conj eq_refl eq_refl))
    as (st' & Ht & Hst').
  rewrite (findColonFrom_through scanStart condition _ st' 0 Ht).
  change (":" ++ rest)%string with (String ":" rest). cbn [findColonFrom].
  rewrite (scanChar_at_separator ":" st' Hst' eq_refl). reflexivity.
Qed.

(** X19.  [findColonInBranch] answers either -1 or the position of a
    colon of the text; when the text is a segment (for the colon), then a
    colon, then anything, it answers the position of that colon. *)
Theorem findColonInBranch_position :
  (forall str,
      findColonInBranch str = -1 \/
      (0 <= findColonInBranch str < len str /\
       String.get (Z.to_nat (findColonInBranch str)) str = Some ":"%char)) /\
  (forall condition rest,
      isSegment ":" condition = true ->
      findColonInBranch (condition ++ ":" ++ rest) = len condition).
Proof.
  split.
  - intros str. unfold findColonInBranch.
    destruct (findColonFrom_bounds scanStart str 0) as [H|[H1 H2]]; [auto|]. right.
    rewrite Z.sub_0_r in H2. split; [lia | exact H2].
  - exact findColonInBranch_segment.
Qed.

Lemma parseIfPart_branch rec acc elseValue b :
  isSegment ":" (fst b) = true ->
  startsWith (trim (branchText b)) "else:" = false ->
  parseIfPart rec (acc, elseValue) (branchText b)
  = ((acc ++ [(parseCondition (trim (fst b)), rec (trim (snd b)))])%list, elseValue).
Proof.
  intros Hc He. unfold parseIfPart. rewrite He. unfold branchText.
  rewrite (findColonInBranch_segment (fst b) (snd b) Hc).
  destruct (Z.eqb_spec (len (fst b)) (-1)) as [E|_]; [pose proof (len_nonneg (fst b)); lia|].
  cbn [negb]. rewrite slice_app_head.
  replace (fst b ++ ":" ++ snd b)%string with ((fst b ++ ":") ++ snd b)%string
    by (rewrite append_assoc; reflexivity).
  replace (len (fst b) + 1) with (len (fst b ++ ":"))
    by (unfold len; rewrite append_length; simpl; lia).
  rewrite sliceFrom_app. reflexivity.
Qed.

Lemma parseIfParts_branches rec branches acc elseValue :
  Forall (fun b => isSegment ":" (fst b) = true /\
                   startsWith (trim (branchText b)) "else:" = false) branches ->
  fold_left (parseIfPart rec) (map branchText branches) (acc, elseValue)
  = ((acc ++ map (fun b => (parseCondition (trim (fst b)), rec (trim (snd b)))) branches)%list,
     elseValue).
Proof.
  intros Hall. revert acc. induction Hall as [|b bs [Hc He] _ IH]; intros acc;
    cbn [map fold_left].
  - rewrite app_nil_r. reflexivity.
  - rewrite (parseIfPart_branch rec acc elseValue b Hc He), IH, <- app_assoc. reflexivity.
Qed.

Lemma parseIfPart_else_text rec acc elseValue ws e :
  allChars isWhiteSpace ws = true ->
  parseIfPart rec (acc, elseValue) (ws ++ "else:" ++ e) = (acc, Some (rec (trim e))).
Proof.
  intros Hws.
  assert (Ht : trim (ws ++ "else:" ++ e) = ("else:" ++ trimEnd e)%string).
  { unfold trim. rewrite (trimStart_app_ws ws _ Hws).
    cbn [String.append]. rewrite trimStart_keeps by reflexivity.
    rewrite !trimEnd_cons_nonws by reflexivity. reflexivity. }
  unfold parseIfPart. rewrite Ht, startsWith_app.
  replace (sliceFrom ("else:" ++ trimEnd e) 5) with (trimEnd e)
    by (symmetry; apply (sliceFrom_app "else:")).
  rewrite trim_trimEnd. reflexivity.
Qed.

Lemma isSegment_branchText b :
  isSegment ";" (fst b) = true -> isSegment ";" (snd b) = true ->
  isSegment ";" (branchText b) = true.
Proof.
  intros Hc Hv. unfold branchText. apply isSegment_app; [exact Hc|].
  apply (isSegment_app ";" ":" (snd b)); [reflexivity | exact Hv].
Qed.

Lemma whitespace_isSegment ws : allChars isWhiteSpace ws = true -> isSegment ";" ws = true.
Proof.
  intros Hws. apply isSegment_plain. induction ws as [|c ws IH]; [reflexivity|].
  simpl in *. apply andb_true_iff in Hws as [Hc Hws]. rewrite (IH Hws), andb_true_r.
  destruct c as [[] [] [] [] [] [] [] []]; try discriminate; reflexivity.
Qed.

(** X20.  A conditional written from its parts parses back to them:
    [if(c1:v1;...;cn:vn)], with an [else:] part at the end or without one,
    parses to the branches in order, each the parsed condition and the parsed
    value, and the parsed else text.  Conditions and values may hold quoted
    runs and nested calls: each has to be a segment (the conditions for the
    colon too), no branch may start with [else:], and the parentheses of
    the whole content have to match. *)
Theorem parseIf_round_trip value branches ws elseText rest :
  let parts :=
    (map branchText branches
       ++ match elseText with Some e => [(ws ++ "else:" ++ e)%string] | None => [] end)%list in
  allChars isWhiteSpace ws = true ->
  trim value = ("if(" ++ join ";" parts ++ ")" ++ rest)%string ->
  balanced (join ";" parts) = true ->
  Forall (fun b => isSegment ":" (fst b) = true /\
                   isSegment ";" (fst b) = true /\ isSegment ";" (snd b) = true /\
                   startsWith (trim (branchText b)) "else:" = false) branches ->
  (forall e, elseText = Some e -> isSegment ";" e = true) ->
  parseExpression value
  = EIf (map (fun b => (parseCondition (fst b), parseExpression (snd b))) branches)
        (option_map parseExpression elseText).
Proof.
  intros parts Hws Hv Hbal Hbs He.
  assert (Hsplit : splitIfBranches (join ";" parts) = parts).
  { destruct parts as [|p ps] eqn:Ep; [reflexivity|]. rewrite <- Ep.
    apply splitIfBranches_segments.
    - unfold parts. apply Forall_app. split.
      + apply List.Forall_forall. intros part Hin. apply in_map_iff in Hin as (b & <- & Hb).
        rewrite List.Forall_forall in Hbs. destruct (Hbs b Hb) as (_ & Hc & Hvs & _).
        apply isSegment_branchText; assumption.
      + destruct elseText as [e|]; [|constructor]. constructor; [|constructor].
        apply isSegment_app; [apply whitespace_isSegment; exact Hws|].
        apply (isSegment_app ";" "else:" e); [reflexivity | apply He; reflexivity].
    - unfold parts. destruct elseText as [e|].
      + rewrite last_last. apply (nonBlank_char ws "e"). reflexivity.
      + rewrite app_nil_r.
        destruct branches as [|b0 bs] using rev_ind.
        { unfold parts in Ep. simpl in Ep. discriminate. }
        rewrite map_app. simpl map. rewrite last_last. unfold branchText.
        apply nonBlank_char. reflexivity. }
  rewrite parseExpression_unfold. cbv zeta. rewrite Hv.
  repeat (rewrite startsWith_app_other by discriminate).
  rewrite startsWith_app. cbv iota.
  unfold parseIfExpression.
  replace (extractFunctionContent ("if(" ++ join ";" parts ++ ")" ++ rest) "if")
    with (join ";" parts)
    by (symmetry; exact (extractFunctionContent_inner "if" _ rest Hbal)).
  rewrite Hsplit. unfold parts. rewrite fold_left_app.
  rewrite (parseIfParts_branches parseExpression branches [] None).
  - cbn [app].
    assert (Hmap : map (fun b => (parseCondition (trim (fst b)), parseExpression (trim (snd b))))
                     branches
                   = map (fun b => (parseCondition (fst b), parseExpression (snd b))) branches).
    { apply map_ext. intros b. rewrite parseCondition_trim, parseExpression_trim. reflexivity. }
    rewrite Hmap. destruct elseText as [e|]; cbn [fold_left option_map].
    + rewrite (parseIfPart_else_text _ _ _ ws e Hws), parseExpression_trim. reflexivity.
    + reflexivity.
  - eapply Forall_impl; [exact Hbs|]. simpl. tauto.
Qed.

End IfParsing.

(** ** Return rules *)

Section ReturnRules.
Context {D : Type} {engine : Executor D} {host : Builtins}.
Local Arguments String.append !s1 s2 : simpl nomatch.




Lemma parseReturnAtRule_call kind inner rest params :
  balanced inner = true ->
  trim params = (kind ++ "(" ++ inner ++ ")" ++ rest)%string ->
  (kind = "json" \/ kind = "html") ->
  parseReturnAtRule params
  = {| rv_type := if String.eqb kind "json" then ReturnJson else ReturnHtml;
       rv_value := parseExpression inner |}.
Proof.
  intros Hb Ht Hk. unfold parseReturnAtRule. cbv zeta. rewrite Ht.
  destruct Hk as [-> | ->].
  - change ("json" ++ "(" ++ inner ++ ")" ++ rest)%string
      with ("json(" ++ inner ++ ")" ++ rest)%string.
    rewrite startsWith_app.
    replace (extractFunctionContent ("json(" ++ inner ++ ")" ++ rest) "json") with inner
      by (symmetry; exact (extractFunctionContent_inner "json" inner rest Hb)).
    reflexivity.
  - change ("html" ++ "(" ++ inner ++ ")" ++ rest)%string
      with ("html(" ++ inner ++ ")" ++ rest)%string.
    rewrite startsWith_app_other by discriminate.
    rewrite startsWith_app.
    replace (extractFunctionContent ("html(" ++ inner ++ ")" ++ rest) "html") with inner
      by (symmetry; exact (extractFunctionContent_inner "html" inner rest Hb)).
    reflexivity.
Qed.

(** X21.  A [@return] rule written [json(...)] or [html(...)] has that
    kind, and its value is what the text between the parentheses parses to,
    when the parentheses of that text match; any other rule is a [json]
    return whose value is the whole text parsed. *)
Theorem parseReturnAtRule_kinds params inner rest :
  (balanced inner = true ->
   trim params = ("json(" ++ inner ++ ")" ++ rest)%string ->
   parseReturnAtRule params
   = {| rv_type := ReturnJson; rv_value := parseExpression inner |}) /\
  (balanced inner = true ->
   trim params = ("html(" ++ inner ++ ")" ++ rest)%string ->
   parseReturnAtRule params
   = {| rv_type := ReturnHtml; rv_value := parseExpression inner |}) /\
  (startsWith (trim params) "json(" = false -> startsWith (trim params) "html(" = false ->
   parseReturnAtRule params
   = {| rv_type := ReturnJson; rv_value := parseExpression params |}).
Proof.
  split; [|split].
  - intros Hb Ht. exact (parseReturnAtRule_call "json" inner rest params Hb Ht (or_introl eq_refl)).
  - intros Hb Ht. exact (parseReturnAtRule_call "html" inner rest params Hb Ht (or_intror eq_refl)).
  - intros Hj Hh. unfold parseReturnAtRule. cbv zeta. rewrite Hj, Hh, parseExpression_trim.
    reflexivity.
Qed.



End ReturnRules.

(** ** The [@database] blocks *)

Section DatabaseBlocks.
Local Arguments String.append !s1 s2 : simpl nomatch.

Lemma findEndBrace_balanced body rest depth i :
  bracesFrom depth body = true ->
  findEndBrace (body ++ String "}" rest) (Z.of_nat depth + 1) i = Some (i + len body).
Proof.
  revert depth i. induction body as [|c body IH]; intros depth i; simpl.
  - intros Hd. apply Nat.eqb_eq in Hd as ->. simpl. unfold len. simpl. f_equal. lia.
  - destruct (Ascii.eqb c "{") eqn:E1.
    + apply Ascii.eqb_eq in E1 as ->. change (Ascii.eqb "{" "}") with false. cbv iota.
      intros Hb. destruct (Z.eqb_spec (Z.of_nat depth + 1 + 1) 0) as [E0|_]; [lia|].
      replace (Z.of_nat depth + 1 + 1) with (Z.of_nat (S depth) + 1) by lia.
      rewrite (IH _ _ Hb). unfold len. simpl String.length. f_equal. lia.
    + destruct (Ascii.eqb c "}") eqn:E2.
      * destruct depth as [|d]; [discriminate|]. intros Hb.
        replace (Z.of_nat (S d) + 1 - 1) with (Z.of_nat d + 1) by lia.
        destruct (Z.eqb_spec (Z.of_nat d + 1) 0) as [E0|_]; [lia|].
        rewrite (IH _ _ Hb). unfold len. simpl String.length. f_equal. lia.
      * intros Hb. destruct (Z.eqb_spec (Z.of_nat depth + 1) 0) as [E0|_]; [lia|].
        rewrite (IH _ _ Hb). unfold len. simpl String.length. f_equal. lia.
Qed.

Lemma findEndBrace_bounds s depth i e :
  findEndBrace s depth i = Some e -> i <= e < i + len s.
Proof.
  revert depth i. induction s as [|c s IH]; intros depth i; simpl; [discriminate|].
  match goal with |- context [if ?b then Some i else _] => destruct b end.
  - intros [= <-]. unfold len. simpl String.length. lia.
  - intros H. apply IH in H. unfold len in *. simpl String.length. lia.
Qed.

(** An iteration of the loop that goes on leaves a shorter text. *)
Lemma extractDatabase_step_shorter cleaned e :
  indexOf cleaned "@database" <> -1 ->
  indexOfAt cleaned "{" (indexOf cleaned "@database") <> -1 ->
  findEndBrace (sliceFrom cleaned (indexOfAt cleaned "{" (indexOf cleaned "@database"))) 0
    (indexOfAt cleaned "{" (indexOf cleaned "@database")) = Some e ->
  (String.length (slice cleaned 0 (indexOf cleaned "@database")
                    ++ sliceFrom cleaned (e + 1)) < String.length cleaned)%nat.
Proof.
  intros Hi Hs He.
  pose proof (indexOf_lower cleaned "@database") as Hlo.
  pose proof (indexOf_upper cleaned "@database" Hi) as Hup. simpl in Hup.
  set (index := indexOf cleaned "@database") in *.
  assert (Hk : Z.min (Z.max index 0) (len cleaned) = index) by (unfold len; lia).
  assert (Hsb : index <= indexOfAt cleaned "{" index).
  { unfold indexOfAt in *. rewrite Hk in *.
    destruct (indexOfFrom_lower "{" (sliceFrom cleaned index) index); [assumption | contradiction]. }
  apply findEndBrace_bounds in He.
  rewrite append_length.
  pose proof (substring_length_count (Z.to_nat (clampIndex cleaned 0))
                (Z.to_nat (clampIndex cleaned index - clampIndex cleaned 0)) cleaned) as H1.
  fold (slice cleaned 0 index) in H1.
  pose proof (sliceFrom_length cleaned (e + 1) ltac:(lia)) as H2.
  rewrite !clampIndex_inside in H1 by (unfold len; lia).
  lia.
Qed.

Lemma extractDatabaseLoop_enough n m schema cleaned :
  (String.length cleaned < n)%nat -> (String.length cleaned < m)%nat ->
  extractDatabaseLoop n schema cleaned = extractDatabaseLoop m schema cleaned.
Proof.
  revert m schema cleaned. induction n as [|n IH]; intros [|m] schema cleaned Hn Hm; try lia.
  cbn [extractDatabaseLoop]. cbv zeta.
  destruct (Z.eqb_spec (indexOf cleaned "@database") (-1)) as [|Hi]; [reflexivity|].
  destruct (Z.eqb_spec (indexOfAt cleaned "{" (indexOf cleaned "@database")) (-1)) as [|Hs];
    [reflexivity|].
  destruct (findEndBrace _ 0 _) as [e|] eqn:He; [|reflexivity].
  pose proof (extractDatabase_step_shorter cleaned e Hi Hs He).
  apply IH; lia.
Qed.

Lemma indexOfAt_inside (s needle : string) k :
  0 <= k <= len s -> indexOfAt s needle k = indexOfFrom needle (sliceFrom s k) k.
Proof. intros Hk. unfold indexOfAt. replace (Z.min (Z.max k 0) (len s)) with k by lia. reflexivity. Qed.

(** The schema the loop starts with is kept when it is not blank, and the
    text that is left does not depend on it. *)
Lemma extractDatabaseLoop_schema n schema cleaned :
  snd (extractDatabaseLoop n schema cleaned) = snd (extractDatabaseLoop n None cleaned) /\
  (let result := fst (extractDatabaseLoop n schema cleaned) in
   if noSchema result then None else result)
  = if noSchema schema then
      (let result := fst (extractDatabaseLoop n None cleaned) in
       if noSchema result then None else result)
    else schema.
Proof.
  revert schema cleaned. induction n as [|n IH]; intros schema cleaned.
  - simpl. split; [reflexivity|]. destruct (noSchema schema); reflexivity.
  - cbn [extractDatabaseLoop]. cbv zeta.
    destruct (indexOf cleaned "@database" =? -1).
    { simpl. split; [reflexivity|]. destruct (noSchema schema); reflexivity. }
    destruct (indexOfAt cleaned "{" (indexOf cleaned "@database") =? -1).
    { simpl. split; [reflexivity|]. destruct (noSchema schema); reflexivity. }
    destruct (findEndBrace _ 0 _) as [e|].
    2:{ simpl. split; [reflexivity|]. destruct (noSchema schema); reflexivity. }
    cbn [noSchema]. destruct (noSchema schema) eqn:Es; [split; reflexivity|].
    destruct (IH schema (slice cleaned 0 (indexOf cleaned "@database")
                           ++ sliceFrom cleaned (e + 1))%string) as [H1 H2].
    destruct (IH (Some (trim (slice cleaned
                                (indexOfAt cleaned "{" (indexOf cleaned "@database") + 1) e)))
                (slice cleaned 0 (indexOf cleaned "@database")
                   ++ sliceFrom cleaned (e + 1))%string) as [H3 _].
    split; [congruence|]. rewrite Es in H2. exact H2.
Qed.

Lemma prefix_app_longer (needle s rest : string) :
  (String.length needle <= String.length s)%nat ->
  String.prefix needle (s ++ rest) = String.prefix needle s.
Proof.
  revert s. induction needle as [|a needle IH]; intros s Hl;
    [destruct s; [destruct rest|]; reflexivity|].
  destruct s as [|c s]; [simpl in Hl; lia|].
  simpl. destruct (ascii_dec a c); [|reflexivity]. apply IH. simpl in Hl. lia.
Qed.

(** The first occurrence of [needle] stays where it is when text is added
    after it. *)
Lemma indexOfFrom_extend (needle pre rest : string) i :
  indexOfFrom needle (pre ++ needle) i = i + len pre ->
  indexOfFrom needle (pre ++ needle ++ rest) i = i + len pre.
Proof.
  revert i. induction pre as [|c pre IH]; intros i.
  - intros _. cbn [String.append]. rewrite indexOfFrom_prefix. unfold len. simpl. lia.
  - cbn [String.append indexOfFrom].
    replace (String c (pre ++ needle ++ rest)) with (String c (pre ++ needle) ++ rest)%string
      by (cbn [String.append]; rewrite append_assoc; reflexivity).
    rewrite prefix_app_longer by (simpl; rewrite append_length; lia).
    destruct (String.prefix needle (String c (pre ++ needle))).
    + unfold len. simpl String.length. lia.
    + intros H. rewrite (IH (i + 1)); unfold len in *; simpl String.length in *; lia.
Qed.

(** X23.  A style sheet without [@database] is returned as it is, with
    no schema.  Else the first [@database] block, braces matched, is cut out
    of the text, header included, and the rest is treated in the same way;
    the schema is the trimmed content of the first block whose content is
    not blank. *)
Theorem extractDatabaseSchema_block :
  (forall css, indexOf css "@database" = -1 ->
               extractDatabaseSchema css = {| es_schema := None; es_cleaned := css |}) /\
  (forall pre mid body post,
      indexOf (pre ++ "@database") "@database" = len pre ->
      existsChar (Ascii.eqb "{") mid = false ->
      bracesFrom 0 body = true ->
      extractDatabaseSchema (pre ++ "@database" ++ mid ++ "{" ++ body ++ "}" ++ post)
      = {| es_schema := match trim body with
                        | EmptyString => es_schema (extractDatabaseSchema (pre ++ post))
                        | schema => Some schema
                        end;
           es_cleaned := es_cleaned (extractDatabaseSchema (pre ++ post)) |}).
Proof.
  split.
  - intros css Hi. unfold extractDatabaseSchema. cbn [extractDatabaseLoop]. rewrite Hi.
    reflexivity.
  - intros pre mid body post Hpre Hmid Hbody.
    set (css := (pre ++ "@database" ++ mid ++ "{" ++ body ++ "}" ++ post)%string).
    assert (Hindex : indexOf css "@database" = len pre).
    { unfold indexOf, css.
      exact (indexOfFrom_extend "@database" pre (mid ++ "{" ++ body ++ "}" ++ post) 0 Hpre). }
    set (head := (pre ++ "@database" ++ mid)%string).
    assert (Hcss : css = (head ++ "{" ++ body ++ "}" ++ post)%string).
    { unfold css, head. rewrite !append_assoc. reflexivity. }
    assert (Hlen : len pre <= len head).
    { unfold head, len. rewrite append_length. lia. }
    assert (Hstart : indexOfAt css "{" (len pre) = len head).
    { rewrite indexOfAt_inside.
      2:{ split; [apply len_nonneg|]. unfold css, len. rewrite append_length. lia. }
      unfold css. rewrite sliceFrom_app.
      replace ("@database" ++ mid ++ "{" ++ body ++ "}" ++ post)%string
        with (("@database" ++ mid) ++ "{" ++ body ++ "}" ++ post)%string
        by (rewrite append_assoc; reflexivity).
      change "{" with (String "{" "") at 1.
      rewrite (indexOfFrom_skip "{" "" ("@database" ++ mid) _ (len pre)).
      - change (String "{" "") with "{". rewrite indexOfFrom_prefix.
        unfold head, len. rewrite !append_length. lia.
      - rewrite existsChar_app, Hmid. reflexivity. }
    assert (Hend : findEndBrace (sliceFrom css (len head)) 0 (len head)
                   = Some (len head + 1 + len body)).
    { rewrite Hcss, sliceFrom_app.
      change ("{" ++ body ++ "}" ++ post)%string with (String "{" (body ++ String "}" post)).
      cbn [findEndBrace]. change (Ascii.eqb "{" "{") with true.
      change (Ascii.eqb "{" "}") with false. cbv iota.
      change (0 + 1 =? 0) with false. cbv iota.
      exact (findEndBrace_balanced body post 0 (len head + 1) Hbody). }
    assert (Hschema : slice css (len head + 1) (len head + 1 + len body) = body).
    { rewrite Hcss.
      replace (head ++ "{" ++ body ++ "}" ++ post)%string
        with ((head ++ "{") ++ body ++ "}" ++ post)%string
        by (rewrite append_assoc; reflexivity).
      replace (len head + 1) with (len (head ++ "{"))
        by (unfold len; rewrite append_length; simpl; lia).
      apply slice_app_middle. }
    assert (Hrest : sliceFrom css (len head + 1 + len body + 1) = post).
    { rewrite Hcss.
      replace (head ++ "{" ++ body ++ "}" ++ post)%string
        with ((head ++ "{" ++ body ++ "}") ++ post)%string
        by (rewrite !append_assoc; reflexivity).
      replace (len head + 1 + len body + 1) with (len (head ++ "{" ++ body ++ "}"))
        by (unfold len; rewrite !append_length; simpl; lia).
      apply sliceFrom_app. }
    assert (Hpre' : slice css 0 (len pre) = pre) by apply slice_app_head.
    assert (Hshort : (String.length (pre ++ post) < String.length css)%nat).
    { unfold css. rewrite !append_length. simpl. lia. }
    unfold extractDatabaseSchema at 1. cbn [extractDatabaseLoop].
    rewrite Hindex.
    destruct (Z.eqb_spec (len pre) (-1)) as [E|_]; [pose proof (len_nonneg pre); lia|].
    rewrite Hstart.
    destruct (Z.eqb_spec (len head) (-1)) as [E|_]; [pose proof (len_nonneg head); lia|].
    rewrite Hend. cbn [noSchema]. rewrite Hschema, Hrest, Hpre'.
    rewrite (extractDatabaseLoop_enough (String.length css) (S (String.length (pre ++ post)))
               _ _ Hshort ltac:(lia)).
    destruct (extractDatabaseLoop_schema (S (String.length (pre ++ post)))
                (Some (trim body)) (pre ++ post)) as [H1 H2].
    unfold extractDatabaseSchema.
    destruct (extractDatabaseLoop (S (String.length (pre ++ post))) (Some (trim body))
                (pre ++ post)) as [schema1 cleaned1].
    destruct (extractDatabaseLoop (S (String.length (pre ++ post))) None (pre ++ post))
      as [schema0 cleaned0].
    simpl in H1, H2. subst cleaned1. cbn [es_schema es_cleaned]. rewrite H2.
    destruct (trim body); reflexivity.
Qed.

End DatabaseBlocks.

(** ** Selectors *)

Section Selectors.
Local Arguments String.append !s1 s2 : simpl nomatch.

Lemma matchMethodAt_upper c (r : string) m :
  matchMethodAt (String c r) = Some m ->
  c = ":"%char /\ exists u r', r = String u r' /\ isUpper u = true.
Proof.
  unfold matchMethodAt.
  destruct (Ascii.eqb_spec c ":") as [->|Hc].
  - intros Hf. split; [reflexivity|]. apply find_some in Hf as [Hin Hm].
    apply andb_true_iff in Hm as [Hs _].
    destruct r as [|u r'].
    { simpl in Hin. repeat (destruct Hin as [<-|Hin]; [discriminate|]). contradiction. }
    exists u, r'. split; [reflexivity|].
    simpl in Hin.
    repeat (destruct Hin as [<-|Hin];
            [apply startsWith_head in Hs; subst u; reflexivity|]).
    contradiction.
  - destruct c as [[] [] [] [] [] [] [] []]; try discriminate. exfalso. apply Hc. reflexivity.
Qed.

(** No method starts in a text without upper-case letters that is not
    followed by one. *)
Lemma searchMethod_skip (a s : string) :
  existsChar isUpper a = false -> startsUpper s = false ->
  searchFrom matchMethodAt (a ++ s) = searchFrom matchMethodAt s.
Proof.
  intros Ha Hs. induction a as [|c a IH]; [reflexivity|].
  simpl in Ha. apply orb_false_iff in Ha as [Hc Ha].
  change (String c a ++ s)%string with (String c (a ++ s)).
  cbn [searchFrom].
  destruct (matchMethodAt (String c (a ++ s))) as [m|] eqn:E; [|exact (IH Ha)].
  apply matchMethodAt_upper in E as (_ & u & r' & Hr & Hu).
  destruct a as [|c' a'].
  - simpl in Hr. subst s. simpl in Hs. congruence.
  - change (String c' a' ++ s)%string with (String c' (a' ++ s)) in Hr.
    injection Hr as <- _. simpl in Ha. rewrite Hu in Ha. discriminate.
Qed.

Lemma takeWhile_stop (f : ascii -> bool) (p : string) c (t : string) :
  allChars f p = true -> f c = false -> takeWhile f (p ++ String c t) = (p, String c t).
Proof.
  intros Hp Hc. induction p as [|x p IH]; simpl.
  - rewrite Hc. reflexivity.
  - simpl in Hp. apply andb_true_iff in Hp as [Hx Hp]. rewrite Hx, (IH Hp). reflexivity.
Qed.

Lemma matchMethodAt_method m (rest : string) :
  In m HTTP_METHODS -> wordEnds rest = true ->
  matchMethodAt (String ":" (m ++ rest)) = Some m.
Proof.
  intros Hm Hrest. unfold matchMethodAt.
  assert (Hend : wordEnds (sliceFrom (m ++ rest) (len m)) = true)
    by (rewrite sliceFrom_app; exact Hrest).
  assert (Hstart : startsWith (m ++ rest) m = true) by apply startsWith_app.
  simpl in Hm.
  repeat (destruct Hm as [<-|Hm];
          [unfold HTTP_METHODS; cbn [find];
           repeat (rewrite startsWith_app_other by discriminate; cbn [andb]);
           try (rewrite Hstart, Hend; reflexivity)|]).
  contradiction.
Qed.

Lemma isQuote_not_upper q : isQuote q = true -> isUpper q = false.
Proof.
  intros Hq. apply orb_true_iff in Hq as [Hq|Hq]; apply Ascii.eqb_eq in Hq; subst q; reflexivity.
Qed.

(** X24.  Methods are upper case: a selector without an upper-case
    letter has no method. *)
Theorem parseSelector_method_case selector :
  existsChar isUpper selector = false -> sel_method (parseSelector selector) = None.
Proof.
  intros Hs. unfold parseSelector. cbn [sel_method].
  rewrite <- (append_empty selector).
  rewrite (searchMethod_skip selector "" Hs eq_refl). reflexivity.
Qed.

(** X25.  A selector written as [[path='P']:M], with either kind of
    quote, a path [P] without quotes or upper-case letters and one of the
    seven methods [M] ending at a word boundary, parses to that path and
    that method. *)
Theorem parseSelector_round_trip q path q' method rest :
  isQuote q = true -> isQuote q' = true ->
  path <> EmptyString -> existsChar isQuote path = false ->
  existsChar isUpper path = false ->
  In method HTTP_METHODS -> wordEnds rest = true ->
  parseSelector ("[path=" ++ String q (path ++ String q' ("]:" ++ method ++ rest)))
  = {| sel_path := Some path; sel_method := Some method |}.
Proof.
  intros Hq Hq' Hne Hp Hup Hm Hrest. unfold parseSelector. f_equal.
  - assert (Hat : matchPathAt ("[path=" ++ String q (path ++ String q' ("]:" ++ method ++ rest)))
                  = Some path).
    { unfold matchPathAt.
      change ("[path=" ++ String q (path ++ String q' ("]:" ++ method ++ rest)))%string
        with ("[path" ++ String "=" (String q (path ++ String q' ("]:" ++ method ++ rest))))%string.
      rewrite startsWith_app.
      replace (sliceFrom ("[path" ++ String "=" (String q (path ++ String q' ("]:" ++ method ++ rest)))) 5)
        with (String "=" (String q (path ++ String q' ("]:" ++ method ++ rest))))
        by (symmetry; apply (sliceFrom_app "[path")).
      rewrite trimStart_keeps by reflexivity. cbv iota.
      rewrite trimStart_keeps by (apply isQuote_not_whitespace; exact Hq).
      rewrite Hq.
      rewrite (takeWhile_stop (fun c => negb (isQuote c)) path q').
      - destruct path as [|p0 path']; [congruence|].
        change ("]:" ++ method ++ rest)%string with (String "]" (":" ++ method ++ rest)).
        rewrite trimStart_keeps by reflexivity. reflexivity.
      - clear -Hp. induction path as [|c p IH]; [reflexivity|].
        simpl in *. apply orb_false_iff in Hp as [-> Hp]. exact (IH Hp).
      - rewrite Hq'. reflexivity. }
    destruct ("[path=" ++ String q (path ++ String q' ("]:" ++ method ++ rest)))%string eqn:E.
    { cbn [String.append] in E. discriminate. }
    cbn [searchFrom]. rewrite Hat. reflexivity.
  - replace ("[path=" ++ String q (path ++ String q' ("]:" ++ method ++ rest)))%string
      with (("[path=" ++ String q (path ++ String q' "]")) ++ String ":" (method ++ rest))%string.
    2:{ cbn [String.append]. rewrite !append_assoc. reflexivity. }
    rewrite searchMethod_skip.
    + cbn [searchFrom]. rewrite (matchMethodAt_method method rest Hm Hrest). reflexivity.
    + cbn [String.append existsChar].
      rewrite (isQuote_not_upper q Hq), existsChar_app, Hup.
      cbn [existsChar]. rewrite (isQuote_not_upper q' Hq'). reflexivity.
    + reflexivity.
Qed.

End Selectors.

(** ** Configuration values *)

Section ConfigurationValues.
Local Arguments String.append !s1 s2 : simpl nomatch.

Lemma ofZ_not_nan n : 0 <= n -> isNaN (ofZ n) = false.
Proof.
  intros Hn. unfold ofZ, binary_normalize. destruct n as [|p|p]; [reflexivity| |lia].
  unfold binary_round. destruct (shl_align p 0 _) as [mz ez].
  apply binary_round_aux_not_nan. lia.
Qed.

Lemma digitsValue_nonneg ds acc : allChars isDigit ds = true -> 0 <= acc -> 0 <= digitsValue acc ds.
Proof.
  revert acc. induction ds as [|c ds IH]; intros acc Hd Hacc; simpl; [exact Hacc|].
  simpl in Hd. apply andb_true_iff in Hd as [Hc Hd]. apply IH; [exact Hd|].
  unfold digitValue. unfold isDigit in Hc. apply andb_true_iff in Hc as [H1 H2].
  apply Nat.leb_le in H1. lia.
Qed.

Lemma takeDigits_run ds rest :
  allChars isDigit ds = true ->
  match rest with String c _ => isDigit c = false | EmptyString => True end ->
  takeDigits (ds ++ rest) = (ds, rest).
Proof.
  intros Hd Hr. induction ds as [|c ds IH]; simpl.
  - destruct rest as [|c r]; [reflexivity|]. simpl. rewrite Hr. reflexivity.
  - simpl in Hd. apply andb_true_iff in Hd as [Hc Hd]. rewrite Hc, (IH Hd). reflexivity.
Qed.

Lemma matchEnv_plain value : startsWith value "env" = false -> matchEnv value = None.
Proof. intros H. unfold matchEnv. rewrite H. reflexivity. Qed.

Lemma takeWhile_whole (f : ascii -> bool) (p : string) :
  allChars f p = true -> takeWhile f p = (p, EmptyString).
Proof.
  induction p as [|c p IH]; simpl; [reflexivity|].
  intros H. apply andb_true_iff in H as [Hc H]. rewrite Hc, (IH H). reflexivity.
Qed.

Lemma isWord_head w : isWord w = true ->
  exists c r, w = String c r /\ isWhiteSpace c = false /\ existsChar isWhiteSpace w = false.
Proof.
  destruct w as [|c r]; [discriminate|]. unfold isWord. intros H.
  apply negb_true_iff in H. exists c, r. split; [reflexivity|]. split; [|exact H].
  simpl in H. apply orb_false_iff in H as [H _]. exact H.
Qed.

Lemma no_whitespace_no_terminator (s : string) :
  existsChar isWhiteSpace s = false ->
  allChars (fun c => negb (isLineTerminator c)) s = true.
Proof.
  induction s as [|c s IH]; simpl; [reflexivity|].
  intros H. apply orb_false_iff in H as [Hc H]. rewrite (IH H), andb_true_r.
  apply negb_true_iff. unfold isWhiteSpace in Hc. unfold isLineTerminator.
  repeat (apply orb_false_iff in Hc as [Hc ?]).
  apply orb_false_iff. split; assumption.
Qed.

Lemma trim_word w : isWord w = true -> trim w = w.
Proof.
  intros H. destruct (isWord_head w H) as (c & r & -> & Hc & Hw).
  unfold trim. rewrite (trimStart_keeps c r Hc). apply trimEnd_no_whitespace. exact Hw.
Qed.

Lemma matchEnvDefault_word ws dflt :
  allChars isWhiteSpace ws = true -> isWord dflt = true ->
  matchEnvDefault (ws ++ dflt ++ ")") = Some dflt.
Proof.
  intros Hws Hd. unfold matchEnvDefault.
  replace (ws ++ dflt ++ ")")%string with ((ws ++ dflt) ++ ")")%string
    by (rewrite append_assoc; reflexivity).
  rewrite lastChar_app, dropLast_app, (trimStart_app_ws ws dflt Hws).
  destruct (isWord_head dflt Hd) as (c & r & -> & Hc & Hw).
  rewrite (trimStart_keeps c r Hc).
  rewrite (takeWhile_whole _ _ (no_whitespace_no_terminator _ Hw)). reflexivity.
Qed.

Lemma matchEnv_name name rest :
  isEnvName name = true ->
  match rest with String c _ => isEnvNameChar c = false | EmptyString => True end ->
  matchEnv ("env(" ++ name ++ rest)
  = match rest with
    | String ")" EmptyString => Some (name, None)
    | String "," t =>
        match matchEnvDefault t with
        | Some x => Some (name, Some x)
        | None => None
        end
    | _ => None
    end.
Proof.
  intros Hn Hrest. apply andb_true_iff in Hn as [Hw Hcs].
  destruct (isWord_head name Hw) as (c & r & -> & Hc & _).
  unfold matchEnv.
  change ("env(" ++ String c r ++ rest)%string with ("env" ++ "(" ++ String c r ++ rest)%string.
  rewrite startsWith_app.
  replace (sliceFrom ("env" ++ "(" ++ String c r ++ rest) 3)
    with ("(" ++ String c r ++ rest)%string
    by (symmetry; exact (sliceFrom_app "env" _)).
  change (trimStart ("(" ++ String c r ++ rest))
    with (String "(" (String c r ++ rest)).
  cbv iota.
  change (String c r ++ rest)%string with (String c (r ++ rest)).
  rewrite (trimStart_keeps c (r ++ rest) Hc).
  change (String c (r ++ rest)) with (String c r ++ rest)%string.
  destruct rest as [|x t].
  - rewrite append_empty, (takeWhile_whole _ _ Hcs). reflexivity.
  - rewrite (takeWhile_stop _ _ x t Hcs Hrest).
    unfold isEnvNameChar in Hrest. apply negb_false_iff in Hrest.
    apply orb_true_iff in Hrest as [H|H]; apply Ascii.eqb_eq in H; subst x.
    + reflexivity.
    + destruct t; reflexivity.
Qed.

(** X26.  A reference to the environment, [env(NAME)] or
    [env(NAME, default)].  When the variable is set to a text that is not
    empty, that text is the value (read by [parseInt] for a number, [NaN]
    included); else the default is, with its quotes off for a string; and
    without a default the fallback is for a number and the empty text for a
    string. *)
Theorem env_reference env name ws dflt fallback :
  isEnvName name = true -> ~ In name inheritedNames ->
  allChars isWhiteSpace ws = true -> isWord dflt = true ->
  parseEnvOrNumber env ("env(" ++ name ++ ")") fallback
  = match envVar env name with
    | Some v => parseInt10 v
    | None => fallback
    end /\
  parseEnvOrNumber env ("env(" ++ name ++ "," ++ ws ++ dflt ++ ")") fallback
  = match envVar env name with
    | Some v => parseInt10 v
    | None => parseInt10 dflt
    end /\
  parseEnvOrString env ("env(" ++ name ++ ")")
  = match envVar env name with
    | Some v => v
    | None => EmptyString
    end /\
  parseEnvOrString env ("env(" ++ name ++ "," ++ ws ++ dflt ++ ")")
  = match envVar env name with
    | Some v => v
    | None => stripQuotes dflt
    end.
Proof.
  intros Hn _ Hws Hd.
  assert (Htrim : trim name = name).
  { apply trim_word. apply andb_true_iff in Hn as [Hn _]. exact Hn. }
  assert (H1 : matchEnv ("env(" ++ name ++ ")") = Some (name, None)).
  { rewrite (matchEnv_name name ")" Hn eq_refl). reflexivity. }
  assert (H2 : matchEnv ("env(" ++ name ++ "," ++ ws ++ dflt ++ ")") = Some (name, Some dflt)).
  { change ("," ++ ws ++ dflt ++ ")")%string with (String "," (ws ++ dflt ++ ")")).
    rewrite (matchEnv_name name (String "," (ws ++ dflt ++ ")")) Hn eq_refl).
    rewrite (matchEnvDefault_word ws dflt Hws Hd).
    reflexivity. }
  unfold parseEnvOrNumber, parseEnvOrString.
  rewrite H1, H2, Htrim, (trim_word dflt Hd).
  repeat split; destruct (envVar env name); reflexivity.
Qed.

(** X27.  A value that does not start with [env] is read as written.
    As a number it is [parseInt] of the text unless that is [NaN] or zero,
    when it is the fallback: digits followed by anything that is not a digit
    give the number of the digits.  As a string it is the text, trimmed and
    with one quote off each end. *)
Theorem plain_config_value env value fallback :
  startsWith value "env" = false ->
  (let n := parseEnvOrNumber env value fallback in
   n = fallback \/ (n = parseInt10 value /\ isNaN n = false /\ eqb n zero = false)) /\
  (forall ds rest,
      value = (ds ++ rest)%string -> ds <> EmptyString -> allChars isDigit ds = true ->
      match rest with String c _ => isDigit c = false | EmptyString => True end ->
      parseEnvOrNumber env value fallback
      = if eqb (ofZ (digitsValue 0 ds)) zero then fallback else ofZ (digitsValue 0 ds)) /\
  parseEnvOrString env value = parseStringValue value.
Proof.
  intros Hv. pose proof (matchEnv_plain value Hv) as Hm.
  split; [|split].
  - cbv zeta. unfold parseEnvOrNumber. rewrite Hm. cbv zeta.
    destruct (isNaN (parseInt10 value) || eqb (parseInt10 value) zero)%bool eqn:E.
    + left. reflexivity.
    + right. apply orb_false_iff in E as [E1 E2]. auto.
  - intros ds rest -> Hne Hd Hr. unfold parseEnvOrNumber. rewrite Hm. cbv zeta.
    assert (Hp : parseInt10 (ds ++ rest) = ofZ (digitsValue 0 ds)).
    { unfold parseInt10. destruct ds as [|c ds]; [congruence|].
      pose proof Hd as Hd'. simpl in Hd'. apply andb_true_iff in Hd' as [Hc _].
      change (String c ds ++ rest)%string with (String c (ds ++ rest)).
      rewrite (trimStart_keeps c _ (isDigit_not_whitespace c Hc)).
      assert (Hs : scanSign (String c (ds ++ rest)) = (false, String c (ds ++ rest))).
      { destruct c as [[] [] [] [] [] [] [] []]; try reflexivity; discriminate. }
      rewrite Hs.
      change (String c (ds ++ rest)) with (String c ds ++ rest)%string.
      rewrite (takeDigits_run _ _ Hd Hr). reflexivity. }
    rewrite Hp, (ofZ_not_nan _ (digitsValue_nonneg ds 0 Hd ltac:(lia))). reflexivity.
  - unfold parseEnvOrString, parseStringValue. rewrite Hm. reflexivity.
Qed.

End ConfigurationValues.

(** ** The database handle *)

Section DatabaseHandleProperties.
Context {D : Type} {engine : Executor D} {connector : Connector D} {host : Builtins}.

(** X28.  The database handle.  A schema cannot run before a database
    is opened: [executeSchema] throws [Database not initialized].  Opening
    sets the handle to the database opened.  After [closeDatabase] has
    returned, the handle is unset: closing again does nothing, a schema
    throws again, and every query evaluates to the error object
    [Database not configured]. *)
Theorem database_handle_lifecycle :
  (forall schema (w : World D),
      db w = None ->
      executeSchema schema w = (Threw (ThrownError "Database not initialized"), w)) /\
  (forall dbPath (w w' : World D),
      initDatabase dbPath w = (Returned tt, w') ->
      ctx w' = ctx w /\ exists d, Database_new dbPath = Returned d /\ db w' = Some d) /\
  (forall (w w' : World D),
      closeDatabase w = (Returned tt, w') ->
      ctx w' = ctx w /\ db w' = None /\
      closeDatabase w' = (Returned tt, w') /\
      (forall schema,
          executeSchema schema w' = (Threw (ThrownError "Database not initialized"), w')) /\
      (forall query args,
          evaluateExpression (ESql query args) w'
          = (Returned (errorObject "Database not configured"), w'))).
Proof.
  split; [|split].
  - intros schema w Hw. unfold executeSchema. rewrite Hw. reflexivity.
  - intros dbPath w w'. unfold initDatabase.
    destruct (Database_new dbPath) as [d|e]; intros [= <-]. simpl. eauto.
  - intros w w' Hc.
    assert (Hw' : ctx w' = ctx w /\ db w' = None).
    { unfold closeDatabase in Hc. destruct (db w) as [d|] eqn:Ed.
      - destruct (db_close d); inversion Hc; subst. simpl. auto.
      - inversion Hc; subst. auto. }
    destruct Hw' as [Hctx Hdb]. repeat split; try assumption.
    + unfold closeDatabase. rewrite Hdb. reflexivity.
    + intros schema. unfold executeSchema. rewrite Hdb. reflexivity.
    + intros query args. simpl. unfold evaluateSql. rewrite Hdb. reflexivity.
Qed.

(** X29.  The database of the application.  Without a database in the
    configuration [createApp] opens nothing and ignores the schema, so that,
    the handle being unset, every query evaluates to the error object
    [Database not configured].  With one it opens it and runs the schema,
    when there is one, on the database opened; what it throws is what
    opening or running the schema threw: the guard of [executeSchema] is
    never reached. *)
Theorem createApp_database database schema (w : World D) :
  (match database with Some (String _ _) => False | _ => True end ->
   createAppDatabase database schema w = (Returned tt, w) /\
   (db w = None ->
    forall query args,
      evaluateExpression (ESql query args) w
      = (Returned (errorObject "Database not configured"), w))) /\
  (forall dbPath d,
      database = Some dbPath -> dbPath <> EmptyString -> Database_new dbPath = Returned d ->
      createAppDatabase database schema w
      = match schema with
        | Some (String c r) =>
            let '(done, d') := db_exec (String c r) d in
            (done, {| ctx := ctx w; db := Some d' |})
        | _ => (Returned tt, {| ctx := ctx w; db := Some d |})
        end) /\
  (forall e w',
      createAppDatabase database schema w = (Threw e, w') ->
      exists dbPath,
        database = Some dbPath /\
        (Database_new dbPath = Threw e \/
         exists d text d',
           Database_new dbPath = Returned d /\ schema = Some text /\
           db_exec text d = (Threw e, d'))).
Proof.
  split; [|split].
  - intros Hd. split.
    + unfold createAppDatabase. destruct database as [[|c r]|]; [reflexivity | contradiction | reflexivity].
    + intros Hw query args. simpl. unfold evaluateSql. rewrite Hw. reflexivity.
  - intros dbPath d -> Hne Hnew. destruct dbPath as [|c r]; [congruence|].
    unfold createAppDatabase, bind, initDatabase. rewrite Hnew.
    destruct schema as [[|c' r']|]; try reflexivity.
  - intros e w'. unfold createAppDatabase.
    destruct database as [[|c r]|]; try discriminate.
    unfold bind, initDatabase.
    destruct (Database_new (String c r)) as [d|e0] eqn:Enew.
    + destruct schema as [[|c' r']|]; try discriminate.
      unfold executeSchema. simpl.
      destruct (db_exec (String c' r') d) as [done d'] eqn:Eexec.
      intros [= -> <-]. exists (String c r). split; [reflexivity|]. right.
      exists d, (String c' r'), d'. auto.
    + intros [= -> <-]. exists (String c r). auto.
Qed.

End DatabaseHandleProperties.

(** * Further examples *)

Section MoreExamples.
Local Existing Instance exampleBuiltins.
Local Existing Instance exampleExecutor.
Local Existing Instance exampleConnector.

(** X1: a conditional without a query, on a world with a database. *)
Lemma evaluation_is_pure_without_sql_example :
  usesSql (EIf [(CTruthy "name", EVar "name")] (Some (ELiteral VNull))) = false /\
  exists r,
    evaluateExpression (EIf [(CTruthy "name", EVar "name")] (Some (ELiteral VNull)))
      exampleWorld
    = (r, exampleWorld) /\
    (usesConcat (EIf [(CTruthy "name", EVar "name")] (Some (ELiteral VNull))) = false ->
     exists v, r = Returned v) /\
    (forall e, r = Threw e -> e = conversionError).
Proof.
  split; [reflexivity|].
  apply (evaluation_is_pure_without_sql
           (EIf [(CTruthy "name", EVar "name")] (Some (ELiteral VNull))) exampleWorld).
  right. reflexivity.
Defined.

(** A concatenation joins the texts of its parts, and throws on a part
    that holds an object with a [toString] key, leaving the context as it
    was. *)
Lemma concat_examples :
  evaluateExpression (EConcat [ELiteral (VString "user "); EVar "name"; EVar "id"]) truthyWorld
  = (Returned (VString "user Ada"), truthyWorld) /\
  evaluateExpression (EConcat [ELiteral (VString "user "); EBody "code"])
    {| ctx := freshContext codeRequest; db := @None (list Row) |}
  = (Threw conversionError, {| ctx := freshContext codeRequest; db := None |}).
Proof. split; reflexivity. Qed.

(** X2: an insertion into the two users. *)
Lemma evaluateSql_write_example :
  evaluateExpression (ESql "INSERT INTO users (id) VALUES (?)" [ELiteral (VNumber (ofZ 3))])
    exampleWorld
  = (Returned (VObject [("id", VNumber (ofZ 3)); ("changes", VNumber (ofZ 1))]),
     {| ctx := emptyContext;
        db := Some (exampleUsers ++ [[("id", VNumber (ofZ 3))]])%list |}).
Proof.
  exact (evaluateSql_write "INSERT INTO users (id) VALUES (?)" [ELiteral (VNumber (ofZ 3))]
           exampleWorld [VNumber (ofZ 3)] exampleWorld exampleUsers
           "INSERT INTO users (id) VALUES (?)"
           {| changes := ofZ 1; lastInsertRowid := ofZ 3 |}
           (exampleUsers ++ [[("id", VNumber (ofZ 3))]])%list
           eq_refl ltac:(discriminate) eq_refl eq_refl eq_refl eq_refl).
Defined.

(** X4: the route parameter [id] of the first scenario, bound to a variable. *)
Lemma request_text_is_not_a_number_example :
  exists w',
    assign {| va_name := "id"; va_value := EParam "id" |}
      {| ctx := freshContext userRequest; db := @None (list Row) |}
    = (Returned tt, w') /\
    (forall c,
        holds w' (CGreaterThan "id" c) = false /\ holds w' (CLessThan "id" c) = false /\
        holds w' (CGreaterOrEqual "id" c) = false /\ holds w' (CLessOrEqual "id" c) = false) /\
    (forall n,
        holds w' (CEquals "id" (CmpNumber n)) = false /\
        holds w' (CNotEquals "id" (CmpNumber n)) = true).
Proof.
  apply (request_text_is_not_a_number "id" (EParam "id")).
  exists "id". left. reflexivity.
Defined.

(** X5: the inputs of [searchRequest]. *)
Lemma request_inputs_are_strings_example :
  evaluateExpression (EParam "id") {| ctx := freshContext searchRequest; db := @None (list Row) |}
  = (Returned (VString "7"), {| ctx := freshContext searchRequest; db := None |}) /\
  evaluateExpression (EQuery "tag") {| ctx := freshContext searchRequest; db := @None (list Row) |}
  = (Returned (VString "a,b"), {| ctx := freshContext searchRequest; db := None |}) /\
  evaluateExpression (EQuery "page") {| ctx := freshContext searchRequest; db := @None (list Row) |}
  = (Returned (VString EmptyString), {| ctx := freshContext searchRequest; db := None |}) /\
  evaluateExpression (EHeader "x-TOKEN")
    {| ctx := freshContext searchRequest; db := @None (list Row) |}
  = (Returned (VString "secret"), {| ctx := freshContext searchRequest; db := None |}).
Proof.
  split; [|split; [|split]].
  - apply (proj1 (request_inputs_are_strings searchRequest None [] "id" (RawString "7") []));
      [reflexivity | constructor | discriminate].
  - apply (proj1 (proj2 (request_inputs_are_strings searchRequest None []
                           "tag" (RawArray ["a"; "b"]) [("page", RawUndefined)])));
      [reflexivity | repeat constructor; discriminate | discriminate].
  - apply (proj1 (proj2 (request_inputs_are_strings searchRequest None
                           [("tag", RawArray ["a"; "b"])] "page" RawUndefined [])));
      [reflexivity | constructor | discriminate].
  - apply (proj2 (proj2 (request_inputs_are_strings searchRequest None []
                           "X-Token" (RawString "secret") [])) "x-TOKEN");
      [reflexivity | reflexivity | constructor | discriminate].
Defined.

(** X6: inputs [searchRequest] does not have. *)
Lemma missing_inputs_are_undefined_example :
  evaluateExpression (EQuery "sort") {| ctx := freshContext searchRequest; db := @None (list Row) |}
  = (Returned VUndefined, {| ctx := freshContext searchRequest; db := None |}) /\
  evaluateExpression (EBody "age") {| ctx := freshContext searchRequest; db := @None (list Row) |}
  = (Returned VUndefined, {| ctx := freshContext searchRequest; db := None |}) /\
  evaluateExpression (EHeader "Accept")
    {| ctx := freshContext searchRequest; db := @None (list Row) |}
  = (Returned VUndefined, {| ctx := freshContext searchRequest; db := None |}).
Proof.
  assert (Hsort : ~ In "sort" inheritedNames) by (simpl; intuition discriminate).
  assert (Hage : ~ In "age" inheritedNames) by (simpl; intuition discriminate).
  assert (Haccept : ~ In (toLowerCase "Accept") inheritedNames)
    by (simpl; intuition discriminate).
  split; [|split].
  - apply (proj1 (proj2 (proj1 (missing_inputs_are_undefined searchRequest "sort" None) Hsort))).
    simpl. intuition discriminate.
  - apply (proj1 (proj2 (proj2 (proj1 (missing_inputs_are_undefined searchRequest "age" None)
                                  Hage)))).
    intros fields [= <-]. simpl. intuition discriminate.
  - apply (proj2 (missing_inputs_are_undefined searchRequest "Accept" None) Haccept).
    simpl. intuition discriminate.
Defined.


(** The handler of [adminRoute] on that request, and the handler of a
    route that returns as [html] a body field that holds an object with a
    [toString] key. *)
Lemma handler_examples :
  fst (createHandler adminRoute adminRequest blankResponse (@None (list Row)))
  = Returned {| statusCode := Some (ofZ 200);
                emitted := Some (EmitJson (VString "admin")) |} /\
  fst (createHandler
         {| route_path := "/"; route_method := "POST"; route_variables := [];
            route_status := None;
            route_return := {| rv_type := ReturnHtml; rv_value := EBody "code" |} |}
         codeRequest blankResponse (@None (list Row)))
  = Threw conversionError.
Proof. split; reflexivity. Qed.

(** X8: a status from the text [404]. *)
Lemma status_from_variable_example :
  resolveStatus (Some (StatusVar (EVar "code"))) blankResponse
    {| ctx := {| params := ∅; query := ∅; body := ∅; headers := ∅;
                 variables := <["code" := VString "404"]> ∅ |};
       db := @None (list Row) |}
  = (Returned {| statusCode := Some (ofZ 404); emitted := None |},
     {| ctx := {| params := ∅; query := ∅; body := ∅; headers := ∅;
                  variables := <["code" := VString "404"]> ∅ |};
        db := None |}).
Proof.
  apply (proj1 (status_from_variable "code" blankResponse
                  {| ctx := {| params := ∅; query := ∅; body := ∅; headers := ∅;
                               variables := <["code" := VString "404"]> ∅ |};
                     db := @None (list Row) |}) "404");
    reflexivity.
Defined.

(** X9: the content of a call, with a nested call inside. *)
Lemma extractFunctionContent_matching_example :
  extractFunctionContent "sql('SELECT 1', var(--a)) tail" "sql" = "'SELECT 1', var(--a)" /\
  extractFunctionContent "var(--a" "var" = EmptyString.
Proof.
  split.
  - apply (proj1 (extractFunctionContent_matching "sql" "'SELECT 1', var(--a)" " tail")).
    reflexivity.
  - apply (proj2 (extractFunctionContent_matching "var" "--a" EmptyString)). reflexivity.
Defined.

(** X10: separators inside a quoted run. *)
Lemma quoted_run_is_not_split_example :
  splitIfBranches "--x: 'a;b,c:d' " = ["--x: 'a;b,c:d' "] /\
  splitFunctionArgs " 'a;b,c:d' " = ["'a;b,c:d'"] /\
  findColonInBranch "x 'a;b,c:d' y" = -1.
Proof.
  split; [|split].
  - apply (proj1 (quoted_run_is_not_split "'" "a;b,c:d" "--x: " " " eq_refl eq_refl));
      reflexivity.
  - apply (proj1 (proj2 (quoted_run_is_not_split "'" "a;b,c:d" " " " " eq_refl eq_refl)));
      reflexivity.
  - apply (proj2 (proj2 (quoted_run_is_not_split "'" "a;b,c:d" "x " " y" eq_refl eq_refl)));
      reflexivity.
Defined.

(** X19: the colon after a condition that quotes a colon. *)
Lemma findColonInBranch_position_example :
  findColonInBranch "--role = 'a:b': var(--x)" = 14.
Proof.
  apply (proj2 findColonInBranch_position "--role = 'a:b'" " var(--x)"). reflexivity.
Defined.

(** X18: branches and arguments that hold the separator in quotes and calls. *)
Lemma split_joined_segments_example :
  splitIfBranches "--a: 'x;y'; else: f(1;2)" = ["--a: 'x;y'"; " else: f(1;2)"] /\
  splitFunctionArgs "'a,b', , var(--c) " = ["'a,b'"; "var(--c)"].
Proof.
  split.
  - apply (proj1 split_joined_segments ["--a: 'x;y'"; " else: f(1;2)"]);
      [repeat constructor | reflexivity].
  - apply (proj2 split_joined_segments "'a,b'" [" "; " var(--c) "]). repeat constructor.
Defined.

(** X12: the accessors, with white space around them. *)
Lemma parseExpression_accessors_example :
  parseExpression " param(:id) " = EParam "id" /\
  parseExpression "query(page)" = EQuery "page" /\
  parseExpression "body(user.name)" = EBody "user.name" /\
  parseExpression "header(X-Token)" = EHeader "X-Token" /\
  parseExpression "var(--user)" = EVar "user".
Proof.
  split; [|split; [|split; [|split]]].
  - apply (proj1 (parseExpression_accessors " param(:id) " ":id" EmptyString eq_refl)).
    reflexivity.
  - apply (proj1 (proj2 (parseExpression_accessors "query(page)" "page" EmptyString eq_refl))).
    reflexivity.
  - apply (proj1 (proj2 (proj2 (parseExpression_accessors "body(user.name)" "user.name"
                                  EmptyString eq_refl)))).
    reflexivity.
  - apply (proj1 (proj2 (proj2 (proj2 (parseExpression_accessors "header(X-Token)" "X-Token"
                                         EmptyString eq_refl))))).
    reflexivity.
  - apply (proj2 (proj2 (proj2 (proj2 (parseExpression_accessors "var(--user)" "--user"
                                         EmptyString eq_refl))))).
    reflexivity.
Defined.

(** X13: a quoted text that looks like a number stays a text. *)
Lemma parseExpression_quoted_text_example :
  parseExpression " '42' " = ELiteral (VString "42") /\
  evaluateExpression (parseExpression " '42' ") exampleWorld
  = (Returned (VString "42"), exampleWorld).
Proof.
  apply (parseExpression_quoted_text " '42' " "'" "42" "'" exampleWorld); reflexivity.
Defined.

(** X15: the query of the first scenario. *)
Lemma parseSql_round_trip_example :
  parseExpression "sql('SELECT * FROM users')" = ESql "SELECT * FROM users" [] /\
  parseExpression "sql('SELECT * FROM users WHERE id = ?', var(--id))"
  = ESql "SELECT * FROM users WHERE id = ?" [EVar "id"].
Proof.
  split.
  - apply (proj1 (parseSql_round_trip "sql('SELECT * FROM users')" "'" "SELECT * FROM users" "'"
                    eq_refl eq_refl ltac:(discriminate) eq_refl)).
    reflexivity.
  - apply (proj2 (parseSql_round_trip "sql('SELECT * FROM users WHERE id = ?', var(--id))"
                    "'" "SELECT * FROM users WHERE id = ?" "'"
                    eq_refl eq_refl ltac:(discriminate) eq_refl)
             " " "v"%char "ar(--id)");
      reflexivity.
Defined.

(** X16: connectives between comparisons. *)
Lemma parseCondition_connectives_example :
  parseCondition "--age > 18 or --admin"
  = COr [parseCondition "--age > 18"; parseCondition "--admin"] /\
  parseCondition "--age > 18 and --admin"
  = CAnd [parseCondition "--age > 18"; parseCondition "--admin"] /\
  parseCondition "not --admin" = CNot (parseCondition "--admin").
Proof.
  assert (H := parseCondition_connectives "--age" [">"; "18"] "--admin" []
                 ltac:(repeat constructor) ltac:(repeat constructor)).
  cbv zeta in H. destruct H as (H1 & H2 & H3).
  split; [|split].
  - apply H1. repeat constructor; discriminate.
  - apply H2; repeat constructor; discriminate.
  - apply H3; constructor.
Defined.

(** X17: the comparisons of the parser test on operators. *)
Lemma parseCondition_atoms_example :
  parseCondition "--age" = CTruthy "age" /\
  parseCondition "--age >= 18" = CGreaterOrEqual "age" (CmpNumber (ofZ 18)) /\
  parseCondition "--age = 18" = CEquals "age" (CmpNumber (ofZ 18)).
Proof.
  assert (H := parseCondition_atoms "age" "18" [] ltac:(discriminate) eq_refl
                 ltac:(repeat constructor) ltac:(constructor) ltac:(constructor)).
  cbv zeta in H. destruct H as (H1 & H2 & _ & _ & _ & H6 & _).
  split; [exact H1|]. split; [exact H6 | exact H2].
Defined.

(** X20: a conditional with a comparison, quoted values and an else part. *)
Lemma parseIf_round_trip_example :
  parseExpression "if(--age > 18: 'adult'; else: 'minor')"
  = EIf [(CGreaterThan "age" (CmpNumber (ofZ 18)), ELiteral (VString "adult"))]
        (Some (ELiteral (VString "minor"))).
Proof.
  apply (parseIf_round_trip "if(--age > 18: 'adult'; else: 'minor')"
           [("--age > 18", " 'adult'")] " " (Some " 'minor'") EmptyString);
    [reflexivity | reflexivity | reflexivity | repeat constructor | intros e [= <-]; reflexivity].
Defined.

(** X21: the return rules of a page and of a user. *)
Lemma parseReturnAtRule_kinds_example :
  parseReturnAtRule " html(var(--page)) " = {| rv_type := ReturnHtml; rv_value := EVar "page" |} /\
  parseReturnAtRule "json(var(--user))" = {| rv_type := ReturnJson; rv_value := EVar "user" |} /\
  parseReturnAtRule "var(--user)" = {| rv_type := ReturnJson; rv_value := EVar "user" |}.
Proof.
  split; [|split].
  - apply (proj1 (proj2 (parseReturnAtRule_kinds " html(var(--page)) " "var(--page)"
                           EmptyString)));
      reflexivity.
  - apply (proj1 (parseReturnAtRule_kinds "json(var(--user))" "var(--user)" EmptyString));
      reflexivity.
  - apply (proj2 (proj2 (parseReturnAtRule_kinds "var(--user)" EmptyString EmptyString)));
      reflexivity.
Defined.


(** X23: a style sheet with one [@database] block. *)
Lemma extractDatabaseSchema_block_example :
  extractDatabaseSchema "@server { port: 1; } @database { CREATE TABLE t (id); } a {}"
  = {| es_schema := Some "CREATE TABLE t (id);";
       es_cleaned := "@server { port: 1; }  a {}" |}.
Proof.
  apply (proj2 extractDatabaseSchema_block "@server { port: 1; } " " "
           " CREATE TABLE t (id); " " a {}");
    reflexivity.
Defined.

(** X24: a method in small letters is not a method. *)
Lemma parseSelector_method_case_example :
  sel_method (parseSelector "[path='/users']:get") = None.
Proof. apply (parseSelector_method_case "[path='/users']:get"). reflexivity. Defined.

(** X25: the selector of the first scenario. *)
Lemma parseSelector_round_trip_example :
  parseSelector "[path='/users/:id']:GET"
  = {| sel_path := Some "/users/:id"; sel_method := Some "GET" |}.
Proof.
  apply (parseSelector_round_trip "'" "/users/:id" "'" "GET" EmptyString);
    [reflexivity | reflexivity | discriminate | reflexivity | reflexivity
    | simpl; tauto | reflexivity].
Defined.

(** X26: [PORT] is set and [HOST] is not. *)
Lemma env_reference_example :
  parseEnvOrNumber exampleEnv "env(PORT, 3000)" (ofZ 3000) = ofZ 8080 /\
  parseEnvOrNumber exampleEnv "env(HOST)" (ofZ 3000) = ofZ 3000 /\
  parseEnvOrString exampleEnv "env(HOST, 'localhost')" = "localhost".
Proof.
  assert (Hport : ~ In "PORT" inheritedNames) by (simpl; intuition discriminate).
  assert (Hhost : ~ In "HOST" inheritedNames) by (simpl; intuition discriminate).
  split; [|split].
  - exact (proj1 (proj2 (env_reference exampleEnv "PORT" " " "3000" (ofZ 3000)
                           eq_refl Hport eq_refl eq_refl))).
  - exact (proj1 (env_reference exampleEnv "HOST" " " "3000" (ofZ 3000)
                    eq_refl Hhost eq_refl eq_refl)).
  - exact (proj2 (proj2 (proj2 (env_reference exampleEnv "HOST" " " "'localhost'" (ofZ 3000)
                                  eq_refl Hhost eq_refl eq_refl)))).
Defined.

(** X27: a port with a unit, and a port that is zero. *)
Lemma plain_config_value_example :
  parseEnvOrNumber exampleEnv "8080px" (ofZ 3000) = ofZ 8080 /\
  parseEnvOrNumber exampleEnv "0" (ofZ 3000) = ofZ 3000 /\
  parseEnvOrString exampleEnv " 'localhost' " = "localhost".
Proof.
  split; [|split].
  - apply (proj1 (proj2 (plain_config_value exampleEnv "8080px" (ofZ 3000) eq_refl))
             "8080" "px");
      [reflexivity | discriminate | reflexivity | reflexivity].
  - apply (proj1 (proj2 (plain_config_value exampleEnv "0" (ofZ 3000) eq_refl))
             "0" EmptyString);
      [reflexivity | discriminate | reflexivity | exact I].
  - exact (proj2 (proj2 (plain_config_value exampleEnv " 'localhost' " (ofZ 3000) eq_refl))).
Defined.

(** X28: opening, then closing, the example database. *)
Lemma database_handle_lifecycle_example :
  initDatabase "app.db" {| ctx := emptyContext; db := @None (list Row) |}
  = (Returned tt, {| ctx := emptyContext; db := Some [] |}) /\
  closeDatabase exampleWorld = (Returned tt, {| ctx := emptyContext; db := None |}) /\
  executeSchema "CREATE TABLE t (id)" {| ctx := emptyContext; db := @None (list Row) |}
  = (Threw (ThrownError "Database not initialized"), {| ctx := emptyContext; db := None |}) /\
  evaluateExpression (ESql "SELECT 1" []) {| ctx := emptyContext; db := @None (list Row) |}
  = (Returned (errorObject "Database not configured"), {| ctx := emptyContext; db := None |}).
Proof.
  split; [reflexivity|]. split; [reflexivity|].
  destruct (proj2 (proj2 (@database_handle_lifecycle _ exampleExecutor exampleConnector
                            exampleBuiltins)) exampleWorld
              {| ctx := emptyContext; db := None |} eq_refl) as (_ & _ & _ & Hs & Hq).
  split; [apply Hs | apply Hq].
Defined.

(** X29: a schema without a database, and with one. *)
Lemma createApp_database_example :
  createAppDatabase None (Some "CREATE TABLE t (id)")
    {| ctx := emptyContext; db := @None (list Row) |}
  = (Returned tt, {| ctx := emptyContext; db := None |}) /\
  evaluateExpression (ESql "SELECT 1" []) {| ctx := emptyContext; db := @None (list Row) |}
  = (Returned (errorObject "Database not configured"), {| ctx := emptyContext; db := None |}) /\
  createAppDatabase (Some "app.db") (Some "CREATE TABLE t (id)")
    {| ctx := emptyContext; db := @None (list Row) |}
  = (Returned tt, {| ctx := emptyContext; db := Some [] |}).
Proof.
  pose proof (@createApp_database _ exampleExecutor exampleConnector exampleBuiltins
                None (Some "CREATE TABLE t (id)")
                {| ctx := emptyContext; db := None |}) as (H1 & _ & _).
  destruct (H1 I) as [Hsetup Hsql].
  pose proof (@createApp_database _ exampleExecutor exampleConnector exampleBuiltins
                (Some "app.db") (Some "CREATE TABLE t (id)")
                {| ctx := emptyContext; db := None |}) as (_ & H2 & _).
  split; [exact Hsetup|]. split; [exact (Hsql eq_refl "SELECT 1" [])|].
  exact (H2 "app.db" [] eq_refl ltac:(discriminate) eq_refl).
Defined.

End MoreExamples.
